(** * Presence debounce and actuator control of the cat window

    A shallow embedding of the window controller ([window_controller.py]),
    of the two detector front ends ([cat_detector.py],
    [cat_detector_callback.py] with [headless_detection.py]) and of the
    Modbus command script ([cat_window.py]), followed by the properties
    the design document states about them.

    Conventions.
    - A [datetime] is an integer number of microseconds ([Z]); a
      [timedelta] is a signed number of microseconds.  A nullable
      timestamp is an [option Z].
    - Python floats (confidences, angles, normalised coordinates) are read
      as exact rationals ([Q]); comparisons are the exact ones.
    - Whatever a method obtains from outside (the value of
      [datetime.now()], the exit status of the command script, the
      replies of the Modbus device) is an argument of its model. *)

From Stdlib Require Import ZArith QArith Qround Qabs Bool List Ascii String Sorted Permutation Lia Lqa.
Import ListNotations.

Local Open Scope Z_scope.

(** ** Time *)

Definition Timestamp := Z.
Definition Timedelta := Z.

(** [timedelta(seconds=n)] *)
Definition seconds (n : Z) : Timedelta := n * 1000000.

(** ** window_controller.py *)

Module WindowCtl.

(** The sub-commands of [cat_window.py] that [_execute_window_command]
    launches. *)
Inductive WireCommand :=
| Apri
| Chiudi
| Blocca
| Sblocca
| Finestra (angle : Q).

(** The mutable attributes of a [WindowController]. *)
Record WindowController := mkController {
  current_angle : Q;
  target_angle : Q;
  current_lock_angle : Q;
  target_lock_angle : Q;
  last_command_time : option Timestamp;
  manual_mode : bool;
  is_window_open : bool;
  is_window_locked : bool
}.

Definition CLOSED_ANGLE : Q := 77.
Definition OPEN_ANGLE : Q := 120.
Definition LOCK_CLOSED : Q := 0.
Definition LOCK_OPEN : Q := 90.
Definition command_cooldown : Timedelta := seconds 5.

(** [__init__] *)
Definition init : WindowController :=
  {| current_angle := CLOSED_ANGLE;
     target_angle := CLOSED_ANGLE;
     current_lock_angle := LOCK_CLOSED;
     target_lock_angle := LOCK_CLOSED;
     last_command_time := None;
     manual_mode := false;
     is_window_open := false;
     is_window_locked := true |}.

(** What a call leaves behind: the value returned, the controller after
    the call, and the commands handed to the script, oldest first. *)
Record Outcome := mkOutcome {
  returned : bool;
  after : WindowController;
  wire : list WireCommand
}.

(** The guard
    [last_command_time is not None and
     current_time - last_command_time < command_cooldown]. *)
Definition cooldown_active (self : WindowController) (current_time : Timestamp) : bool :=
  match last_command_time self with
  | Some t => current_time - t <? command_cooldown
  | None => false
  end.

(** [self.manual_mode = b] *)
Definition set_manual_mode (b : bool) (self : WindowController) : WindowController :=
  {| current_angle := current_angle self;
     target_angle := target_angle self;
     current_lock_angle := current_lock_angle self;
     target_lock_angle := target_lock_angle self;
     last_command_time := last_command_time self;
     manual_mode := b;
     is_window_open := is_window_open self;
     is_window_locked := is_window_locked self |}.

(** [if manual: self.manual_mode = True] *)
Definition enter_manual (manual : bool) (self : WindowController) : WindowController :=
  if manual then set_manual_mode true self else self.

(** The assignments of the successful [apri] branch together with the
    stamp of [last_command_time]. *)
Definition opened_at (current_time : Timestamp) (self : WindowController) : WindowController :=
  {| current_angle := OPEN_ANGLE;
     target_angle := OPEN_ANGLE;
     current_lock_angle := LOCK_OPEN;
     target_lock_angle := LOCK_OPEN;
     last_command_time := Some current_time;
     manual_mode := manual_mode self;
     is_window_open := true;
     is_window_locked := false |}.

(** The same for the successful [chiudi] branch. *)
Definition closed_at (current_time : Timestamp) (self : WindowController) : WindowController :=
  {| current_angle := CLOSED_ANGLE;
     target_angle := CLOSED_ANGLE;
     current_lock_angle := LOCK_CLOSED;
     target_lock_angle := LOCK_CLOSED;
     last_command_time := Some current_time;
     manual_mode := manual_mode self;
     is_window_open := false;
     is_window_locked := true |}.

(** [set_window_position(should_be_open, manual)].  [exec c] is the
    result of [_execute_window_command] for the command [c];
    [current_time] is the value of [datetime.now()] at entry. *)
Definition set_window_position (exec : WireCommand -> bool) (current_time : Timestamp)
    (self : WindowController) (should_be_open manual : bool) : Outcome :=
  if cooldown_active self current_time then mkOutcome false self []
  else
    let self := enter_manual manual self in
    if Bool.eqb should_be_open (is_window_open self) && negb manual
    then mkOutcome false self []
    else if should_be_open then
      if exec Apri
      then mkOutcome true (opened_at current_time self) [Apri]
      else mkOutcome false self [Apri]
    else
      if exec Chiudi
      then mkOutcome true (closed_at current_time self) [Chiudi]
      else mkOutcome false self [Chiudi].

(** The assignments of the successful [blocca] branch with the stamp. *)
Definition locked_at (current_time : Timestamp) (self : WindowController) : WindowController :=
  {| current_angle := current_angle self;
     target_angle := target_angle self;
     current_lock_angle := LOCK_CLOSED;
     target_lock_angle := LOCK_CLOSED;
     last_command_time := Some current_time;
     manual_mode := manual_mode self;
     is_window_open := is_window_open self;
     is_window_locked := true |}.

(** The same for the successful [sblocca] branch. *)
Definition unlocked_at (current_time : Timestamp) (self : WindowController) : WindowController :=
  {| current_angle := current_angle self;
     target_angle := target_angle self;
     current_lock_angle := LOCK_OPEN;
     target_lock_angle := LOCK_OPEN;
     last_command_time := Some current_time;
     manual_mode := manual_mode self;
     is_window_open := is_window_open self;
     is_window_locked := false |}.

(** [set_lock_position(should_be_locked, manual)] *)
Definition set_lock_position (exec : WireCommand -> bool) (current_time : Timestamp)
    (self : WindowController) (should_be_locked manual : bool) : Outcome :=
  if cooldown_active self current_time then mkOutcome false self []
  else
    let self := enter_manual manual self in
    if Bool.eqb should_be_locked (is_window_locked self) && negb manual
    then mkOutcome false self []
    else if should_be_locked then
      if exec Blocca
      then mkOutcome true (locked_at current_time self) [Blocca]
      else mkOutcome false self [Blocca]
    else
      if exec Sblocca
      then mkOutcome true (unlocked_at current_time self) [Sblocca]
      else mkOutcome false self [Sblocca].

(** [a < b] on floats *)
Definition Qlt_bool (a b : Q) : bool := negb (Qle_bool b a).

(** The assignments after a successful [finestra <angle>]. *)
Definition angle_set_at (current_time : Timestamp) (angle : Q)
    (self : WindowController) : WindowController :=
  {| current_angle := angle;
     target_angle := angle;
     current_lock_angle := current_lock_angle self;
     target_lock_angle := target_lock_angle self;
     last_command_time := Some current_time;
     manual_mode := manual_mode self;
     is_window_open := Qlt_bool (CLOSED_ANGLE + 5) angle;
     is_window_locked := is_window_locked self |}.

(** The tail of [set_window_angle], from
    [self._execute_window_command('finestra', angle)] on; [sent] are the
    commands already handed over by the unlock step. *)
Definition move_leaf (exec : WireCommand -> bool) (current_time : Timestamp)
    (self : WindowController) (angle : Q) (sent : list WireCommand) : Outcome :=
  if exec (Finestra angle)
  then mkOutcome true (angle_set_at current_time angle self) (sent ++ [Finestra angle])
  else mkOutcome false self (sent ++ [Finestra angle]).

(** [set_window_angle(angle, manual)].  [lock_time] is the value of
    [datetime.now()] read by the nested [set_lock_position] call. *)
Definition set_window_angle (exec : WireCommand -> bool) (current_time lock_time : Timestamp)
    (self : WindowController) (angle : Q) (manual : bool) : Outcome :=
  if cooldown_active self current_time then mkOutcome false self []
  else
    let self := enter_manual manual self in
    if negb (Qle_bool CLOSED_ANGLE angle && Qle_bool angle OPEN_ANGLE)
    then mkOutcome false self []
    else if is_window_locked self then
      let unlock := set_lock_position exec lock_time self false manual in
      if negb (returned unlock)
      then mkOutcome false (after unlock) (wire unlock)
      else move_leaf exec current_time (after unlock) angle (wire unlock)
    else move_leaf exec current_time self angle [].

(** [auto_control_enabled()] *)
Definition auto_control_enabled (self : WindowController) : bool :=
  negb (manual_mode self).

(** [disable_auto_control()] and [enable_auto_control()] *)
Definition disable_auto_control (self : WindowController) : WindowController :=
  set_manual_mode true self.
Definition enable_auto_control (self : WindowController) : WindowController :=
  set_manual_mode false self.

End WindowCtl.

(** ** The sliding presence window

    [update_detection_filter] has the same body in [CatDetectorApp] and in
    [HeadlessCatDetectorCallback]; only the attribute holding the width of
    the window differs. *)

Module PresenceWindow.

(** [[t for t in recent_detections if current_time - t < window]] *)
Definition prune (window : Timedelta) (recent_detections : list Timestamp)
    (current_time : Timestamp) : list Timestamp :=
  filter (fun t => current_time - t <? window) recent_detections.

(** The body of [update_detection_filter]: the new list and the value
    returned, [len(self.recent_detections) > 0]. *)
Definition update (window : Timedelta) (recent_detections : list Timestamp)
    (cat_detected : bool) (current_time : Timestamp) : list Timestamp * bool :=
  let kept := prune window recent_detections current_time in
  let recent := if cat_detected then kept ++ [current_time] else kept in
  (recent, (0 <? List.length recent)%nat).

(** A sequence of calls: each update carries its timestamp and whether the
    frame qualified.  The result lists the values returned, in order. *)
Fixpoint replay (window : Timedelta) (recent_detections : list Timestamp)
    (updates : list (Timestamp * bool)) : list bool :=
  match updates with
  | [] => []
  | (current_time, cat_detected) :: rest =>
      let r := update window recent_detections cat_detected current_time in
      snd r :: replay window (fst r) rest
  end.

End PresenceWindow.

(** ** What the inference stage delivers for one frame *)

Module Hailo.

(** One [HAILO_DETECTION]: [get_label()], [get_confidence()] and the
    horizontal extent of [get_bbox()]. *)
Record Detection := mkDetection {
  label : string;
  confidence : Q;
  xmin : Q;
  xmax : Q
}.

(** Python's [max(a, b)]: [b] only when it is strictly greater. *)
Definition pymax (a b : Q) : Q :=
  if WindowCtl.Qlt_bool a b then b else a.

End Hailo.

(** ** cat_detector.py *)

Module Detector.
Import WindowCtl Hailo.

(** The values read from [DETECTION_CONFIG] in [__init__]; the
    configuration module itself is site specific. *)
Record DetectionConfig := mkConfig {
  detection_filter_window : Timedelta;
  required_detection_time : Timedelta;
  required_no_detection_time : Timedelta;
  min_confidence : Q;
  left_boundary : Q;
  right_boundary : Q
}.

(** The defaults given to [DETECTION_CONFIG.get]. *)
Definition default_config : DetectionConfig :=
  {| detection_filter_window := seconds 3;
     required_detection_time := seconds 10;
     required_no_detection_time := seconds 3;
     min_confidence := 0.7;
     left_boundary := 0.4;
     right_boundary := 0.6 |}.

(** The attributes of [CatDetectorApp] that the presence logic uses. *)
Record CatDetectorApp := mkApp {
  window_controller : WindowController;
  current_detection_time : option Timestamp;
  current_no_detection_time : option Timestamp;
  recent_detections : list Timestamp
}.

(** The state built by [__init__]. *)
Definition init : CatDetectorApp :=
  mkApp WindowCtl.init None None [].

(** [get_current_confidence_threshold()] *)
Definition get_current_confidence_threshold (cfg : DetectionConfig)
    (self : CatDetectorApp) : Q :=
  if is_window_open (window_controller self)
  then (min_confidence cfg * 0.8)%Q
  else min_confidence cfg.

(** [is_within_roi(x_pos, width)].  [width] is what [get_caps_from_pad]
    gave, possibly [None]; the division raises for [None] and for [0],
    which is the result [None] here. *)
Definition is_within_roi (cfg : DetectionConfig) (x_pos : Q) (width : option Z)
    : option bool :=
  match width with
  | None => None
  | Some w =>
      if w =? 0 then None
      else
        let normalized_x := (x_pos / inject_Z w)%Q in
        Some (Qle_bool (left_boundary cfg) normalized_x
              && Qle_bool normalized_x (right_boundary cfg))
  end.

(** The four locals that the detection loop of [process_frame] updates. *)
Record Scan := mkScan {
  cat_detected_in_roi : bool;
  any_cat_detected : bool;
  max_confidence : Q;
  max_confidence_any : Q
}.

Definition scan_start : Scan := mkScan false false 0 0.

(** One iteration of [for detection in detections]; [None] when the
    iteration raises. *)
Definition scan_step (cfg : DetectionConfig) (current_threshold : Q)
    (width : option Z) (s : Scan) (detection : Detection) : option Scan :=
  if String.eqb (label detection) "cat" then
    if Qle_bool current_threshold (confidence detection) then
      let any := pymax (max_confidence_any s) (confidence detection) in
      let center_x := ((xmin detection + xmax detection) / 2)%Q in
      match is_within_roi cfg center_x width with
      | None => None
      | Some true =>
          Some (mkScan true true
                  (pymax (max_confidence s) (confidence detection)) any)
      | Some false =>
          Some (mkScan (cat_detected_in_roi s) true (max_confidence s) any)
      end
    else Some s
  else Some s.

(** The whole loop. *)
Fixpoint scan (cfg : DetectionConfig) (current_threshold : Q) (width : option Z)
    (s : Scan) (detections : list Detection) : option Scan :=
  match detections with
  | [] => Some s
  | detection :: rest =>
      match scan_step cfg current_threshold width s detection with
      | None => None
      | Some s' => scan cfg current_threshold width s' rest
      end
  end.

(** [update_detection_filter(cat_detected, current_time)]: the object
    after the call and the value returned. *)
Definition update_detection_filter (cfg : DetectionConfig) (self : CatDetectorApp)
    (cat_detected : bool) (current_time : Timestamp) : CatDetectorApp * bool :=
  let r := PresenceWindow.update (detection_filter_window cfg)
             (recent_detections self) cat_detected current_time in
  (mkApp (window_controller self) (current_detection_time self)
         (current_no_detection_time self) (fst r), snd r).

(** What one call of the timer leaves behind: the object, the commands
    handed to the script, and the window change announced
    ([record_window_change(True)] or [(False)]), if any. *)
Record Verdict := mkVerdict {
  app_after : CatDetectorApp;
  commands : list WireCommand;
  window_change : option bool
}.

(** [process_cat_detection(frame, max_confidence, filtered_cat_present,
    current_time)].  The frame and the confidence only reach log and
    notification texts and are left out.  [exec] and [ctl_time] are the
    script result and the clock value seen by the controller if it is
    called. *)
Definition process_cat_detection (cfg : DetectionConfig)
    (exec : WireCommand -> bool) (ctl_time : Timestamp)
    (self : CatDetectorApp) (filtered_cat_present : bool)
    (current_time : Timestamp) : Verdict :=
  if negb (auto_control_enabled (window_controller self))
  then mkVerdict self [] None
  else if filtered_cat_present then
    let detection_time :=
      match current_detection_time self with
      | None => current_time
      | Some t => t
      end in
    let cat_present_time := current_time - detection_time in
    if required_detection_time cfg <=? cat_present_time then
      let o := set_window_position exec ctl_time (window_controller self) true false in
      mkVerdict (mkApp (after o) (Some detection_time) None (recent_detections self))
                (wire o)
                (if returned o then Some true else None)
    else
      mkVerdict (mkApp (window_controller self) (Some detection_time) None
                       (recent_detections self))
                [] None
  else
    let no_detection_time :=
      match current_no_detection_time self with
      | None => current_time
      | Some t => t
      end in
    let cat_absent_time := current_time - no_detection_time in
    if required_no_detection_time cfg <=? cat_absent_time then
      let o := set_window_position exec ctl_time (window_controller self) false false in
      mkVerdict (mkApp (after o) None (Some no_detection_time) (recent_detections self))
                (wire o)
                (if returned o then Some false else None)
    else
      mkVerdict (mkApp (window_controller self) None (Some no_detection_time)
                       (recent_detections self))
                [] None.

(** [process_frame], from the threshold to the timer; image capture is
    left out.  When the loop raises, the handler only counts the error. *)
Definition process_frame (cfg : DetectionConfig)
    (exec : WireCommand -> bool) (ctl_time : Timestamp)
    (self : CatDetectorApp) (detections : list Detection) (width : option Z)
    (current_time : Timestamp) : Verdict :=
  let current_threshold := get_current_confidence_threshold cfg self in
  match scan cfg current_threshold width scan_start detections with
  | None => mkVerdict self [] None
  | Some s =>
      let f := update_detection_filter cfg self (cat_detected_in_roi s) current_time in
      process_cat_detection cfg exec ctl_time (fst f) (snd f) current_time
  end.

End Detector.

(** ** cat_detector_callback.py and the frame callback of headless_detection.py *)

Module Callback.
Import WindowCtl Hailo.

(** The attributes of [HeadlessCatDetectorCallback] that the presence
    logic uses. *)
Record HeadlessCatDetectorCallback := mkCallback {
  window_controller : WindowController;
  last_cat_time : option Timestamp;
  last_no_cat_time : option Timestamp;
  recent_detections : list Timestamp
}.

Definition min_confidence_closed : Q := 0.7.
Definition min_confidence_open : Q := 0.5.
Definition required_detection_time : Timedelta := seconds 10.
Definition required_no_detection_time : Timedelta := seconds 3.
Definition detection_filter_window : Timedelta := seconds 5.

(** The state built by [__init__]. *)
Definition init : HeadlessCatDetectorCallback :=
  mkCallback WindowCtl.init None None [].

(** [get_current_confidence_threshold()] *)
Definition get_current_confidence_threshold (self : HeadlessCatDetectorCallback) : Q :=
  if is_window_open (window_controller self)
  then min_confidence_open
  else min_confidence_closed.

(** [update_detection_filter(cat_detected, current_time)] *)
Definition update_detection_filter (self : HeadlessCatDetectorCallback)
    (cat_detected : bool) (current_time : Timestamp)
    : HeadlessCatDetectorCallback * bool :=
  let r := PresenceWindow.update detection_filter_window
             (recent_detections self) cat_detected current_time in
  (mkCallback (window_controller self) (last_cat_time self)
              (last_no_cat_time self) (fst r), snd r).

(** The object after a call of the timer, the commands handed to the
    script, and the status sent with [send_window_status], if any. *)
Record Verdict := mkVerdict {
  callback_after : HeadlessCatDetectorCallback;
  commands : list WireCommand;
  window_status : option bool
}.

(** [process_cat_detection(frame, max_confidence, filtered_cat_present,
    current_time)] *)
Definition process_cat_detection (exec : WireCommand -> bool) (ctl_time : Timestamp)
    (self : HeadlessCatDetectorCallback) (filtered_cat_present : bool)
    (current_time : Timestamp) : Verdict :=
  if negb (auto_control_enabled (window_controller self))
  then mkVerdict self [] None
  else if filtered_cat_present then
    let cat_time :=
      match last_cat_time self with
      | None => current_time
      | Some t => t
      end in
    let cat_present_time := current_time - cat_time in
    if required_detection_time <=? cat_present_time then
      let o := set_window_position exec ctl_time (window_controller self) true false in
      mkVerdict (mkCallback (after o) (Some cat_time) None (recent_detections self))
                (wire o)
                (if returned o then Some true else None)
    else
      mkVerdict (mkCallback (window_controller self) (Some cat_time) None
                            (recent_detections self))
                [] None
  else
    let no_cat_time :=
      match last_no_cat_time self with
      | None => current_time
      | Some t => t
      end in
    let cat_absent_time := current_time - no_cat_time in
    if required_no_detection_time <=? cat_absent_time then
      let o := set_window_position exec ctl_time (window_controller self) false false in
      mkVerdict (mkCallback (after o) None (Some no_cat_time) (recent_detections self))
                (wire o)
                (if returned o then Some false else None)
    else
      mkVerdict (mkCallback (window_controller self) None (Some no_cat_time)
                            (recent_detections self))
                [] None.

(** The two locals that the detection loop of [app_callback] updates. *)
Record Scan := mkScan {
  cat_detected : bool;
  max_confidence : Q
}.

Definition scan_start : Scan := mkScan false 0.

(** One iteration of [for detection in detections] in [app_callback]. *)
Definition scan_step (current_threshold : Q) (s : Scan) (detection : Detection) : Scan :=
  if String.eqb (label detection) "cat" then
    if Qle_bool current_threshold (confidence detection)
    then mkScan true (pymax (max_confidence s) (confidence detection))
    else s
  else s.

Definition scan (current_threshold : Q) (s : Scan) (detections : list Detection) : Scan :=
  fold_left (scan_step current_threshold) detections s.

(** [app_callback(pad, info, user_data)], from the threshold to the timer. *)
Definition app_callback (exec : WireCommand -> bool) (ctl_time : Timestamp)
    (user_data : HeadlessCatDetectorCallback) (detections : list Detection)
    (current_time : Timestamp) : Verdict :=
  let current_threshold := get_current_confidence_threshold user_data in
  let s := scan current_threshold scan_start detections in
  let f := update_detection_filter user_data (cat_detected s) current_time in
  process_cat_detection exec ctl_time (fst f) (snd f) current_time.

End Callback.

(** ** The detector and the operator side by side

    The frame callback and the Telegram commands ([/apri], [/chiudi],
    [/auto], [/manuale] of [telegram_commands.py]) act on the same
    controller object. *)

Module Session.
Import WindowCtl.

(** What a frame brings to the timer: the debounced presence, the time
    stamp taken by the callback, and what the controller would see if it
    is called (its own clock reading and the script result). *)
Record Tick := mkTick {
  tick_present : bool;
  tick_time : Timestamp;
  tick_ctl_time : Timestamp;
  tick_exec : WireCommand -> bool
}.

Inductive Event :=
| Frame (t : Tick)
| TelegramApri (now : Timestamp) (exec : WireCommand -> bool)
| TelegramChiudi (now : Timestamp) (exec : WireCommand -> bool)
| TelegramAuto
| TelegramManuale.

(** One event on a [CatDetectorApp]. *)
Definition step (cfg : Detector.DetectionConfig) (self : Detector.CatDetectorApp)
    (e : Event) : Detector.Verdict :=
  let with_controller (o : Outcome) :=
    Detector.mkVerdict
      (Detector.mkApp (after o) (Detector.current_detection_time self)
         (Detector.current_no_detection_time self) (Detector.recent_detections self))
      (wire o) None in
  let with_mode (w : WindowController) :=
    Detector.mkVerdict
      (Detector.mkApp w (Detector.current_detection_time self)
         (Detector.current_no_detection_time self) (Detector.recent_detections self))
      [] None in
  match e with
  | Frame t =>
      Detector.process_cat_detection cfg (tick_exec t) (tick_ctl_time t) self
        (tick_present t) (tick_time t)
  | TelegramApri now exec =>
      with_controller (set_window_position exec now (Detector.window_controller self) true true)
  | TelegramChiudi now exec =>
      with_controller (set_window_position exec now (Detector.window_controller self) false true)
  | TelegramAuto =>
      with_mode (enable_auto_control (Detector.window_controller self))
  | TelegramManuale =>
      with_mode (disable_auto_control (Detector.window_controller self))
  end.

(** The verdicts of a sequence of events, in order. *)
Fixpoint run (cfg : Detector.DetectionConfig) (self : Detector.CatDetectorApp)
    (events : list Event) : list Detector.Verdict :=
  match events with
  | [] => []
  | e :: rest =>
      let v := step cfg self e in
      v :: run cfg (Detector.app_after v) rest
  end.

(** The same on a [HeadlessCatDetectorCallback]. *)
Definition step_headless (self : Callback.HeadlessCatDetectorCallback)
    (e : Event) : Callback.Verdict :=
  let with_controller (o : Outcome) :=
    Callback.mkVerdict
      (Callback.mkCallback (after o) (Callback.last_cat_time self)
         (Callback.last_no_cat_time self) (Callback.recent_detections self))
      (wire o) None in
  let with_mode (w : WindowController) :=
    Callback.mkVerdict
      (Callback.mkCallback w (Callback.last_cat_time self)
         (Callback.last_no_cat_time self) (Callback.recent_detections self))
      [] None in
  match e with
  | Frame t =>
      Callback.process_cat_detection (tick_exec t) (tick_ctl_time t) self
        (tick_present t) (tick_time t)
  | TelegramApri now exec =>
      with_controller (set_window_position exec now (Callback.window_controller self) true true)
  | TelegramChiudi now exec =>
      with_controller (set_window_position exec now (Callback.window_controller self) false true)
  | TelegramAuto =>
      with_mode (enable_auto_control (Callback.window_controller self))
  | TelegramManuale =>
      with_mode (disable_auto_control (Callback.window_controller self))
  end.

Fixpoint run_headless (self : Callback.HeadlessCatDetectorCallback)
    (events : list Event) : list Callback.Verdict :=
  match events with
  | [] => []
  | e :: rest =>
      let v := step_headless self e in
      v :: run_headless (Callback.callback_after v) rest
  end.

(** How often the window was reported opened, and everything that went to
    the script, over a list of verdicts. *)
Definition opens (vs : list Detector.Verdict) : nat :=
  List.length (filter (fun v => match Detector.window_change v with
                                | Some true => true
                                | _ => false
                                end) vs).

Definition sent (vs : list Detector.Verdict) : list WireCommand :=
  flat_map Detector.commands vs.

(** The time stamp of the first tick. *)
Definition first_time (ticks : list Tick) : option Timestamp :=
  match ticks with
  | [] => None
  | t :: _ => Some (tick_time t)
  end.

(** Whether some tick lies at least [d] after the time [t0]. *)
Definition dwell_reached (d : Timedelta) (t0 : Timestamp) (ticks : list Tick) : bool :=
  existsb (fun t => d <=? tick_time t - t0) ticks.

End Session.

(** ** cat_window.py *)

Module CatWindow.
Import WindowCtl.

(** What [client.write_register] can do: return a response, return
    [None], or raise. *)
Inductive WriteReply :=
| WriteAck
| WriteNone
| WriteRaise.

(** What [client.read_holding_registers] followed by
    [result.registers[0]] can do: yield the register, return [None], or
    raise. *)
Inductive ReadReply :=
| ReadRegisters (r0 : Z)
| ReadNone
| ReadRaise.

(** A transaction on the serial line, with its result. *)
Inductive BusEvent :=
| Write (address value : Z) (reply : WriteReply)
| Read (address : Z) (reply : ReadReply).

(** The outside of the script: the device answers according to what has
    happened on the line so far, and [time_at n] is the [n]-th value
    returned by [time.time()], in seconds. *)
Record Device := mkDevice {
  on_write : list BusEvent -> Z -> Z -> WriteReply;
  on_read : list BusEvent -> Z -> ReadReply;
  time_at : nat -> Q
}.

(** The transactions so far, oldest first, and the number of clock
    readings taken. *)
Record Line := mkLine {
  events : list BusEvent;
  clock_reads : nat
}.

Definition fresh : Line := mkLine [] 0.

(** Computations of the script: a state monad over the line. *)
Definition IO (A : Type) : Type := Line -> A * Line.

Definition ret {A} (a : A) : IO A := fun l => (a, l).

Definition bind {A B} (m : IO A) (k : A -> IO B) : IO B :=
  fun l => let r := m l in k (fst r) (snd r).

Notation "x <- m ;; k" := (bind m (fun x => k))
  (at level 61, m at next level, right associativity).
Notation "m ;; k" := (bind m (fun _ => k))
  (at level 61, right associativity).

Definition write_register (dev : Device) (address value : Z) : IO WriteReply :=
  fun l =>
    let reply := on_write dev (events l) address value in
    (reply, mkLine (events l ++ [Write address value reply]) (clock_reads l)).

Definition read_holding_registers (dev : Device) (address : Z) : IO ReadReply :=
  fun l =>
    let reply := on_read dev (events l) address in
    (reply, mkLine (events l ++ [Read address reply]) (clock_reads l)).

(** [time.time()] *)
Definition time (dev : Device) : IO Q :=
  fun l => (time_at dev (clock_reads l), mkLine (events l) (S (clock_reads l))).

(** [time.sleep(d)]: nothing happens on the line; the passing of time
    shows in the later clock readings, which the device record fixes. *)
Definition sleep (d : Q) : IO unit := ret tt.

(** [round(x)] on a float: to the nearest integer, ties to even. *)
Definition round_half_even (x : Q) : Z :=
  let n := Qfloor x in
  match (x - inject_Z n ?= 1 # 2)%Q with
  | Lt => n
  | Gt => n + 1
  | Eq => if Z.even n then n else n + 1
  end.

(** [int(round(angle * 10))] *)
Definition angle_reg (angle : Q) : Z := round_half_even (angle * 10).

(** [float(result.registers[0]) / 10.0] *)
Definition register_angle (r0 : Z) : Q := (inject_Z r0 / 10)%Q.

Definition timeout : Q := 30.

(** The [while True] loop of [set_window_angle].  The loop is bounded by
    the clock only, so the model counts iterations: [None] when [fuel]
    iterations did not finish it. *)
Fixpoint poll (dev : Device) (fuel : nat) (angle start_time : Q) : IO (option bool) :=
  match fuel with
  | O => ret None
  | S fuel =>
      now <- time dev ;;
      if Qlt_bool timeout (now - start_time) then ret (Some false)
      else
        reply <- read_holding_registers dev 1 ;;
        match reply with
        | ReadRegisters r0 =>
            let current_angle := register_angle r0 in
            if Qle_bool (Qabs (current_angle - angle)) 0.1
            then ret (Some true)
            else sleep 0.1 ;; poll dev fuel angle start_time
        | ReadNone => sleep 0.5 ;; poll dev fuel angle start_time
        | ReadRaise => sleep 0.5 ;; poll dev fuel angle start_time
        end
  end.

(** [set_window_angle(client, angle)] *)
Definition set_window_angle (dev : Device) (fuel : nat) (angle : Q) : IO (option bool) :=
  reply <- write_register dev 0 (angle_reg angle) ;;
  match reply with
  | WriteAck =>
      start_time <- time dev ;;
      poll dev fuel angle start_time
  | WriteNone => ret (Some false)
  | WriteRaise => ret (Some false)
  end.

(** [set_lock_angle(client, angle)] *)
Definition set_lock_angle (dev : Device) (angle : Q) : IO bool :=
  reply <- write_register dev 2 (angle_reg angle) ;;
  match reply with
  | WriteAck =>
      sleep 1 ;;
      reply <- read_holding_registers dev 3 ;;
      match reply with
      | ReadRegisters r0 =>
          let current_angle := register_angle r0 in
          ret (Qle_bool (Qabs (current_angle - angle)) 5)
      | ReadNone => ret false
      | ReadRaise => ret false
      end
  | WriteNone => ret false
  | WriteRaise => ret false
  end.

(** [lock_window(client)] and [unlock_window(client)] *)
Definition lock_window (dev : Device) : IO bool := set_lock_angle dev 0.
Definition unlock_window (dev : Device) : IO bool := set_lock_angle dev 90.

(** [open_window(client)] *)
Definition open_window (dev : Device) (fuel : nat) : IO (option bool) :=
  unlocked <- unlock_window dev ;;
  if negb unlocked then ret (Some false)
  else
    moved <- set_window_angle dev fuel 120 ;;
    match moved with
    | None => ret None
    | Some false => ret (Some false)
    | Some true => ret (Some true)
    end.

(** [close_window(client)] *)
Definition close_window (dev : Device) (fuel : nat) : IO (option bool) :=
  moved <- set_window_angle dev fuel 77 ;;
  match moved with
  | None => ret None
  | Some false => ret (Some false)
  | Some true =>
      sleep 1 ;;
      locked <- lock_window dev ;;
      if negb locked then ret (Some false) else ret (Some true)
  end.

(** A write to the given setpoint register. *)
Definition writes_to (address : Z) (e : BusEvent) : bool :=
  match e with
  | Write a _ _ => a =? address
  | Read _ _ => false
  end.

(** A read transaction. *)
Definition is_read (e : BusEvent) : bool :=
  match e with
  | Write _ _ _ => false
  | Read _ _ => true
  end.

(** A device that follows every setpoint at once, with a clock that
    advances by one second per reading. *)
Definition obedient : Device :=
  {| on_write := fun _ _ _ => WriteAck;
     on_read := fun history address =>
       let setpoint := fix last (h : list BusEvent) (a : Z) (acc : Z) : Z :=
         match h with
         | [] => acc
         | Write a' v WriteAck :: h' => last h' a (if a' =? a then v else acc)
         | _ :: h' => last h' a acc
         end in
       ReadRegisters (setpoint history (address - 1) 0);
     time_at := fun n => inject_Z (Z.of_nat n) |}.

(** A device whose lock never leaves 0 degrees. *)
Definition stuck_lock : Device :=
  {| on_write := fun _ _ _ => WriteAck;
     on_read := fun _ _ => ReadRegisters 0;
     time_at := fun n => inject_Z (Z.of_nat n) |}.

End CatWindow.

(** * Vocabulary of the statements *)

Module Vocabulary.
Import WindowCtl.

(** Agreement of two controllers on every attribute but [manual_mode]. *)
Definition same_but_mode (a b : WindowController) : Prop :=
  current_angle a = current_angle b /\
  target_angle a = target_angle b /\
  current_lock_angle a = current_lock_angle b /\
  target_lock_angle a = target_lock_angle b /\
  last_command_time a = last_command_time b /\
  is_window_open a = is_window_open b /\
  is_window_locked a = is_window_locked b.

(** The time stamps of the qualifying updates of a sequence. *)
Definition qualifying (updates : list (Timestamp * bool)) : list Timestamp :=
  map fst (filter snd updates).

(** Neighbouring time stamps lie at most [window] apart. *)
Fixpoint gaps_within (window : Timedelta) (ts : list Timestamp) : Prop :=
  match ts with
  | a :: (b :: _) as rest => b - a <= window /\ gaps_within window rest
  | _ => True
  end.

(** The sequence is empty or its last update qualifies. *)
Definition ends_qualifying (updates : list (Timestamp * bool)) : Prop :=
  snd (last updates (0, true)) = true.

(** The conditions under which [CatDetectorApp.process_frame] lets a
    detection count on a frame of width [w]: label, confidence, and the
    test of [is_within_roi] written out. *)
Definition counts_in_roi (cfg : Detector.DetectionConfig) (threshold : Q) (w : Z)
    (d : Hailo.Detection) : Prop :=
  Hailo.label d = "cat"%string /\
  (threshold <= Hailo.confidence d)%Q /\
  (Detector.left_boundary cfg
     <= ((Hailo.xmin d + Hailo.xmax d) / 2) / inject_Z w)%Q /\
  (((Hailo.xmin d + Hailo.xmax d) / 2) / inject_Z w
     <= Detector.right_boundary cfg)%Q.

(** The conditions under which [app_callback] lets a detection count. *)
Definition counts_anywhere (threshold : Q) (d : Hailo.Detection) : Prop :=
  Hailo.label d = "cat"%string /\
  (threshold <= Hailo.confidence d)%Q.

(** At most one of the two presence timers is set. *)
Definition timers_exclusive (self : Detector.CatDetectorApp) : Prop :=
  Detector.current_detection_time self = None \/
  Detector.current_no_detection_time self = None.

Definition timers_exclusive_headless (self : Callback.HeadlessCatDetectorCallback) : Prop :=
  Callback.last_cat_time self = None \/
  Callback.last_no_cat_time self = None.

(** A tick at which the cat is present. *)
Definition present_tick (t : Session.Tick) : Prop :=
  Session.tick_present t = true.

(** The application with its presence timer set to [t0]. *)
Definition started_at (t0 : Timestamp) (self : Detector.CatDetectorApp)
    : Detector.CatDetectorApp :=
  Detector.mkApp (Detector.window_controller self) (Some t0)
    (Detector.current_no_detection_time self) (Detector.recent_detections self).

(** The application in the middle of a dwell that began at [t0], with
    controller [w]. *)
Definition dwelling (t0 : Timestamp) (w : WindowController)
    (self : Detector.CatDetectorApp) : Detector.CatDetectorApp :=
  Detector.mkApp w (Some t0) None (Detector.recent_detections self).

(** What precedes the leaf setpoint in an opening: the lock setpoint of
    90 degrees was accepted and the lock was read back within 5 degrees
    of it. *)
Definition unlock_confirmed (before : list CatWindow.BusEvent) : Prop :=
  exists r0,
    before = [CatWindow.Write 2 900 CatWindow.WriteAck;
              CatWindow.Read 3 (CatWindow.ReadRegisters r0)] /\
    (Qabs (CatWindow.register_angle r0 - 90) <= 5)%Q.

(** What precedes the lock setpoint in a closing: the leaf setpoint of 77
    degrees was accepted and, after any number of readings, the last
    reading of the leaf was within 0.1 degrees of it. *)
Definition leaf_confirmed_closed (before : list CatWindow.BusEvent) : Prop :=
  exists polls r0,
    before = CatWindow.Write 0 770 CatWindow.WriteAck
             :: polls ++ [CatWindow.Read 1 (CatWindow.ReadRegisters r0)] /\
    Forall (fun e => CatWindow.is_read e = true) polls /\
    (Qabs (CatWindow.register_angle r0 - 77) <= 0.1)%Q.

End Vocabulary.


(** * Further models *)

(** ** Sequences of requests to the controller *)

Module Requests.
Import WindowCtl.

(** A call of one of the three entry points, with what it finds outside:
    the script results and the clock readings. *)
Inductive Request :=
| Position (exec : WireCommand -> bool) (current_time : Timestamp)
    (should_be_open manual : bool)
| Lock (exec : WireCommand -> bool) (current_time : Timestamp)
    (should_be_locked manual : bool)
| Angle (exec : WireCommand -> bool) (current_time lock_time : Timestamp)
    (angle : Q) (manual : bool).

(** The value of [datetime.now()] at the entry of the call. *)
Definition request_time (r : Request) : Timestamp :=
  match r with
  | Position _ t _ _ => t
  | Lock _ t _ _ => t
  | Angle _ t _ _ _ => t
  end.

Definition perform (self : WindowController) (r : Request) : Outcome :=
  match r with
  | Position exec t should_be_open manual =>
      set_window_position exec t self should_be_open manual
  | Lock exec t should_be_locked manual =>
      set_lock_position exec t self should_be_locked manual
  | Angle exec t lock_time angle manual =>
      set_window_angle exec t lock_time self angle manual
  end.

(** Anything a user of the controller can do to it. *)
Inductive Call :=
| Ask (r : Request)
| EnableAutoControl
| DisableAutoControl.

Definition call (self : WindowController) (c : Call) : WindowController :=
  match c with
  | Ask r => after (perform self r)
  | EnableAutoControl => enable_auto_control self
  | DisableAutoControl => disable_auto_control self
  end.

(** The controller after a sequence of calls. *)
Definition calls (self : WindowController) (cs : list Call) : WindowController :=
  fold_left call cs self.

(** What the attributes of a controller always satisfy. *)
Definition consistent (w : WindowController) : Prop :=
  current_angle w = target_angle w /\
  current_lock_angle w = target_lock_angle w /\
  (CLOSED_ANGLE <= current_angle w)%Q /\
  (current_angle w <= OPEN_ANGLE)%Q /\
  current_lock_angle w = (if is_window_locked w then LOCK_CLOSED else LOCK_OPEN) /\
  is_window_open w = Qlt_bool (CLOSED_ANGLE + 5) (current_angle w).

End Requests.

(** ** The command line of cat_window.py *)

Module Script.
Import CatWindow.

(** What one connection attempt can do: [client.connect()] returns
    [True], returns [False], or something in the attempt raises. *)
Inductive ConnectResult :=
| Connected
| Refused
| ConnectRaised.

(** What the script does on the host besides talking to the device. *)
Inductive HostAction :=
| KillPort
| Sleep (d : Q)
| UsbReset
| Connect
| Close.

(** The [for attempt in range(max_retries)] loop of
    [connect_with_retry], from the iteration [attempt] on, with
    [remaining] iterations to go.  [outcome] tells how each attempt ends.
    The result is the attempt that connected, if any, and the actions
    taken.  [reset_usb_device] catches what it raises and counts as one
    action. *)
Fixpoint attempts (outcome : nat -> ConnectResult) (max_retries : nat)
    (retry_delay : Q) (attempt remaining : nat) : option nat * list HostAction :=
  match remaining with
  | O => (None, [])
  | S remaining' =>
      let prelude :=
        if (0 <? attempt)%nat
        then [KillPort; Sleep 0.5]
             ++ (if (attempt mod 2 =? 1)%nat then [UsbReset] else [])
        else [] in
      match outcome attempt with
      | Connected => (Some attempt, prelude ++ [Connect])
      | _ =>
          let pause :=
            if (attempt <? max_retries - 1)%nat then [Sleep retry_delay] else [] in
          let r := attempts outcome max_retries retry_delay (S attempt) remaining' in
          (fst r, prelude ++ [Connect] ++ pause ++ snd r)
      end
  end.

(** [connect_with_retry(max_retries, retry_delay)] *)
Definition connect_with_retry (outcome : nat -> ConnectResult) (max_retries : nat)
    (retry_delay : Q) : option nat * list HostAction :=
  attempts outcome max_retries retry_delay 0 max_retries.

(** [str.lower()] on the letters A to Z; no other character lowers to a
    letter of a command name. *)
Definition lower_ascii (c : ascii) : ascii :=
  let n := nat_of_ascii c in
  if (65 <=? n)%nat && (n <=? 90)%nat then ascii_of_nat (n + 32) else c.

Fixpoint lower (s : string) : string :=
  match s with
  | EmptyString => EmptyString
  | String c rest => String (lower_ascii c) (lower rest)
  end.

(** The process ends with status 0 when the operation returned [True] and
    with [sys.exit(1)] when it returned [False]. *)
Definition status (ok : option bool) : option Z :=
  match ok with
  | Some true => Some 0
  | Some false => Some 1
  | None => None
  end.

Section Main.

(** [float(s)]: the number, or [None] where it raises [ValueError] or
    yields a value that is not a number of degrees (infinities, nan),
    which no range test accepts. *)
Variable parse_float : string -> option Q.

(** The [if]/[elif] chain of [main] on a connected client. *)
Definition dispatch (dev : Device) (fuel : nat) (comando : string)
    (argv : list string) : IO (option Z) :=
  if String.eqb comando "finestra" && (List.length argv =? 3)%nat then
    match parse_float (nth 2 argv ""%string) with
    | None => ret (Some 1)
    | Some angle =>
        if negb (Qle_bool 77 angle && Qle_bool angle 135) then ret (Some 1)
        else ok <- set_window_angle dev fuel angle ;; ret (status ok)
    end
  else if String.eqb comando "serratura" && (List.length argv =? 3)%nat then
    match parse_float (nth 2 argv ""%string) with
    | None => ret (Some 1)
    | Some angle =>
        if negb (Qle_bool 0 angle && Qle_bool angle 90) then ret (Some 1)
        else ok <- set_lock_angle dev angle ;; ret (status (Some ok))
    end
  else if String.eqb comando "apri" then
    ok <- open_window dev fuel ;; ret (status ok)
  else if String.eqb comando "chiudi" then
    ok <- close_window dev fuel ;; ret (status ok)
  else if String.eqb comando "sblocca" then
    ok <- unlock_window dev ;; ret (status (Some ok))
  else if String.eqb comando "blocca" then
    ok <- lock_window dev ;; ret (status (Some ok))
  else ret (Some 1).

(** How a run of the script ends: the exit status ([None] when the bound
    on the polling loop was too small to tell), the actions on the host,
    and the serial line. *)
Record Run := mkRun {
  exit_status : option Z;
  host : list HostAction;
  line : Line
}.

(** [main()], with [argv] for [sys.argv]. *)
Definition main (outcome : nat -> ConnectResult) (dev : Device) (fuel : nat)
    (argv : list string) (l : Line) : Run :=
  if (List.length argv <? 2)%nat then mkRun (Some 1) [] l
  else
    let comando := lower (nth 1 argv ""%string) in
    let c := connect_with_retry outcome 5 2 in
    match fst c with
    | None => mkRun (Some 1) (snd c) l
    | Some _ =>
        let r := dispatch dev fuel comando argv l in
        mkRun (fst r) (snd c ++ [Close]) (snd r)
    end.

End Main.

(** A setpoint the device is meant to receive: the leaf register with 77
    to 135 degrees, the lock register with 0 to 90 degrees. *)
Definition setpoint_in_range (e : BusEvent) : Prop :=
  match e with
  | Write address value _ =>
      (address = 0 /\ 770 <= value <= 1350) \/ (address = 2 /\ 0 <= value <= 900)
  | Read _ _ => True
  end.

(** The number of connection attempts among the actions. *)
Definition connects (actions : list HostAction) : nat :=
  List.length (filter (fun a => match a with Connect => true | _ => false end) actions).

(** The number of USB resets among the actions. *)
Definition resets (actions : list HostAction) : nat :=
  List.length (filter (fun a => match a with UsbReset => true | _ => false end) actions).

(** The transactions end with a register reading. *)
Definition ends_with_reading (sent : list BusEvent) : Prop :=
  exists before address r0, sent = before ++ [Read address (ReadRegisters r0)].

(** A computation that only adds transactions to the line, writes
    setpoints within range only, and yields status 0 only after a
    register reading. *)
Definition careful (m : IO (option Z)) (l : Line) : Prop :=
  exists sent,
    events (snd (m l)) = events l ++ sent /\
    Forall setpoint_in_range sent /\
    (fst (m l) = Some 0 -> ends_with_reading sent).

(** A decimal parser for the examples: whole numbers of degrees. *)
Definition parse_whole (s : string) : option Q :=
  if String.eqb s "100" then Some 100%Q
  else if String.eqb s "200" then Some 200%Q
  else None.

End Script.

(** ** Vocabulary for runs of the timer *)

Module Runs.
Import WindowCtl Session.

(** A tick at which the cat is absent. *)
Definition absent_tick (t : Tick) : Prop := tick_present t = false.

(** How often the window was reported closed over a list of verdicts. *)
Definition closes (vs : list Detector.Verdict) : nat :=
  List.length (filter (fun v => match Detector.window_change v with
                                | Some false => true
                                | _ => false
                                end) vs).

(** The application in the middle of an absence that began at [t0], with
    controller [w]. *)
Definition waiting (t0 : Timestamp) (w : WindowController)
    (self : Detector.CatDetectorApp) : Detector.CatDetectorApp :=
  Detector.mkApp w None (Some t0) (Detector.recent_detections self).

(** The application with its absence timer set to [t0]. *)
Definition stopped_at (t0 : Timestamp) (self : Detector.CatDetectorApp)
    : Detector.CatDetectorApp :=
  Detector.mkApp (Detector.window_controller self)
    (Detector.current_detection_time self) (Some t0)
    (Detector.recent_detections self).

(** The value of the absence timer during a run of absent frames: the one
    it has at the start, or the time stamp of the first frame when it is
    not set. *)
Definition absence_start (self : Detector.CatDetectorApp) (ticks : list Tick)
    : option Timestamp :=
  match Detector.current_no_detection_time self with
  | Some t => Some t
  | None => first_time ticks
  end.

(** A tick at which a close request goes through for an absence that
    began at [t0]: the absence has lasted long enough and the controller
    [w] is out of its cooldown. *)
Definition close_due (cfg : Detector.DetectionConfig) (w : WindowController)
    (t0 : Timestamp) (t : Tick) : bool :=
  (Detector.required_no_detection_time cfg <=? tick_time t - t0)
  && negb (cooldown_active w (tick_ctl_time t)).

End Runs.

(** ** The presence window over a sequence of updates *)

Module WindowRuns.

(** The list kept after a sequence of calls of
    [update_detection_filter]. *)
Definition final (window : Timedelta) (recent_detections : list Timestamp)
    (updates : list (Timestamp * bool)) : list Timestamp :=
  fold_left (fun recent u => fst (PresenceWindow.update window recent (snd u) (fst u)))
    updates recent_detections.

(** An update at time [t] that does not qualify. *)
Definition miss (t : Timestamp) : Timestamp * bool := (t, false).

End WindowRuns.

(** ** Image capture of the headless detector

    [should_capture_image] and [save_cat_image] of
    [cat_detector_callback.py], and the part of [app_callback] that calls
    them. *)

Module Capture.
Import WindowCtl.

Definition capture_cooldown : Timedelta := seconds 30.
Definition capture_confidence_threshold : Q := 0.8.

(** [should_capture_image(confidence)]; [current_time] is its reading of
    the clock. *)
Definition should_capture_image (last_capture_time : option Timestamp)
    (confidence : Q) (current_time : Timestamp) : bool :=
  if match last_capture_time with
     | None => true
     | Some t => capture_cooldown <=? current_time - t
     end
  then
    if Qle_bool capture_confidence_threshold confidence then true else false
  else false.

(** What one call of [save_cat_image] meets outside: its three readings
    of the clock (in [should_capture_image], for the file name, and for
    [last_capture_time]) and whether [cv2.imwrite] raises. *)
Record Save := mkSave {
  checked_at : Timestamp;
  named_at : Timestamp;
  write_raises : bool;
  stamped_at : Timestamp
}.

(** [save_cat_image(frame, confidence)]: the value returned and
    [last_capture_time] after the call.  The path returned is built from
    the second clock reading and the confidence, which stand for it. *)
Definition save_cat_image (last_capture_time : option Timestamp)
    (confidence : Q) (io : Save)
    : option (Timestamp * Q) * option Timestamp :=
  if negb (should_capture_image last_capture_time confidence (checked_at io))
  then (None, last_capture_time)
  else if write_raises io then (None, last_capture_time)
  else (Some (named_at io, confidence), Some (stamped_at io)).

(** One frame as the capture part of [app_callback] sees it: whether a
    frame could be read from the buffer, the result of the detection
    loop, and the outside of [save_cat_image]. *)
Record Shot := mkShot {
  frame_available : bool;
  scanned : Callback.Scan;
  outside : Save
}.

(** The capture part of [app_callback]. *)
Definition capture (last_capture_time : option Timestamp) (f : Shot)
    : option (Timestamp * Q) * option Timestamp :=
  if frame_available f && Callback.cat_detected (scanned f)
     && Qlt_bool 0 (Callback.max_confidence (scanned f))
  then save_cat_image last_capture_time (Callback.max_confidence (scanned f)) (outside f)
  else (None, last_capture_time).

(** The images saved over a sequence of frames: for each, its confidence
    and the time written to [last_capture_time]. *)
Fixpoint captures (last_capture_time : option Timestamp) (frames : list Shot)
    : list (Q * Timestamp) :=
  match frames with
  | [] => []
  | f :: rest =>
      match capture last_capture_time f with
      | (Some (_, c), last) => (c, stamped_at (outside f)) :: captures last rest
      | (None, last) => captures last rest
      end
  end.

(** [last_capture_time] after a sequence of frames. *)
Definition last_capture (last_capture_time : option Timestamp) (frames : list Shot)
    : option Timestamp :=
  fold_left (fun last f => snd (capture last f)) frames last_capture_time.

(** Each time of [ts] lies at least [d] after the one before it, the first
    one at least [d] after [prev] when there is one. *)
Fixpoint spaced_from (d : Timedelta) (prev : option Timestamp) (ts : list Timestamp)
    : Prop :=
  match ts with
  | [] => True
  | t :: rest =>
      match prev with
      | None => True
      | Some p => d <= t - p
      end /\ spaced_from d (Some t) rest
  end.

(** The clock does not run backwards inside one call. *)
Definition clock_forward (f : Shot) : Prop :=
  checked_at (outside f) <= stamped_at (outside f).

End Capture.

(** ** system_monitor.py *)

Module Monitor.
Import WindowCtl.

(** *** Window statistics *)

(** The attributes [window_is_open] and [window_open_time] and the
    window entries of [self.stats]; [total_open_time] is in minutes, an
    entry of [window_state_history] is a time stamp and [true] for
    ['open']. *)
Record WindowStats := mkWindowStats {
  window_is_open : bool;
  window_open_time : option Timestamp;
  window_openings : Z;
  total_open_time : Q;
  last_window_change : option Timestamp;
  window_state_history : list (Timestamp * bool)
}.

(** The values set in [__init__] when no statistics file is loaded. *)
Definition fresh_window : WindowStats :=
  mkWindowStats false None 0 0 None [].

(** The window entries of a statistics file, as [_load_stats] puts them
    into [self.stats]; an entry the file lacks keeps its default. *)
Record SavedWindow := mkSavedWindow {
  saved_openings : Z;
  saved_open_time : Q;
  saved_last_change : option Timestamp;
  saved_history : list (Timestamp * bool)
}.

(** The window statistics after [__init__]: the defaults, overwritten by
    the statistics file when there is one; [window_is_open] and
    [window_open_time] are set after the loading. *)
Definition init_window (stats_file : option SavedWindow) : WindowStats :=
  match stats_file with
  | None => fresh_window
  | Some saved =>
      mkWindowStats false None (saved_openings saved) (saved_open_time saved)
        (saved_last_change saved) (saved_history saved)
  end.

(** [d.total_seconds() / 60] *)
Definition minutes (d : Timedelta) : Q := (inject_Z d / 60000000)%Q.

(** [record_window_change(is_open)]; [now] is its reading of the clock. *)
Definition record_window_change (self : WindowStats) (is_open : bool)
    (now : Timestamp) : WindowStats :=
  if negb (Bool.eqb (window_is_open self) is_open) then
    let total :=
      match window_is_open self, window_open_time self with
      | true, Some t => (total_open_time self + minutes (now - t)%Z)%Q
      | _, _ => total_open_time self
      end in
    let opening := negb (window_is_open self) && is_open in
    mkWindowStats is_open
      (if opening then Some now else None)
      (if opening then window_openings self + 1 else window_openings self)
      total
      (Some now)
      (window_state_history self ++ [(now, is_open)])
  else self.

(** [_update_window_time()], called from the monitoring thread; it reads
    the clock twice. *)
Definition _update_window_time (self : WindowStats) (now1 now2 : Timestamp)
    : WindowStats :=
  match window_is_open self, window_open_time self with
  | true, Some t =>
      mkWindowStats (window_is_open self) (Some now2) (window_openings self)
        (total_open_time self + minutes (now1 - t)%Z)%Q
        (last_window_change self) (window_state_history self)
  | _, _ => self
  end.

(** A call on the window statistics. *)
Inductive WindowCall :=
| Change (is_open : bool) (now : Timestamp)
| UpdateTime (now1 now2 : Timestamp).

Definition window_call (self : WindowStats) (c : WindowCall) : WindowStats :=
  match c with
  | Change is_open now => record_window_change self is_open now
  | UpdateTime now1 now2 => _update_window_time self now1 now2
  end.

Definition window_calls (self : WindowStats) (cs : list WindowCall) : WindowStats :=
  fold_left window_call cs self.

(** The states of a history alternate, and the first one is [expected]. *)
Fixpoint alternating (expected : bool) (states : list bool) : Prop :=
  match states with
  | [] => True
  | s :: rest => s = expected /\ alternating (negb expected) rest
  end.

(** The last entry of a history. *)
Definition last_entry (history : list (Timestamp * bool)) : option (Timestamp * bool) :=
  last (map Some history) None.

(** The state after the last entry of a history: closed when there is
    none. *)
Definition last_state (history : list (Timestamp * bool)) : bool :=
  match last_entry history with
  | Some (_, s) => s
  | None => false
  end.

(** The time of the last entry of a history. *)
Definition last_time (history : list (Timestamp * bool)) : option Timestamp :=
  option_map fst (last_entry history).

(** The number of ['open'] entries of a history. *)
Definition open_entries (history : list (Timestamp * bool)) : Z :=
  Z.of_nat (List.length (filter snd history)).

(** The minutes between each ['open'] entry of a history and the
    ['closed'] entry that follows it. *)
Fixpoint open_minutes (history : list (Timestamp * bool)) : Q :=
  match history with
  | (t1, true) :: (((t2, false) :: _) as rest) =>
      (minutes (t2 - t1)%Z + open_minutes rest)%Q
  | _ :: rest => open_minutes rest
  | [] => 0
  end.

(** The minutes of the current opening that [total_open_time] already
    holds: those between the last change and [window_open_time]. *)
Definition pending (self : WindowStats) : Q :=
  match window_is_open self, window_open_time self, last_window_change self with
  | true, Some t, Some t0 => minutes (t - t0)
  | _, _, _ => 0%Q
  end.

(** The minutes that one call leaves out: those between the two clock
    readings of an [_update_window_time] that finds the window open. *)
Definition skipped (self : WindowStats) (c : WindowCall) : Q :=
  match c with
  | UpdateTime now1 now2 =>
      match window_is_open self, window_open_time self with
      | true, Some _ => minutes (now2 - now1)
      | _, _ => 0%Q
      end
  | Change _ _ => 0%Q
  end.

(** The same over a sequence of calls. *)
Fixpoint lost (self : WindowStats) (cs : list WindowCall) : Q :=
  match cs with
  | [] => 0%Q
  | c :: rest => (skipped self c + lost (window_call self c) rest)%Q
  end.

(** The second clock reading of [_update_window_time] is not before the
    first. *)
Definition update_forward (c : WindowCall) : Prop :=
  match c with
  | UpdateTime now1 now2 => now1 <= now2
  | Change _ _ => True
  end.

(** What the window statistics keep true. *)
Definition window_consistent (self : WindowStats) : Prop :=
  (window_is_open self = true <-> window_open_time self <> None)
  /\ alternating true (map snd (window_state_history self))
  /\ window_is_open self = last_state (window_state_history self)
  /\ last_window_change self = last_time (window_state_history self)
  /\ window_openings self = open_entries (window_state_history self).

(** *** Detection statistics *)

(** The detection entries of [self.stats]. *)
Record DetectionStats := mkDetectionStats {
  total_detections : Z;
  daily_detections : Z;
  weekly_detections : Z;
  detection_times : list Timestamp;
  avg_detection_confidence : Q;
  min_detection_confidence : Q;
  max_detection_confidence : Q
}.

(** The values set in [__init__] when no statistics file is loaded. *)
Definition fresh_detections : DetectionStats :=
  mkDetectionStats 0 0 0 [] 0 1 0.

(** Python's [min(a, b)]: [b] only when it is strictly smaller. *)
Definition pymin (a b : Q) : Q :=
  if Qlt_bool b a then b else a.

(** [record_detection(confidence)]: the statistics after the call and
    whether it raised ([ZeroDivisionError], when the new total is zero;
    the counters and the time list are updated before that). *)
Definition record_detection (stats : DetectionStats) (confidence : Q)
    (now : Timestamp) : DetectionStats * bool :=
  let total := total_detections stats + 1 in
  let times := detection_times stats ++ [now] in
  if total =? 0 then
    (mkDetectionStats total (daily_detections stats + 1) (weekly_detections stats + 1)
       times (avg_detection_confidence stats) (min_detection_confidence stats)
       (max_detection_confidence stats), true)
  else
    let prev_avg := avg_detection_confidence stats in
    let prev_count := total - 1 in
    (mkDetectionStats total (daily_detections stats + 1) (weekly_detections stats + 1)
       times
       ((prev_avg * inject_Z prev_count + confidence) / inject_Z total)%Q
       (pymin (min_detection_confidence stats) confidence)
       (Hailo.pymax (max_detection_confidence stats) confidence), false).

(** A Python [bool] used as a number. *)
Definition number_of_bool (b : bool) : Q := if b then 1 else 0.

(** The statistics part of [CatDetectorApp.update_detection_filter]:
    a qualifying frame is recorded with the flag [cat_detected] itself
    as its confidence. *)
Definition update_detection_filter (stats : DetectionStats) (cat_detected : bool)
    (now : Timestamp) : DetectionStats * bool :=
  if cat_detected then record_detection stats (number_of_bool cat_detected) now
  else (stats, false).

(** The statistics after a sequence of recorded confidences, and whether
    some call raised. *)
Fixpoint record_all (stats : DetectionStats) (cs : list (Q * Timestamp))
    : DetectionStats * bool :=
  match cs with
  | [] => (stats, false)
  | (c, now) :: rest =>
      let r := record_detection stats c now in
      let r' := record_all (fst r) rest in
      (fst r', snd r || snd r')
  end.

(** The same for a sequence of frames of the detector. *)
Fixpoint filter_all (stats : DetectionStats) (frames : list (bool * Timestamp))
    : DetectionStats * bool :=
  match frames with
  | [] => (stats, false)
  | (d, now) :: rest =>
      let r := update_detection_filter stats d now in
      let r' := filter_all (fst r) rest in
      (fst r', snd r || snd r')
  end.

(** The sum of a list of confidences. *)
Definition Qsum (cs : list Q) : Q := fold_right Qplus 0%Q cs.

(** *** Health *)

(** Python's [max(a, b)] on strings. *)
Definition str_max (a b : string) : string :=
  if String.ltb a b then b else a.

(** What [get_system_health] reads: the values of [psutil] ([None] when
    the call raises; for the temperature [Some None] when there is no
    [cpu_thermal] sensor) and two entries of [self.stats]. *)
Record Probes := mkProbes {
  cpu_percent : option Q;
  memory_percent : option Q;
  disk_percent : option Q;
  cpu_temperature : option (option Q);
  total_errors : Z;
  detections : Z
}.

(** The status and the entries of [health_details], oldest first; of a
    message only the fixed part is kept. *)
Definition Report := (string * list (string * string))%type.

(** One of the four checks of a measured value against two limits. *)
Definition check (critical warning : Q) (key critical_text warning_text : string)
    (value : Q) (r : Report) : Report :=
  if Qlt_bool critical value then
    ("critical"%string, snd r ++ [(key, critical_text)])
  else if Qlt_bool warning value then
    (str_max (fst r) "warning", snd r ++ [(key, warning_text)])
  else r.

(** The [except] branch. *)
Definition failed (r : Report) : Report :=
  ("unknown"%string, snd r ++ [("error"%string, "Failed to check system health"%string)]).

(** [total_errors / max(1, total_detections)] *)
Definition error_rate (p : Probes) : Q :=
  (inject_Z (total_errors p) / inject_Z (Z.max 1 (detections p)))%Q.

(** [get_system_health()] *)
Definition get_system_health (p : Probes) : Report :=
  let r0 : Report := ("good"%string, []) in
  match cpu_percent p with
  | None => failed r0
  | Some cpu =>
  let r1 := check 90 75 "cpu" "Critical CPU usage" "High CPU usage" cpu r0 in
  match memory_percent p with
  | None => failed r1
  | Some memory =>
  let r2 := check 90 80 "memory" "Critical memory usage" "High memory usage" memory r1 in
  match disk_percent p with
  | None => failed r2
  | Some disk =>
  let r3 := check 95 85 "disk" "Critical disk usage" "High disk usage" disk r2 in
  match cpu_temperature p with
  | None => failed r3
  | Some temps =>
  let r4 :=
    match temps with
    | None => r3
    | Some cpu_temp =>
        check 80 70 "temperature" "Critical CPU temperature" "High CPU temperature"
          cpu_temp r3
    end in
  if Qlt_bool 0.1 (error_rate p) then
    (str_max (fst r4) "warning", snd r4 ++ [("errors"%string, "High error rate"%string)])
  else r4
  end end end end.

(** [CatDetectorApp.check_health()]: whether [restart()] is called, and
    the value returned. *)
Definition check_health (p : Probes) : bool * bool :=
  let health_status := fst (get_system_health p) in
  if String.eqb health_status "critical" then (true, false)
  else (false, String.eqb health_status "good").

(** What one check finds. *)
Inductive Finding :=
| Fine
| High
| Critical.

Definition grade (critical warning value : Q) : Finding :=
  if Qlt_bool critical value then Critical
  else if Qlt_bool warning value then High
  else Fine.

(** The findings of the five checks, in the order in which they are
    made, when every probe answers. *)
Definition findings (cpu memory disk : Q) (temps : option Q) (errors total : Z)
    : list Finding :=
  [ grade 90 75 cpu;
    grade 90 80 memory;
    grade 95 85 disk;
    match temps with
    | None => Fine
    | Some cpu_temp => grade 80 70 cpu_temp
    end;
    if Qlt_bool 0.1 (inject_Z errors / inject_Z (Z.max 1 total))%Q then High else Fine ].

(** The last finding that is not [Fine]. *)
Definition last_finding (fs : list Finding) : Finding :=
  fold_left (fun acc f => match f with Fine => acc | _ => f end) fs Fine.

Definition status_of (f : Finding) : string :=
  match f with
  | Fine => "good"
  | High => "warning"
  | Critical => "critical"
  end.

(** Probes that all answer. *)
Definition answering (cpu memory disk : Q) (temps : option Q) (errors total : Z)
    : Probes :=
  mkProbes (Some cpu) (Some memory) (Some disk) (Some temps) errors total.

(** Some probe raises. *)
Definition some_probe_raises (p : Probes) : Prop :=
  cpu_percent p = None \/ memory_percent p = None \/ disk_percent p = None
  \/ cpu_temperature p = None.

End Monitor.

(** ** telegram_base.py: sending a message *)

Module TelegramBase.

Definition max_retries : nat := 5.
Definition base_retry_delay : Q := 2.

(** What one call of [bot.send_message] ends in: it returns, or it raises
    [RetryAfter] with the delay asked for, [NetworkError] or [TimedOut],
    or another exception. *)
Inductive Reply :=
| Delivered
| RetryAfter (retry_after : Q)
| NetworkError
| OtherError.

(** [base_retry_delay * (2 ** attempt)] *)
Definition backoff (attempt : nat) : Q :=
  (base_retry_delay * inject_Z (2 ^ Z.of_nat attempt))%Q.

(** What a call of [_send_message] leaves behind: the value returned,
    the number of calls of [bot.send_message], the arguments of
    [asyncio.sleep] in order, and whether [last_heartbeat] was set. *)
Record Sending := mkSending {
  sent : bool;
  tries : nat;
  sleeps : list Q;
  heartbeat : bool
}.

(** A further attempt after a sleep of [wait_time]. *)
Definition after_sleep (wait_time : Q) (s : Sending) : Sending :=
  mkSending (sent s) (S (tries s)) (wait_time :: sleeps s) (heartbeat s).

(** The loop [for attempt in range(max_retries)] from [attempt] on, with
    [remaining] iterations left; [bot k] is the reply to the call made in
    iteration [k].  An exception raised in the last iteration reaches the
    outer handler, which returns [False]. *)
Fixpoint attempts_from (bot : nat -> Reply) (attempt remaining : nat) : Sending :=
  match remaining with
  | O => mkSending false 0 [] false
  | S remaining' =>
      match bot attempt with
      | Delivered => mkSending true 1 [] true
      | RetryAfter wait_time =>
          after_sleep wait_time (attempts_from bot (S attempt) remaining')
      | NetworkError =>
          after_sleep (backoff attempt) (attempts_from bot (S attempt) remaining')
      | OtherError =>
          if (attempt =? max_retries - 1)%nat then mkSending false 1 [] false
          else after_sleep (backoff attempt) (attempts_from bot (S attempt) remaining')
      end
  end.

(** [_send_message(text)] *)
Definition _send_message (bot : nat -> Reply) : Sending :=
  attempts_from bot 0 max_retries.

(** The sleep that follows the reply [r] to attempt [k]. *)
Definition sleep_after (k : nat) (r : Reply) : Q :=
  match r with
  | RetryAfter wait_time => wait_time
  | _ => backoff k
  end.

(** The first attempt before [n] that is delivered. *)
Fixpoint first_delivered (bot : nat -> Reply) (attempt remaining : nat) : option nat :=
  match remaining with
  | O => None
  | S remaining' =>
      match bot attempt with
      | Delivered => Some attempt
      | _ => first_delivered bot (S attempt) remaining'
      end
  end.

(** No reply among the first [max_retries] asks for a delay of its own. *)
Definition never_rate_limited (bot : nat -> Reply) : Prop :=
  forall k w, (k < max_retries)%nat -> bot k <> RetryAfter w.

End TelegramBase.

(** ** The detector and its window statistics *)

Module Statistics.
Import WindowCtl Session.

(** One event on a [CatDetectorApp] together with its monitor: a window
    change announced by the timer is recorded with [now], the clock
    reading of [record_window_change]. *)
Definition step (cfg : Detector.DetectionConfig)
    (state : Detector.CatDetectorApp * Monitor.WindowStats)
    (e : Event * Timestamp) : Detector.CatDetectorApp * Monitor.WindowStats :=
  let v := Session.step cfg (fst state) (fst e) in
  (Detector.app_after v,
   match Detector.window_change v with
   | Some is_open => Monitor.record_window_change (snd state) is_open (snd e)
   | None => snd state
   end).

Definition run (cfg : Detector.DetectionConfig)
    (state : Detector.CatDetectorApp * Monitor.WindowStats)
    (events : list (Event * Timestamp)) : Detector.CatDetectorApp * Monitor.WindowStats :=
  fold_left (step cfg) events state.

(** The detector and the monitor as the application creates them;
    [stats_file] holds the window entries of the statistics file, if
    there is one. *)
Definition start (stats_file : option Monitor.SavedWindow)
    : Detector.CatDetectorApp * Monitor.WindowStats :=
  (Detector.init, Monitor.init_window stats_file).

(** An event that does not move the window from Telegram. *)
Definition hands_off (e : Event * Timestamp) : Prop :=
  match fst e with
  | TelegramApri _ _ => False
  | TelegramChiudi _ _ => False
  | _ => True
  end.

(** The monitor and the controller agree on whether the window is open. *)
Definition in_step (state : Detector.CatDetectorApp * Monitor.WindowStats) : Prop :=
  Monitor.window_is_open (snd state)
  = is_window_open (Detector.window_controller (fst state)).

End Statistics.

(** ** system_monitor.py: the open time of the last day *)

Module Daily.
Import Monitor.

(** [timedelta(days=n)] *)
Definition days (n : Z) : Timedelta := seconds (n * 86400).

(** The inner loop of [get_daily_stats]: the time of the first entry, in
    list order, that is later than [entry_time] and closed. *)
Fixpoint next_close (entry_time : Timestamp) (history : list (Timestamp * bool))
    : option Timestamp :=
  match history with
  | [] => None
  | (next_entry_time, state) :: rest =>
      if (entry_time <? next_entry_time) && negb state then Some next_entry_time
      else next_close entry_time rest
  end.

(** One iteration of the outer loop: the [timedelta] whose minutes it
    adds to [window_time_today], if it adds any.  [today] is the clock
    reading. *)
Definition added (self : WindowStats) (today : Timestamp)
    (entry : Timestamp * bool) : option Timedelta :=
  if (today - days 1 <=? fst entry) && snd entry then
    match next_close (fst entry) (window_state_history self) with
    | Some next_close_time => Some (next_close_time - fst entry)
    | None =>
        if window_is_open self then Some (today - fst entry) else None
    end
  else None.

(** The [timedelta]s added over the whole loop, in order.  The code adds
    their minutes up in floating point and reports the sum rounded; the
    model stops at the intervals, which are exact. *)
Definition added_intervals (self : WindowStats) (today : Timestamp)
    : list Timedelta :=
  flat_map (fun entry =>
              match added self today entry with
              | Some d => [d]
              | None => []
              end)
           (window_state_history self).

(** The clock readings of the [record_window_change] calls of a
    sequence. *)
Fixpoint change_times (cs : list WindowCall) : list Timestamp :=
  match cs with
  | [] => []
  | Change _ now :: rest => now :: change_times rest
  | UpdateTime _ _ :: rest => change_times rest
  end.

(** The time from each open entry of a history to the closed entry that
    follows it. *)
Fixpoint open_intervals (history : list (Timestamp * bool)) : list Timedelta :=
  match history with
  | (t1, true) :: (((t2, false) :: _) as rest) => (t2 - t1) :: open_intervals rest
  | _ :: rest => open_intervals rest
  | [] => []
  end.

(** The time from the last entry of a history to [today] when that
    entry is open and the window is. *)
Definition running (is_open : bool) (today : Timestamp)
    (history : list (Timestamp * bool)) : list Timedelta :=
  match last_entry history with
  | Some (t, true) => if is_open then [today - t] else []
  | _ => []
  end.

End Daily.

(** ** file_manager.py: the image cache *)

Module FileManager.

(** An entry of [image_cache]: the value stored under a path. *)
Record Cached := mkCached {
  timestamp : Timestamp;
  confidence : Q
}.

(** [image_cache], a dictionary from paths to entries, in insertion
    order. *)
Definition Cache := list (string * Cached).

(** [del cache[k]] for a key that may be absent. *)
Definition del (k : string) (cache : Cache) : Cache :=
  filter (fun e => negb (String.eqb (fst e) k)) cache.

(** [cache[k] = v] *)
Fixpoint set (k : string) (v : Cached) (cache : Cache) : Cache :=
  match cache with
  | [] => [(k, v)]
  | (k', v') :: rest =>
      if String.eqb k' k then (k', v) :: rest else (k', v') :: set k v rest
  end.

(** [sorted(items, key=lambda x: x[1]['timestamp'])]: stable, oldest
    first. *)
Fixpoint insert (x : string * Cached) (l : Cache) : Cache :=
  match l with
  | [] => [x]
  | y :: rest =>
      if timestamp (snd y) <=? timestamp (snd x) then y :: insert x rest
      else x :: y :: rest
  end.

Definition sorted (items : Cache) : Cache :=
  fold_left (fun acc x => insert x acc) items [].

(** [_clean_cache_if_needed(max_items)] *)
Definition _clean_cache_if_needed (max_items : nat) (cache : Cache) : Cache :=
  if (max_items <? List.length cache)%nat then
    let sorted_items := sorted cache in
    let items_to_remove := (List.length cache - max_items)%nat in
    fold_left (fun c item => del (fst item) c) (firstn items_to_remove sorted_items) cache
  else cache.

(** The cache side of [cleanup_storage]: the entries of the deleted
    files are dropped. *)
Definition forget (deleted_files : list string) (cache : Cache) : Cache :=
  fold_left (fun c file_path => del file_path c) deleted_files cache.

(** What a call of [save_image] meets outside: the files deleted by
    [cleanup_storage] (none when it does not run), the path built from
    prefix, clock and confidence, whether [cv2.imwrite] raises, and the
    clock reading stored in the cache. *)
Record Save := mkSave {
  deleted : list string;
  filepath : string;
  write_raises : bool;
  stored_at : Timestamp;
  detection_confidence : Q
}.

(** [save_image(image_data, prefix, confidence)]: the value returned and
    the cache after the call. *)
Definition save_image (cache : Cache) (c : Save) : option string * Cache :=
  let cache := forget (deleted c) cache in
  if write_raises c then (None, cache)
  else
    let cache := _clean_cache_if_needed 100 cache in
    (Some (filepath c),
     set (filepath c) (mkCached (stored_at c) (detection_confidence c)) cache).

(** A call that touches the cache: [save_image], or [cleanup_storage]
    from the cleanup thread or the daily tasks. *)
Inductive Call :=
| SaveImage (c : Save)
| CleanupStorage (deleted_files : list string).

Definition call (cache : Cache) (c : Call) : Cache :=
  match c with
  | SaveImage s => snd (save_image cache s)
  | CleanupStorage deleted_files => forget deleted_files cache
  end.

Definition calls (cache : Cache) (cs : list Call) : Cache :=
  fold_left call cs cache.

(** The paths of a cache. *)
Definition keys (cache : Cache) : list string := map fst cache.

(** The entry [a] is not younger than [b]. *)
Definition older (a b : string * Cached) : Prop :=
  timestamp (snd a) <= timestamp (snd b).

(** The entries of a cache whose path is none of [paths]. *)
Definition without (paths : list string) (cache : Cache) : Cache :=
  filter (fun e => negb (existsb (String.eqb (fst e)) paths)) cache.

End FileManager.

(** ** telegram_base.py: the connection watchdog *)

Module Watchdog.

Definition heartbeat_timeout : Q := 900.
Definition max_connection_failures : Z := 3.

(** What one round of [_watchdog_loop] reads after its sleep:
    [bot_initialized], the age of [last_heartbeat] (other threads write
    it too), and the result of [_check_connection] if it is called. *)
Record Round := mkRound {
  bot_initialized : bool;
  time_since_heartbeat : Q;
  check_connection : bool
}.

(** One round: [connection_failures] after it, and whether
    [_restart_bot] was called. *)
Definition round (connection_failures : Z) (r : Round) : Z * bool :=
  if negb (bot_initialized r) then (connection_failures, false)
  else if WindowCtl.Qlt_bool heartbeat_timeout (time_since_heartbeat r) then (0, true)
  else if negb (check_connection r) then
    let connection_failures := connection_failures + 1 in
    if max_connection_failures <=? connection_failures then (0, true)
    else (connection_failures, false)
  else (0, false).

(** [connection_failures] after a sequence of rounds, and the number of
    calls of [_restart_bot]. *)
Fixpoint rounds (connection_failures : Z) (rs : list Round) : Z * nat :=
  match rs with
  | [] => (connection_failures, O)
  | r :: rest =>
      let s := round connection_failures r in
      let s' := rounds (fst s) rest in
      (fst s', ((if snd s then 1 else 0) + snd s')%nat)
  end.

(** A round in which the bot is initialized, the heartbeat is fresh and
    the connection check fails. *)
Definition failing (r : Round) : Prop :=
  bot_initialized r = true
  /\ (time_since_heartbeat r <= heartbeat_timeout)%Q
  /\ check_connection r = false.

End Watchdog.
(** * Properties *)

(** ** The actuator controller *)

Section ControllerFacts.
Import WindowCtl Vocabulary.

Lemma same_but_mode_refl w : same_but_mode w w.
Proof. repeat split. Qed.

Lemma same_but_mode_enter manual w : same_but_mode w (enter_manual manual w).
Proof. destruct manual; repeat split. Qed.

Lemma enter_manual_mode manual w :
  manual_mode (enter_manual manual w) = manual_mode w || manual.
Proof. destruct manual, w as [? ? ? ? ? [] ? ?]; reflexivity. Qed.

(** A rejected or failed position request returns [False] and leaves the
    controller as the mode assignment made it. *)
Lemma set_window_position_failed exec now self (target manual : bool) :
  exec (if target then Apri else Chiudi) = false ->
  let r := set_window_position exec now self target manual in
  returned r = false /\
  after r = if cooldown_active self now then self else enter_manual manual self.
Proof.
  intros Hfail. unfold set_window_position.
  destruct (cooldown_active self now); [split; reflexivity|].
  destruct (Bool.eqb target (is_window_open (enter_manual manual self)) && negb manual);
    [split; reflexivity|].
  destruct target; rewrite Hfail; split; reflexivity.
Qed.

Lemma set_lock_position_failed exec now self (target manual : bool) :
  exec (if target then Blocca else Sblocca) = false ->
  let r := set_lock_position exec now self target manual in
  returned r = false /\
  after r = if cooldown_active self now then self else enter_manual manual self.
Proof.
  intros Hfail. unfold set_lock_position.
  destruct (cooldown_active self now); [split; reflexivity|].
  destruct (Bool.eqb target (is_window_locked (enter_manual manual self)) && negb manual);
    [split; reflexivity|].
  destruct target; rewrite Hfail; split; reflexivity.
Qed.

(** C1, as stated, fails: a manual open request whose script run fails on
    the freshly initialised controller returns [False] after one command
    on the wire, and the controller is no longer the initial one (it is
    in manual mode). *)
Lemma manual_failure_changes_state :
  let r := set_window_position (fun _ => false) 0 init true true in
  wire r = [Apri] /\ returned r = false /\ after r <> init.
Proof.
  cbv zeta. repeat split. intros H.
  apply (f_equal manual_mode) in H. discriminate H.
Qed.

(** C1, amended: when the script fails, [set_window_position] and
    [set_lock_position] return [False] and leave every attribute of the
    controller except [manual_mode] as it was; [manual_mode] is raised by
    a manual request that passed the cooldown check, so an automatic
    request leaves the whole controller unchanged. *)
Theorem wire_failure_keeps_state exec now self (target manual : bool) :
  (forall c, exec c = false) ->
  let p := set_window_position exec now self target manual in
  let l := set_lock_position exec now self target manual in
  (returned p = false /\ same_but_mode self (after p) /\
   manual_mode (after p)
     = manual_mode self || (manual && negb (cooldown_active self now))) /\
  (returned l = false /\ same_but_mode self (after l) /\
   manual_mode (after l)
     = manual_mode self || (manual && negb (cooldown_active self now))) /\
  (manual = false -> after p = self /\ after l = self).
Proof.
  intros Hfail p l.
  destruct (set_window_position_failed exec now self target manual (Hfail _)) as [Hp Ha].
  destruct (set_lock_position_failed exec now self target manual (Hfail _)) as [Hl Hb].
  fold p in Hp, Ha. fold l in Hl, Hb.
  assert (Hmode : forall w,
    w = (if cooldown_active self now then self else enter_manual manual self) ->
    same_but_mode self w /\
    manual_mode w = manual_mode self || (manual && negb (cooldown_active self now))).
  { intros w ->. destruct (cooldown_active self now).
    - split; [apply same_but_mode_refl|].
      rewrite andb_false_r, orb_false_r. reflexivity.
    - split; [apply same_but_mode_enter|].
      rewrite andb_true_r. apply enter_manual_mode. }
  repeat split; try assumption; try (apply Hmode; assumption).
  - rewrite Ha. subst manual. destruct (cooldown_active self now); reflexivity.
  - rewrite Hb. subst manual. destruct (cooldown_active self now); reflexivity.
Qed.

Lemma wire_failure_keeps_state_witness :
  (forall c : WireCommand, (fun _ => false) c = false) /\
  after (set_window_position (fun _ => false) (seconds 7) init true false) = init.
Proof.
  split; [reflexivity|].
  apply (wire_failure_keeps_state (fun _ => false) (seconds 7) init true false);
    reflexivity.
Defined.

(** C2: with no cooldown active, an automatic request for the state the
    controller is already in returns [False], changes nothing and sends
    nothing; the same request made manually sends its command. *)
Theorem same_target_request exec now self (should_be_open should_be_locked : bool) :
  cooldown_active self now = false ->
  should_be_open = is_window_open self ->
  should_be_locked = is_window_locked self ->
  set_window_position exec now self should_be_open false = mkOutcome false self [] /\
  wire (set_window_position exec now self should_be_open true)
    = [if should_be_open then Apri else Chiudi] /\
  set_lock_position exec now self should_be_locked false = mkOutcome false self [] /\
  wire (set_lock_position exec now self should_be_locked true)
    = [if should_be_locked then Blocca else Sblocca].
Proof.
  intros Hcool -> ->. unfold set_window_position, set_lock_position.
  rewrite Hcool. cbn [enter_manual negb andb].
  rewrite !eqb_reflx, !andb_true_r, !andb_false_r.
  repeat split.
  - destruct (is_window_open self); [destruct (exec Apri)|destruct (exec Chiudi)];
      reflexivity.
  - destruct (is_window_locked self); [destruct (exec Blocca)|destruct (exec Sblocca)];
      reflexivity.
Qed.

Lemma same_target_request_witness :
  cooldown_active init 0 = false /\
  set_window_position (fun _ => true) 0 init false false = mkOutcome false init [] /\
  wire (set_window_position (fun _ => true) 0 init false true) = [Chiudi].
Proof.
  split; [reflexivity|].
  destruct (same_target_request (fun _ => true) 0 init false true
              eq_refl eq_refl eq_refl) as (H1 & H2 & _).
  split; [exact H1 | exact H2].
Defined.

(** C6: a request made less than [command_cooldown] after the stamped
    [last_command_time] returns [False], sends nothing and changes
    nothing, for each of the three entry points. *)
Theorem cooldown_rejects exec now lock_time self t target angle manual :
  last_command_time self = Some t ->
  now - t < command_cooldown ->
  set_window_position exec now self target manual = mkOutcome false self [] /\
  set_lock_position exec now self target manual = mkOutcome false self [] /\
  set_window_angle exec now lock_time self angle manual = mkOutcome false self [].
Proof.
  intros Hlast Hlt.
  assert (Hcool : cooldown_active self now = true).
  { unfold cooldown_active. rewrite Hlast. apply Z.ltb_lt. exact Hlt. }
  unfold set_window_position, set_lock_position, set_window_angle.
  rewrite Hcool. repeat split.
Qed.

Lemma cooldown_rejects_witness :
  let w := opened_at 0 init in
  last_command_time w = Some 0 /\
  seconds 4 - 0 < command_cooldown /\
  set_window_position (fun _ => true) (seconds 4) w false true = mkOutcome false w [].
Proof.
  cbv zeta. split; [reflexivity|]. split; [reflexivity|].
  apply (cooldown_rejects (fun _ => true) (seconds 4) (seconds 4) (opened_at 0 init) 0
           false 100 true eq_refl eq_refl).
Defined.

Lemma move_leaf_mode exec now w angle sent0 :
  manual_mode (after (move_leaf exec now w angle sent0)) = manual_mode w.
Proof. unfold move_leaf. destruct (exec (Finestra angle)); reflexivity. Qed.

Lemma set_lock_position_keeps_manual exec now w target manual :
  manual_mode w = true ->
  manual_mode (after (set_lock_position exec now w target manual)) = true.
Proof.
  intros Hm. unfold set_lock_position.
  destruct (cooldown_active w now); [exact Hm|].
  assert (He : manual_mode (enter_manual manual w) = true)
    by (rewrite enter_manual_mode, Hm; reflexivity).
  destruct (Bool.eqb target (is_window_locked (enter_manual manual w)) && negb manual);
    [exact He|].
  destruct target; [destruct (exec Blocca)|destruct (exec Sblocca)]; exact He.
Qed.

(** C10: a manual request sets [manual_mode] exactly when it passes the
    cooldown check, whatever happens afterwards (script failure, angle
    out of range); a manual request rejected by the cooldown leaves
    [manual_mode] as it was. *)
Theorem manual_mode_after_manual_request exec now lock_time self target angle :
  let entered := if cooldown_active self now then manual_mode self else true in
  manual_mode (after (set_window_position exec now self target true)) = entered /\
  manual_mode (after (set_lock_position exec now self target true)) = entered /\
  manual_mode (after (set_window_angle exec now lock_time self angle true)) = entered.
Proof.
  cbv zeta. unfold set_window_position, set_lock_position, set_window_angle.
  destruct (cooldown_active self now); [repeat split|].
  cbn [enter_manual negb]. rewrite !andb_false_r.
  repeat split.
  - destruct target; [destruct (exec Apri)|destruct (exec Chiudi)]; reflexivity.
  - destruct target; [destruct (exec Blocca)|destruct (exec Sblocca)]; reflexivity.
  - destruct (negb (Qle_bool CLOSED_ANGLE angle && Qle_bool angle OPEN_ANGLE));
      [reflexivity|].
    destruct (is_window_locked (set_manual_mode true self)).
    + pose proof (set_lock_position_keeps_manual exec lock_time
                    (set_manual_mode true self) false true eq_refl) as Hk.
      destruct (negb (returned (set_lock_position exec lock_time
                                  (set_manual_mode true self) false true)));
        [exact Hk|].
      rewrite move_leaf_mode. exact Hk.
    + rewrite move_leaf_mode. reflexivity.
Qed.

(** The angle request on a locked window: the leaf command is handed
    over only after a successful unlock, and a request whose unlock fails
    stops there. *)
Lemma set_window_angle_unlocks_first exec now lock_time self angle manual :
  is_window_locked self = true ->
  let r := set_window_angle exec now lock_time self angle manual in
  wire r = [] /\ returned r = false \/
  wire r = [Sblocca] /\ returned r = false /\ exec Sblocca = false \/
  wire r = [Sblocca; Finestra angle] /\ exec Sblocca = true.
Proof.
  intros Hl. unfold set_window_angle.
  destruct (cooldown_active self now); [left; split; reflexivity|].
  destruct (negb (Qle_bool CLOSED_ANGLE angle && Qle_bool angle OPEN_ANGLE));
    [left; split; reflexivity|].
  assert (Hl' : is_window_locked (enter_manual manual self) = true)
    by (destruct manual; exact Hl).
  rewrite Hl'. unfold set_lock_position.
  destruct (cooldown_active (enter_manual manual self) lock_time);
    [left; split; reflexivity|].
  assert (Hl'' : is_window_locked (enter_manual manual (enter_manual manual self)) = true)
    by (destruct manual; exact Hl).
  rewrite Hl''. cbn [Bool.eqb andb].
  destruct (exec Sblocca) eqn:Eu; cbn [returned negb after wire].
  - right. right. unfold move_leaf.
    destruct (exec (Finestra angle)); split; reflexivity.
  - right. left. repeat split.
Qed.

(** A successful automatic opening from the initial state, and the
    request repeated two seconds later. *)
Example open_then_cooldown :
  let first := set_window_position (fun _ => true) 0 init true false in
  let second := set_window_position (fun _ => true) (seconds 2) (after first) false false in
  first = mkOutcome true (opened_at 0 init) [Apri] /\
  second = mkOutcome false (opened_at 0 init) [].
Proof. split; reflexivity. Qed.

End ControllerFacts.

(** ** The adaptive threshold *)

Section ThresholdFacts.
Import WindowCtl.

(** C5, as stated, fails for the headless detector: with the window open
    it uses 0.5, which is not 0.8 times its closed-state threshold 0.7. *)
Lemma headless_open_threshold_not_scaled :
  let cb := Callback.mkCallback (opened_at 0 WindowCtl.init) None None [] in
  is_window_open (Callback.window_controller cb) = true /\
  ~ (Callback.get_current_confidence_threshold cb
       == Callback.min_confidence_closed * 0.8)%Q.
Proof.
  cbv zeta. split; [reflexivity|].
  intros H. vm_compute in H. discriminate H.
Qed.

(** C5, amended: with the window open, [CatDetectorApp] uses 0.8 times
    the threshold it uses with the window closed, which is strictly lower
    whenever that threshold is positive; [HeadlessCatDetectorCallback]
    uses the constant 0.5 in place of its closed-state 0.7, strictly lower
    as well. *)
Theorem open_threshold cfg app_open app_closed cb_open cb_closed :
  is_window_open (Detector.window_controller app_open) = true ->
  is_window_open (Detector.window_controller app_closed) = false ->
  is_window_open (Callback.window_controller cb_open) = true ->
  is_window_open (Callback.window_controller cb_closed) = false ->
  Detector.get_current_confidence_threshold cfg app_open
    = (Detector.get_current_confidence_threshold cfg app_closed * 0.8)%Q /\
  ((0 < Detector.get_current_confidence_threshold cfg app_closed)%Q ->
   (Detector.get_current_confidence_threshold cfg app_open
      < Detector.get_current_confidence_threshold cfg app_closed)%Q) /\
  Callback.get_current_confidence_threshold cb_open = 0.5%Q /\
  Callback.get_current_confidence_threshold cb_closed = 0.7%Q /\
  (Callback.get_current_confidence_threshold cb_open
     < Callback.get_current_confidence_threshold cb_closed)%Q.
Proof.
  intros Ho Hc Hco Hcc.
  unfold Detector.get_current_confidence_threshold,
    Callback.get_current_confidence_threshold.
  rewrite Ho, Hc, Hco, Hcc.
  repeat split.
  intros Hpos.
  setoid_replace (Detector.min_confidence cfg)
    with (Detector.min_confidence cfg * 1)%Q at 2 by ring.
  rewrite (Qmult_comm _ 0.8), (Qmult_comm _ 1).
  apply Qmult_lt_compat_r; [exact Hpos | reflexivity].
Qed.

Lemma open_threshold_witness :
  let opened := opened_at 0 WindowCtl.init in
  is_window_open opened = true /\
  is_window_open WindowCtl.init = false /\
  Detector.get_current_confidence_threshold Detector.default_config
    (Detector.mkApp opened None None [])
  = (Detector.get_current_confidence_threshold Detector.default_config
       Detector.init * 0.8)%Q.
Proof.
  cbv zeta. split; [reflexivity|]. split; [reflexivity|].
  apply (open_threshold Detector.default_config
           (Detector.mkApp (opened_at 0 WindowCtl.init) None None [])
           Detector.init
           (Callback.mkCallback (opened_at 0 WindowCtl.init) None None [])
           Callback.init eq_refl eq_refl eq_refl eq_refl).
Defined.

End ThresholdFacts.

(** ** Which detections count *)

Section ScanFacts.
Import Hailo Vocabulary.

Lemma pymax_left a b : (a <= pymax a b)%Q.
Proof.
  unfold pymax, WindowCtl.Qlt_bool.
  destruct (Qle_bool b a) eqn:E; cbn [negb].
  - apply Qle_refl.
  - apply Qnot_lt_le. intros H. apply Qlt_le_weak, Qle_bool_iff in H. congruence.
Qed.

Lemma pymax_right a b : (b <= pymax a b)%Q.
Proof.
  unfold pymax, WindowCtl.Qlt_bool.
  destruct (Qle_bool b a) eqn:E; cbn [negb].
  - apply Qle_bool_iff. exact E.
  - apply Qle_refl.
Qed.

Lemma pymax_cases a b : pymax a b = a \/ pymax a b = b.
Proof. unfold pymax. destruct (WindowCtl.Qlt_bool a b); auto. Qed.

Lemma Qle_bool_false_iff x y : Qle_bool x y = false <-> ~ (x <= y)%Q.
Proof.
  rewrite <- Qle_bool_iff. destruct (Qle_bool x y); split; congruence.
Qed.

(** One iteration of the loop of [process_frame] on a frame of non-zero
    width. *)
Lemma detector_scan_step cfg thr w s d :
  w <> 0 ->
  exists s', Detector.scan_step cfg thr (Some w) s d = Some s' /\
    (Detector.cat_detected_in_roi s' = true <->
       Detector.cat_detected_in_roi s = true \/ counts_in_roi cfg thr w d) /\
    (Detector.max_confidence s <= Detector.max_confidence s')%Q /\
    (counts_in_roi cfg thr w d -> (confidence d <= Detector.max_confidence s')%Q) /\
    (Detector.max_confidence s' = Detector.max_confidence s \/
     (counts_in_roi cfg thr w d /\ Detector.max_confidence s' = confidence d)).
Proof.
  intros Hw. unfold Detector.scan_step, Detector.is_within_roi, counts_in_roi.
  apply Z.eqb_neq in Hw. rewrite Hw.
  set (nx := (((xmin d + xmax d) / 2) / inject_Z w)%Q).
  destruct (String.eqb_spec (label d) "cat") as [Hl|Hl].
  2:{ eexists; split; [reflexivity|]. repeat split; auto using Qle_refl; tauto. }
  destruct (Qle_bool thr (confidence d)) eqn:Ht.
  2:{ apply Qle_bool_false_iff in Ht.
      eexists; split; [reflexivity|]. repeat split; auto using Qle_refl; tauto. }
  apply Qle_bool_iff in Ht.
  destruct (Qle_bool (Detector.left_boundary cfg) nx) eqn:Ha; cbn [andb].
  2:{ apply Qle_bool_false_iff in Ha.
      eexists; split; [reflexivity|]. cbn.
      repeat split; auto using Qle_refl; tauto. }
  apply Qle_bool_iff in Ha.
  destruct (Qle_bool nx (Detector.right_boundary cfg)) eqn:Hb.
  2:{ apply Qle_bool_false_iff in Hb.
      eexists; split; [reflexivity|]. cbn.
      repeat split; auto using Qle_refl; tauto. }
  apply Qle_bool_iff in Hb.
  eexists; split; [reflexivity|]. cbn.
  repeat split; auto using pymax_left, pymax_right.
  destruct (pymax_cases (Detector.max_confidence s) (confidence d)) as [->| ->];
    [left; reflexivity | right; repeat split; assumption].
Qed.

Lemma detector_scan cfg thr w :
  w <> 0 ->
  forall ds s,
  exists s', Detector.scan cfg thr (Some w) s ds = Some s' /\
    (Detector.cat_detected_in_roi s' = true <->
       Detector.cat_detected_in_roi s = true \/
       exists d, In d ds /\ counts_in_roi cfg thr w d) /\
    (Detector.max_confidence s <= Detector.max_confidence s')%Q /\
    (forall d, In d ds -> counts_in_roi cfg thr w d ->
       (confidence d <= Detector.max_confidence s')%Q) /\
    (Detector.max_confidence s' = Detector.max_confidence s \/
     exists d, In d ds /\ counts_in_roi cfg thr w d /\
       Detector.max_confidence s' = confidence d).
Proof.
  intros Hw. induction ds as [|d ds IH]; intros s.
  - exists s. split; [reflexivity|]. repeat split; auto using Qle_refl.
    + intros [H|[d [[] _]]]; exact H.
    + intros d [].
  - destruct (detector_scan_step cfg thr w s d Hw) as (s1 & E1 & F1 & M1 & B1 & C1).
    destruct (IH s1) as (s2 & E2 & F2 & M2 & B2 & C2).
    exists s2. cbn [Detector.scan]. rewrite E1. split; [exact E2|].
    split; [|split; [|split]].
    + rewrite F2, F1. split.
      * intros [[H|H]|[d' [Hin Hc]]]; auto.
        -- right. exists d. split; [left; reflexivity | exact H].
        -- right. exists d'. split; [right; exact Hin | exact Hc].
      * intros [H|[d' [[<-|Hin] Hc]]]; auto.
        right. exists d'. auto.
    + eapply Qle_trans; eassumption.
    + intros d' [<-|Hin] Hc.
      * eapply Qle_trans; [apply B1; exact Hc | exact M2].
      * apply B2; assumption.
    + destruct C2 as [C2|(d' & Hin & Hc & C2)].
      * rewrite C2. destruct C1 as [C1|[Hc C1]]; [left; exact C1|].
        right. exists d. split; [left; reflexivity|]. split; assumption.
      * right. exists d'. split; [right; exact Hin|]. split; assumption.
Qed.

Lemma headless_scan thr :
  forall ds s,
  let s' := Callback.scan thr s ds in
  (Callback.cat_detected s' = true <->
     Callback.cat_detected s = true \/
     exists d, In d ds /\ counts_anywhere thr d) /\
  (Callback.max_confidence s <= Callback.max_confidence s')%Q /\
  (forall d, In d ds -> counts_anywhere thr d ->
     (confidence d <= Callback.max_confidence s')%Q) /\
  (Callback.max_confidence s' = Callback.max_confidence s \/
   exists d, In d ds /\ counts_anywhere thr d /\
     Callback.max_confidence s' = confidence d).
Proof.
  unfold Callback.scan.
  induction ds as [|d ds IH]; intros s; cbn [fold_left].
  - repeat split; auto using Qle_refl.
    + intros [H|[d [[] _]]]; exact H.
    + intros d [].
  - specialize (IH (Callback.scan_step thr s d)).
    cbv zeta in IH. destruct IH as (F2 & M2 & B2 & C2).
    assert (Hstep :
      (Callback.cat_detected (Callback.scan_step thr s d) = true <->
         Callback.cat_detected s = true \/ counts_anywhere thr d) /\
      (Callback.max_confidence s
         <= Callback.max_confidence (Callback.scan_step thr s d))%Q /\
      (counts_anywhere thr d ->
         (confidence d <= Callback.max_confidence (Callback.scan_step thr s d))%Q) /\
      (Callback.max_confidence (Callback.scan_step thr s d) = Callback.max_confidence s \/
       (counts_anywhere thr d /\
        Callback.max_confidence (Callback.scan_step thr s d) = confidence d))).
    { unfold Callback.scan_step, counts_anywhere.
      destruct (String.eqb_spec (label d) "cat") as [Hl|Hl].
      2:{ repeat split; auto using Qle_refl; tauto. }
      destruct (Qle_bool thr (confidence d)) eqn:Ht.
      2:{ apply Qle_bool_false_iff in Ht. repeat split; auto using Qle_refl; tauto. }
      apply Qle_bool_iff in Ht. cbn.
      repeat split; auto using pymax_left, pymax_right.
      destruct (pymax_cases (Callback.max_confidence s) (confidence d)) as [->| ->];
        [left; reflexivity | right; repeat split; assumption]. }
    destruct Hstep as (F1 & M1 & B1 & C1).
    split; [|split; [|split]].
    + rewrite F2, F1. split.
      * intros [[H|H]|[d' [Hin Hc]]]; auto.
        -- right. exists d. split; [left; reflexivity | exact H].
        -- right. exists d'. split; [right; exact Hin | exact Hc].
      * intros [H|[d' [[<-|Hin] Hc]]]; auto.
        right. exists d'. auto.
    + eapply Qle_trans; eassumption.
    + intros d' [<-|Hin] Hc.
      * eapply Qle_trans; [apply B1; exact Hc | exact M2].
      * apply B2; assumption.
    + destruct C2 as [C2|(d' & Hin & Hc & C2)].
      * rewrite C2. destruct C1 as [C1|[Hc C1]]; [left; exact C1|].
        right. exists d. split; [left; reflexivity|]. split; assumption.
      * right. exists d'. split; [right; exact Hin|]. split; assumption.
Qed.

(** C4, as stated, fails in both front ends, on boxes normalised to the
    frame as the inference element delivers them.  A cat of confidence
    0.9 centred at 0.9, outside the default region from 0.4 to 0.6,
    enters the presence window of [app_callback], which has no region
    test.  A cat of confidence 0.9 centred at 0.5, inside the region, is
    left out by [CatDetectorApp.process_frame] on a frame 640 wide,
    because [is_within_roi] divides the centre by the width once more. *)
Lemma region_not_as_claimed :
  let cfg := Detector.default_config in
  let inside := mkDetection "cat" 0.9 0.45 0.55 in
  let outside := mkDetection "cat" 0.9 0.85 0.95 in
  (Detector.left_boundary cfg <= (xmin inside + xmax inside) / 2)%Q /\
  ((xmin inside + xmax inside) / 2 <= Detector.right_boundary cfg)%Q /\
  ~ ((xmin outside + xmax outside) / 2 <= Detector.right_boundary cfg)%Q /\
  Callback.recent_detections
    (Callback.callback_after
       (Callback.app_callback (fun _ => true) 0 Callback.init [outside] 0)) = [0] /\
  Detector.recent_detections
    (Detector.app_after
       (Detector.process_frame cfg (fun _ => true) 0
          Detector.init [inside] (Some 640) 0)) = [].
Proof.
  cbv zeta. split; [discriminate|]. split; [discriminate|].
  split; [intros H; apply H; reflexivity|]. split; reflexivity.
Qed.

Lemma timer_keeps_window cfg exec ctl_time self present now :
  Detector.recent_detections
    (Detector.app_after
       (Detector.process_cat_detection cfg exec ctl_time self present now))
  = Detector.recent_detections self.
Proof.
  unfold Detector.process_cat_detection.
  destruct (negb (WindowCtl.auto_control_enabled (Detector.window_controller self)));
    [reflexivity|].
  destruct present.
  - destruct (Detector.required_detection_time cfg <=? _); reflexivity.
  - destruct (Detector.required_no_detection_time cfg <=? _); reflexivity.
Qed.

Lemma headless_timer_keeps_window exec ctl_time self present now :
  Callback.recent_detections
    (Callback.callback_after
       (Callback.process_cat_detection exec ctl_time self present now))
  = Callback.recent_detections self.
Proof.
  unfold Callback.process_cat_detection.
  destruct (negb (WindowCtl.auto_control_enabled (Callback.window_controller self)));
    [reflexivity|].
  destruct present.
  - destruct (Callback.required_detection_time <=? _); reflexivity.
  - destruct (Callback.required_no_detection_time <=? _); reflexivity.
Qed.

Lemma update_appends window recent cat_detected now :
  fst (PresenceWindow.update window recent cat_detected now)
  = PresenceWindow.prune window recent now ++ (if cat_detected then [now] else []).
Proof.
  unfold PresenceWindow.update. cbn [fst].
  destruct cat_detected; [reflexivity | rewrite app_nil_r; reflexivity].
Qed.

Lemma counts_in_roi_anywhere cfg thr w d :
  counts_in_roi cfg thr w d -> counts_anywhere thr d.
Proof. intros (Hl & Hc & _). split; assumption. Qed.

(** C4, amended.  In [app_callback] there is no region test: the current
    time enters the presence window exactly when some detection is
    labelled cat with confidence at least the effective threshold, and
    the confidence passed on is the maximum over those detections (0.0
    when there is none).  In [CatDetectorApp.process_frame], on a frame
    of non-zero width, the current time enters the presence window only
    if some detection is labelled cat with confidence at least the
    effective threshold, and the confidence passed on is 0.0 or that of
    such a detection.  Which of these detections the region test of
    [CatDetectorApp] lets through is not part of the statement. *)
Theorem counted_detections cfg exec ctl_time self cb ds w now :
  w <> 0 ->
  let thr := Detector.get_current_confidence_threshold cfg self in
  let thr_headless := Callback.get_current_confidence_threshold cb in
  (let s := Callback.scan thr_headless Callback.scan_start ds in
   (Callback.cat_detected s = true <->
      exists d, In d ds /\ counts_anywhere thr_headless d) /\
   (forall d, In d ds -> counts_anywhere thr_headless d ->
      (confidence d <= Callback.max_confidence s)%Q) /\
   (Callback.max_confidence s = 0%Q \/
    exists d, In d ds /\ counts_anywhere thr_headless d /\
      Callback.max_confidence s = confidence d) /\
   Callback.recent_detections
     (Callback.callback_after (Callback.app_callback exec ctl_time cb ds now))
   = PresenceWindow.prune Callback.detection_filter_window
       (Callback.recent_detections cb) now
     ++ (if Callback.cat_detected s then [now] else [])) /\
  (exists s,
     Detector.scan cfg thr (Some w) Detector.scan_start ds = Some s /\
     (Detector.cat_detected_in_roi s = true ->
        exists d, In d ds /\ counts_anywhere thr d) /\
     (Detector.max_confidence s = 0%Q \/
      exists d, In d ds /\ counts_anywhere thr d /\
        Detector.max_confidence s = confidence d) /\
     Detector.recent_detections
       (Detector.app_after
          (Detector.process_frame cfg exec ctl_time self ds (Some w) now))
     = PresenceWindow.prune (Detector.detection_filter_window cfg)
         (Detector.recent_detections self) now
       ++ (if Detector.cat_detected_in_roi s then [now] else [])).
Proof.
  intros Hw thr thr_headless. split.
  - destruct (headless_scan thr_headless ds Callback.scan_start) as (F & _ & B & C).
    cbv zeta. split; [|split; [exact B | split; [exact C|]]].
    + rewrite F. cbn. split; [intros [H|H]; [discriminate H | exact H] | auto].
    + unfold Callback.app_callback. fold thr_headless.
      rewrite headless_timer_keeps_window. unfold Callback.update_detection_filter.
      cbn [fst Callback.recent_detections]. apply update_appends.
  - destruct (detector_scan cfg thr w Hw ds Detector.scan_start)
      as (s & E & F & _ & _ & C).
    exists s. split; [exact E|]. split; [|split].
    + intros H. apply F in H. destruct H as [H|(d & Hd & Hc)]; [discriminate H|].
      exists d. split; [exact Hd | exact (counts_in_roi_anywhere _ _ _ _ Hc)].
    + destruct C as [C|(d & Hd & Hc & Hm)]; [left; exact C|].
      right. exists d. split; [exact Hd|].
      split; [exact (counts_in_roi_anywhere _ _ _ _ Hc) | exact Hm].
    + unfold Detector.process_frame. fold thr. rewrite E.
      rewrite timer_keeps_window. unfold Detector.update_detection_filter.
      cbn [fst Detector.recent_detections]. apply update_appends.
Qed.

Lemma counted_detections_witness :
  let cfg := Detector.mkConfig (seconds 3) (seconds 10) (seconds 3) 0.7 0 0.5 in
  let ds := [mkDetection "cat" 0.9 0.45 0.55; mkDetection "dog" 1 0.1 0.2] in
  640 <> 0 /\
  Callback.recent_detections
    (Callback.callback_after
       (Callback.app_callback (fun _ => true) 0 Callback.init ds 7)) = [7] /\
  Detector.recent_detections
    (Detector.app_after
       (Detector.process_frame cfg (fun _ => true) 0 Detector.init ds (Some 640) 7))
  = [7].
Proof.
  intros cfg ds. split; [discriminate|].
  destruct (counted_detections cfg (fun _ => true) 0
              Detector.init Callback.init ds 640 7)
    as [(_ & _ & _ & Hh) (s & E & _ & _ & Hd)]; [discriminate|].
  split.
  - rewrite Hh. reflexivity.
  - rewrite Hd. vm_compute in E. injection E as E. rewrite <- E. reflexivity.
Defined.

End ScanFacts.

(** ** The sliding window debounce *)

Section WindowFacts.
Import Vocabulary.

Lemma update_returns window recent cat_detected now :
  snd (PresenceWindow.update window recent cat_detected now) = true <->
  fst (PresenceWindow.update window recent cat_detected now) <> [].
Proof.
  unfold PresenceWindow.update. cbn [fst snd].
  destruct (if cat_detected
            then PresenceWindow.prune window recent now ++ [now]
            else PresenceWindow.prune window recent now) as [|t l]; cbn.
  - split; [discriminate | congruence].
  - split; [discriminate | reflexivity].
Qed.

Lemma update_keeps window recent cat_detected now t :
  In t recent -> now - t < window ->
  In t (fst (PresenceWindow.update window recent cat_detected now)).
Proof.
  intros Hin Hlt. unfold PresenceWindow.update, PresenceWindow.prune. cbn [fst].
  assert (Hk : In t (filter (fun t0 => now - t0 <? window) recent)).
  { apply filter_In. split; [exact Hin | apply Z.ltb_lt; exact Hlt]. }
  destruct cat_detected; [apply in_or_app; left|]; exact Hk.
Qed.

Lemma update_true_of_member window recent cat_detected now t :
  In t (fst (PresenceWindow.update window recent cat_detected now)) ->
  snd (PresenceWindow.update window recent cat_detected now) = true.
Proof.
  intros Hin. apply update_returns. intros E. rewrite E in Hin. exact Hin.
Qed.

Lemma qualifying_head_of_end rest t :
  ends_qualifying ((t, false) :: rest) ->
  exists q qs, qualifying rest = q :: qs /\ In q (map fst rest).
Proof.
  unfold ends_qualifying, qualifying.
  revert t. induction rest as [|[u b] rest IH]; intros t Hend.
  - discriminate Hend.
  - destruct b.
    + exists u, (map fst (filter snd rest)). split; [reflexivity | left; reflexivity].
    + destruct (IH u) as (q & qs & E & Hin).
      * exact Hend.
      * exists q, qs. split; [exact E | right; exact Hin].
Qed.

Lemma ends_qualifying_tail u rest :
  rest <> [] -> ends_qualifying (u :: rest) -> ends_qualifying rest.
Proof.
  unfold ends_qualifying. destruct rest; [congruence | auto].
Qed.

(** From a window that holds the latest qualifying time stamp [lq], every
    update up to the last qualifying one returns [True]. *)
Lemma replay_covered window :
  forall updates recent lq,
  In lq recent ->
  StronglySorted Z.lt (lq :: map fst updates) ->
  gaps_within window (lq :: qualifying updates) ->
  ends_qualifying updates ->
  Forall (fun b => b = true) (PresenceWindow.replay window recent updates).
Proof.
  induction updates as [|[t b] rest IH]; intros recent lq Hin Hs Hg Hend.
  - constructor.
  - cbn [PresenceWindow.replay].
    apply StronglySorted_inv in Hs. destruct Hs as [Hs Hlt].
    cbn [map fst] in Hs, Hlt.
    destruct b.
    + (* a qualifying update *)
      assert (Ht : In t (fst (PresenceWindow.update window recent true t))).
      { unfold PresenceWindow.update. cbn [fst]. apply in_or_app.
        right. left. reflexivity. }
      constructor.
      * eapply update_true_of_member. exact Ht.
      * destruct rest as [|u rest'] eqn:Er; [constructor|]. rewrite <- Er in *.
        apply (IH _ t Ht Hs).
        -- unfold qualifying in Hg |- *. cbn [filter snd map fst] in Hg.
           destruct Hg as [_ Hg]. exact Hg.
        -- apply (ends_qualifying_tail (t, true)); [subst rest; discriminate | exact Hend].
    + (* a non-qualifying update before the next qualifying one *)
      destruct (qualifying_head_of_end rest t Hend) as (q & qs & Eq & Hq).
      assert (Hgap : q - lq <= window /\ gaps_within window (lq :: qualifying rest)).
      { unfold qualifying in Hg, Eq |- *. cbn [filter snd] in Hg.
        rewrite Eq in Hg |- *. split; [apply Hg | exact Hg]. }
      destruct Hgap as [Hgap Hg'].
      assert (Htq : t < q).
      { apply StronglySorted_inv in Hs. destruct Hs as [_ Hall].
        rewrite Forall_forall in Hall. apply Hall. exact Hq. }
      assert (Hkeep : In lq (fst (PresenceWindow.update window recent false t))).
      { apply update_keeps; [exact Hin | lia]. }
      constructor.
      * eapply update_true_of_member. exact Hkeep.
      * apply (IH _ lq Hkeep).
        -- apply StronglySorted_inv in Hs. destruct Hs as [Hs' _].
           constructor; [exact Hs'|]. inversion Hlt; assumption.
        -- exact Hg'.
        -- apply (ends_qualifying_tail (t, false)); [|exact Hend].
           intros ->. discriminate Eq.
Qed.

(** C8, as stated, fails when the clock does not advance between two
    updates or steps back: with a window of 3 s and detections at 0 s and
    3 s, an update without detection that also reads 3 s finds the window
    empty; and with detections at 0 s and 2 s, an update in between that
    reads 5 s does.  In both runs the detections lie at most the window
    apart and the second update returns [False]. *)
Lemma stalled_clock_flickers :
  let same := [(seconds 3, false); (seconds 3, true)] in
  let back := [(seconds 5, false); (seconds 2, true)] in
  gaps_within (seconds 3) (0 :: qualifying same) /\
  ends_qualifying same /\
  PresenceWindow.replay (seconds 3) [] ((0, true) :: same) = [true; false; true] /\
  gaps_within (seconds 3) (0 :: qualifying back) /\
  ends_qualifying back /\
  PresenceWindow.replay (seconds 3) [] ((0, true) :: back) = [true; false; true].
Proof.
  cbv zeta. split; [cbn; split; [discriminate | exact I]|].
  split; [reflexivity|]. split; [reflexivity|].
  split; [cbn; split; [discriminate | exact I]|].
  split; reflexivity.
Qed.

(** C8, amended: [update_detection_filter] keeps exactly the time stamps
    less than the window old, whether or not the frame qualifies, appends
    the current time exactly when it qualifies, and returns whether the
    resulting list is non-empty; so, when the time stamps strictly
    increase from one update to the next and qualifying detections follow
    one another at most the window apart, every update from the first to
    the last of them returns [True]. *)
Theorem window_debounce window t0 rest :
  StronglySorted Z.lt (t0 :: map fst rest) ->
  gaps_within window (t0 :: qualifying rest) ->
  ends_qualifying rest ->
  (forall recent cat_detected now,
     let r := PresenceWindow.update window recent cat_detected now in
     fst r = filter (fun t => now - t <? window) recent
             ++ (if cat_detected then [now] else []) /\
     (forall t, In t (filter (fun t => now - t <? window) recent) <->
                In t recent /\ now - t < window) /\
     (snd r = true <-> fst r <> [])) /\
  (forall cfg app cb cat_detected now,
     let a := Detector.update_detection_filter cfg app cat_detected now in
     let c := Callback.update_detection_filter cb cat_detected now in
     (Detector.recent_detections (fst a), snd a)
     = PresenceWindow.update (Detector.detection_filter_window cfg)
         (Detector.recent_detections app) cat_detected now /\
     (Callback.recent_detections (fst c), snd c)
     = PresenceWindow.update (seconds 5)
         (Callback.recent_detections cb) cat_detected now) /\
  (forall recent,
     Forall (fun b => b = true)
       (PresenceWindow.replay window recent ((t0, true) :: rest))).
Proof.
  intros Hs Hg Hend. split; [|split; [intros; split; reflexivity|]].
  - intros recent cat_detected now r. split; [|split].
    + unfold r, PresenceWindow.update, PresenceWindow.prune. cbn [fst].
      destruct cat_detected; [reflexivity | rewrite app_nil_r; reflexivity].
    + intros t. rewrite filter_In, Z.ltb_lt. reflexivity.
    + apply update_returns.
  - intros recent. cbn [PresenceWindow.replay].
    assert (Ht : In t0 (fst (PresenceWindow.update window recent true t0))).
    { unfold PresenceWindow.update. cbn [fst]. apply in_or_app.
      right. left. reflexivity. }
    constructor.
    + eapply update_true_of_member. exact Ht.
    + apply (replay_covered window rest _ t0 Ht Hs Hg Hend).
Qed.

Lemma window_debounce_witness :
  StronglySorted Z.lt
    (0 :: map fst [(seconds 1, false); (seconds 2, false); (seconds 3, true)]) /\
  gaps_within (seconds 3)
    (0 :: qualifying [(seconds 1, false); (seconds 2, false); (seconds 3, true)]) /\
  ends_qualifying [(seconds 1, false); (seconds 2, false); (seconds 3, true)] /\
  Forall (fun b => b = true)
    (PresenceWindow.replay (seconds 3) []
       [(0, true); (seconds 1, false); (seconds 2, false); (seconds 3, true)]).
Proof.
  assert (Hs : StronglySorted Z.lt
    (0 :: map fst [(seconds 1, false); (seconds 2, false); (seconds 3, true)])).
  { repeat (constructor; [|repeat constructor]). constructor. }
  assert (Hg : gaps_within (seconds 3)
    (0 :: qualifying [(seconds 1, false); (seconds 2, false); (seconds 3, true)])).
  { cbn. split; [discriminate | exact I]. }
  assert (He : ends_qualifying
    [(seconds 1, false); (seconds 2, false); (seconds 3, true)]) by reflexivity.
  split; [exact Hs|]. split; [exact Hg|]. split; [exact He|].
  apply (window_debounce (seconds 3) 0
           [(seconds 1, false); (seconds 2, false); (seconds 3, true)] Hs Hg He).
Defined.

End WindowFacts.

(** ** The presence timer *)

Section TimerFacts.
Import WindowCtl Session Vocabulary.

Lemma set_window_position_auto_mode exec now w target :
  manual_mode (after (set_window_position exec now w target false)) = manual_mode w.
Proof.
  unfold set_window_position.
  destruct (cooldown_active w now); [reflexivity|].
  cbn [enter_manual negb]. rewrite andb_true_r.
  destruct (Bool.eqb target (is_window_open w)); [reflexivity|].
  destruct target; [destruct (exec Apri)|destruct (exec Chiudi)]; reflexivity.
Qed.

Lemma step_keeps_exclusive cfg self e :
  timers_exclusive self ->
  timers_exclusive (Detector.app_after (step cfg self e)).
Proof.
  intros Hx. destruct e as [t| | | |]; cbn [step Detector.app_after]; try exact Hx.
  unfold Detector.process_cat_detection.
  destruct (negb (auto_control_enabled (Detector.window_controller self)));
    [exact Hx|].
  destruct (tick_present t).
  - destruct (Detector.required_detection_time cfg <=? _); right; reflexivity.
  - destruct (Detector.required_no_detection_time cfg <=? _); left; reflexivity.
Qed.

Lemma step_headless_keeps_exclusive self e :
  timers_exclusive_headless self ->
  timers_exclusive_headless (Callback.callback_after (step_headless self e)).
Proof.
  intros Hx. destruct e as [t| | | |]; cbn [step_headless Callback.callback_after];
    try exact Hx.
  unfold Callback.process_cat_detection.
  destruct (negb (auto_control_enabled (Callback.window_controller self)));
    [exact Hx|].
  destruct (tick_present t).
  - destruct (Callback.required_detection_time <=? _); right; reflexivity.
  - destruct (Callback.required_no_detection_time <=? _); left; reflexivity.
Qed.

Lemma run_keeps_exclusive cfg events :
  forall self, timers_exclusive self ->
  Forall (fun v => timers_exclusive (Detector.app_after v)) (run cfg self events).
Proof.
  induction events as [|e events IH]; intros self Hx; cbn [run]; constructor.
  - apply step_keeps_exclusive. exact Hx.
  - apply IH. apply step_keeps_exclusive. exact Hx.
Qed.

Lemma run_headless_keeps_exclusive events :
  forall self, timers_exclusive_headless self ->
  Forall (fun v => timers_exclusive_headless (Callback.callback_after v))
    (run_headless self events).
Proof.
  induction events as [|e events IH]; intros self Hx; cbn [run_headless]; constructor.
  - apply step_headless_keeps_exclusive. exact Hx.
  - apply IH. apply step_headless_keeps_exclusive. exact Hx.
Qed.

(** C9: started with both timers null, after every frame, whatever the
    presence inputs, the time stamps, the script results and the Telegram
    commands in between, at most one of the two timers is set, in
    [CatDetectorApp] and in [HeadlessCatDetectorCallback]. *)
Theorem timers_never_both_set cfg events app cb :
  Detector.current_detection_time app = None ->
  Detector.current_no_detection_time app = None ->
  Callback.last_cat_time cb = None ->
  Callback.last_no_cat_time cb = None ->
  Forall (fun v => timers_exclusive (Detector.app_after v)) (run cfg app events) /\
  Forall (fun v => timers_exclusive_headless (Callback.callback_after v))
    (run_headless cb events).
Proof.
  intros Ha _ Hc _. split.
  - apply run_keeps_exclusive. left. exact Ha.
  - apply run_headless_keeps_exclusive. left. exact Hc.
Qed.

Lemma timers_never_both_set_witness :
  let events :=
    [Frame (mkTick true 0 0 (fun _ => true));
     Frame (mkTick false (seconds 1) (seconds 1) (fun _ => true));
     TelegramApri (seconds 2) (fun _ => false);
     Frame (mkTick true (seconds 3) (seconds 3) (fun _ => true));
     TelegramAuto;
     Frame (mkTick true (seconds 4) (seconds 4) (fun _ => true))] in
  Forall (fun v => timers_exclusive (Detector.app_after v))
    (run Detector.default_config Detector.init events) /\
  Forall (fun v => timers_exclusive_headless (Callback.callback_after v))
    (run_headless Callback.init events).
Proof.
  cbv zeta.
  apply (timers_never_both_set Detector.default_config _ Detector.init Callback.init
           eq_refl eq_refl eq_refl eq_refl).
Defined.

Lemma opens_cons v vs :
  opens (v :: vs)
  = ((match Detector.window_change v with Some true => 1 | _ => 0 end) + opens vs)%nat.
Proof.
  unfold opens. cbn [filter].
  destruct (Detector.window_change v) as [[]|]; reflexivity.
Qed.

Lemma sent_cons v vs : sent (v :: vs) = Detector.commands v ++ sent vs.
Proof. reflexivity. Qed.

(** A present tick on an open window in automatic mode does nothing
    beyond clearing the absence timer. *)
Lemma tick_while_open cfg self t t0 :
  present_tick t ->
  manual_mode (Detector.window_controller self) = false ->
  is_window_open (Detector.window_controller self) = true ->
  Detector.current_detection_time self = Some t0 ->
  step cfg self (Frame t)
  = Detector.mkVerdict (dwelling t0 (Detector.window_controller self) self) [] None.
Proof.
  intros Hp Hm Ho Hd. cbn [step]. unfold Detector.process_cat_detection.
  rewrite Hp, Hd. unfold auto_control_enabled. rewrite Hm. cbn [negb].
  destruct (Detector.required_detection_time cfg <=? tick_time t - t0); [|reflexivity].
  unfold set_window_position.
  destruct (cooldown_active (Detector.window_controller self) (tick_ctl_time t));
    [reflexivity|].
  cbn [enter_manual negb]. rewrite Ho. reflexivity.
Qed.

(** A present tick on a closed window in automatic mode: nothing, a
    failed attempt, or the opening. *)
Lemma tick_while_closed cfg self t t0 :
  present_tick t ->
  manual_mode (Detector.window_controller self) = false ->
  is_window_open (Detector.window_controller self) = false ->
  Detector.current_detection_time self = Some t0 ->
  let w := Detector.window_controller self in
  step cfg self (Frame t) = Detector.mkVerdict (dwelling t0 w self) [] None \/
  step cfg self (Frame t) = Detector.mkVerdict (dwelling t0 w self) [Apri] None \/
  step cfg self (Frame t)
  = Detector.mkVerdict (dwelling t0 (opened_at (tick_ctl_time t) w) self) [Apri] (Some true).
Proof.
  intros Hp Hm Hc Hd. cbn [step]. unfold Detector.process_cat_detection.
  rewrite Hp, Hd. unfold auto_control_enabled. rewrite Hm. cbn [negb].
  destruct (Detector.required_detection_time cfg <=? tick_time t - t0);
    [|left; reflexivity].
  unfold set_window_position.
  destruct (cooldown_active (Detector.window_controller self) (tick_ctl_time t));
    [left; reflexivity|].
  cbn [enter_manual negb]. rewrite Hc. cbn [Bool.eqb andb].
  destruct (tick_exec t Apri); right; [right | left]; reflexivity.
Qed.

(** The same tick when the script works and no cooldown is active. *)
Lemma tick_while_closed_exact cfg self t t0 :
  present_tick t ->
  manual_mode (Detector.window_controller self) = false ->
  is_window_open (Detector.window_controller self) = false ->
  Detector.current_detection_time self = Some t0 ->
  tick_exec t Apri = true ->
  (Detector.required_detection_time cfg <= tick_time t - t0 ->
   cooldown_active (Detector.window_controller self) (tick_ctl_time t) = false) ->
  let w := Detector.window_controller self in
  step cfg self (Frame t)
  = if Detector.required_detection_time cfg <=? tick_time t - t0
    then Detector.mkVerdict (dwelling t0 (opened_at (tick_ctl_time t) w) self)
           [Apri] (Some true)
    else Detector.mkVerdict (dwelling t0 w self) [] None.
Proof.
  intros Hp Hm Hc Hd He Hcool. cbn [step]. unfold Detector.process_cat_detection.
  rewrite Hp, Hd. unfold auto_control_enabled. rewrite Hm. cbn [negb].
  destruct (Z.leb_spec (Detector.required_detection_time cfg) (tick_time t - t0));
    [|reflexivity].
  unfold set_window_position. rewrite (Hcool H).
  cbn [enter_manual negb]. rewrite Hc, He. reflexivity.
Qed.

Lemma run_while_open cfg t0 :
  forall ticks self,
  Forall present_tick ticks ->
  manual_mode (Detector.window_controller self) = false ->
  is_window_open (Detector.window_controller self) = true ->
  Detector.current_detection_time self = Some t0 ->
  let vs := run cfg self (map Frame ticks) in
  Forall (fun v => Detector.current_detection_time (Detector.app_after v) = Some t0) vs /\
  opens vs = 0%nat /\ sent vs = [].
Proof.
  induction ticks as [|t ticks IH]; intros self Hp Hm Ho Hd; cbn [map run].
  - repeat split. constructor.
  - inversion Hp as [|? ? Hp1 Hp2]; subst.
    rewrite (tick_while_open cfg self t t0 Hp1 Hm Ho Hd). cbn [Detector.app_after].
    destruct (IH (dwelling t0 (Detector.window_controller self) self) Hp2 Hm Ho eq_refl)
      as (Hf & Hn & Hs).
    split; [constructor; [reflexivity | exact Hf]|].
    rewrite opens_cons, sent_cons, Hn, Hs. split; reflexivity.
Qed.

Lemma run_while_closed cfg t0 :
  forall ticks self,
  Forall present_tick ticks ->
  manual_mode (Detector.window_controller self) = false ->
  is_window_open (Detector.window_controller self) = false ->
  Detector.current_detection_time self = Some t0 ->
  let vs := run cfg self (map Frame ticks) in
  Forall (fun v => Detector.current_detection_time (Detector.app_after v) = Some t0) vs /\
  (opens vs <= 1)%nat /\ Forall (eq Apri) (sent vs).
Proof.
  induction ticks as [|t ticks IH]; intros self Hp Hm Hc Hd; cbn [map run].
  - split; [constructor|]. split; [cbn; lia | constructor].
  - inversion Hp as [|? ? Hp1 Hp2]; subst.
    destruct (tick_while_closed cfg self t t0 Hp1 Hm Hc Hd) as [E|[E|E]];
      rewrite E; cbn [Detector.app_after]; rewrite opens_cons, sent_cons;
      cbn [Detector.window_change Detector.commands].
    + destruct (IH (dwelling t0 (Detector.window_controller self) self) Hp2 Hm Hc eq_refl)
        as (Hf & Hn & Hs).
      split; [constructor; [reflexivity | exact Hf]|]. split; assumption.
    + destruct (IH (dwelling t0 (Detector.window_controller self) self) Hp2 Hm Hc eq_refl)
        as (Hf & Hn & Hs).
      split; [constructor; [reflexivity | exact Hf]|].
      split; [exact Hn | constructor; [reflexivity | exact Hs]].
    + destruct (run_while_open cfg t0 ticks
                  (dwelling t0 (opened_at (tick_ctl_time t) (Detector.window_controller self))
                     self) Hp2 Hm eq_refl eq_refl) as (Hf & Hn & Hs).
      split; [constructor; [reflexivity | exact Hf]|].
      rewrite Hn, Hs. split; [apply le_n | repeat constructor].
Qed.

Lemma run_while_closed_exact cfg t0 :
  forall ticks self,
  Forall present_tick ticks ->
  manual_mode (Detector.window_controller self) = false ->
  is_window_open (Detector.window_controller self) = false ->
  Detector.current_detection_time self = Some t0 ->
  Forall (fun t => tick_exec t Apri = true) ticks ->
  Forall (fun t => tick_time t <= tick_ctl_time t) ticks ->
  (forall l, last_command_time (Detector.window_controller self) = Some l -> l <= t0) ->
  command_cooldown <= Detector.required_detection_time cfg ->
  let vs := run cfg self (map Frame ticks) in
  opens vs
    = (if dwell_reached (Detector.required_detection_time cfg) t0 ticks then 1 else 0)%nat /\
  sent vs
    = (if dwell_reached (Detector.required_detection_time cfg) t0 ticks then [Apri] else []).
Proof.
  induction ticks as [|t ticks IH]; intros self Hp Hm Hc Hd He Hk Hl Hreq;
    cbn [map run dwell_reached existsb].
  - split; reflexivity.
  - inversion Hp as [|? ? Hp1 Hp2]; subst.
    inversion He as [|? ? He1 He2]; subst.
    inversion Hk as [|? ? Hk1 Hk2]; subst.
    rewrite (tick_while_closed_exact cfg self t t0 Hp1 Hm Hc Hd He1).
    + destruct (Detector.required_detection_time cfg <=? tick_time t - t0);
        cbn [orb Detector.app_after]; rewrite opens_cons, sent_cons;
        cbn [Detector.window_change Detector.commands].
      * destruct (run_while_open cfg t0 ticks
                    (dwelling t0 (opened_at (tick_ctl_time t) (Detector.window_controller self))
                       self) Hp2 Hm eq_refl eq_refl) as (_ & Hn & Hs).
        rewrite Hn, Hs. split; reflexivity.
      * apply (IH (dwelling t0 (Detector.window_controller self) self)
                 Hp2 Hm Hc eq_refl He2 Hk2 Hl Hreq).
    + intros Hdue. unfold cooldown_active.
      destruct (last_command_time (Detector.window_controller self)) as [l|] eqn:El;
        [|reflexivity].
      apply Z.ltb_ge. specialize (Hl l eq_refl). lia.
Qed.

(** The first present tick of a dwell behaves as if the timer had already
    been set to its time stamp. *)
Lemma first_tick_starts_dwell cfg self t :
  present_tick t ->
  manual_mode (Detector.window_controller self) = false ->
  Detector.current_detection_time self = None ->
  step cfg self (Frame t) = step cfg (started_at (tick_time t) self) (Frame t).
Proof.
  intros Hp Hm Hd. cbn [step]. unfold Detector.process_cat_detection.
  rewrite Hp, Hd. cbn [started_at Detector.window_controller
    Detector.current_detection_time Detector.recent_detections].
  unfold auto_control_enabled. rewrite Hm. reflexivity.
Qed.

(** C3, as stated, fails: with the window closed and automatic control on,
    presence held for eleven seconds while the script fails puts two open
    commands on the wire and [set_window_position(True, manual=False)]
    never returns [True]. *)
Lemma failing_script_repeats_open :
  let ticks :=
    [mkTick true 0 0 (fun _ => false);
     mkTick true (seconds 10) (seconds 10) (fun _ => false);
     mkTick true (seconds 11) (seconds 11) (fun _ => false)] in
  let vs := run Detector.default_config Detector.init (map Frame ticks) in
  Forall present_tick ticks /\
  dwell_reached (Detector.required_detection_time Detector.default_config) 0 ticks = true /\
  opens vs = 0%nat /\
  sent vs = [Apri; Apri].
Proof.
  cbv zeta. split; [repeat constructor|]. repeat split.
Qed.

(** C3, amended: over a run of frames with presence true throughout,
    automatic control on and the window closed at the start, the dwell
    timer keeps the time stamp of the first frame, the window is reported
    opened at most once, and nothing but open commands reach the wire.
    When moreover the script succeeds, the controller reads its clock no
    earlier than the frame, the last command (if any) is not later than
    the first frame and the cooldown is no longer than the required
    dwell, the window is opened exactly once and exactly one open command
    reaches the wire if some frame lies at least the required dwell after
    the first, and none otherwise. *)
Theorem dwell_opens_once cfg self ticks t0 :
  Forall present_tick ticks ->
  manual_mode (Detector.window_controller self) = false ->
  is_window_open (Detector.window_controller self) = false ->
  Detector.current_detection_time self = None ->
  first_time ticks = Some t0 ->
  let vs := run cfg self (map Frame ticks) in
  let due := dwell_reached (Detector.required_detection_time cfg) t0 ticks in
  Forall (fun v => Detector.current_detection_time (Detector.app_after v) = Some t0) vs /\
  (opens vs <= 1)%nat /\
  Forall (eq Apri) (sent vs) /\
  (Forall (fun t => tick_exec t Apri = true) ticks ->
   Forall (fun t => tick_time t <= tick_ctl_time t) ticks ->
   (forall l, last_command_time (Detector.window_controller self) = Some l -> l <= t0) ->
   command_cooldown <= Detector.required_detection_time cfg ->
   opens vs = (if due then 1 else 0)%nat /\
   sent vs = (if due then [Apri] else [])).
Proof.
  intros Hp Hm Hc Hd Hfirst vs due.
  destruct ticks as [|t ticks]; [discriminate Hfirst|].
  cbn [first_time] in Hfirst. injection Hfirst as Ht0.
  assert (Hp1 : present_tick t) by (inversion Hp; assumption).
  assert (Hrun : vs = run cfg (started_at t0 self) (map Frame (t :: ticks))).
  { unfold vs. cbn [map run].
    rewrite (first_tick_starts_dwell cfg self t Hp1 Hm Hd), Ht0. reflexivity. }
  destruct (run_while_closed cfg t0 (t :: ticks) (started_at t0 self) Hp Hm Hc eq_refl)
    as (Hf & Hn & Hs).
  rewrite <- Hrun in Hf, Hn, Hs.
  split; [exact Hf|]. split; [exact Hn|]. split; [exact Hs|].
  intros He Hk Hl Hreq. rewrite Hrun.
  apply (run_while_closed_exact cfg t0 (t :: ticks) (started_at t0 self)
           Hp Hm Hc eq_refl He Hk Hl Hreq).
Qed.

Lemma dwell_opens_once_witness :
  let ticks :=
    [mkTick true 0 0 (fun _ => true);
     mkTick true (seconds 5) (seconds 5) (fun _ => true);
     mkTick true (seconds 10) (seconds 10) (fun _ => true);
     mkTick true (seconds 11) (seconds 11) (fun _ => true);
     mkTick true (seconds 20) (seconds 20) (fun _ => true)] in
  let vs := run Detector.default_config Detector.init (map Frame ticks) in
  Forall present_tick ticks /\
  first_time ticks = Some 0 /\
  opens vs = 1%nat /\
  sent vs = [Apri].
Proof.
  cbv zeta.
  assert (Hp : Forall present_tick
    [mkTick true 0 0 (fun _ => true);
     mkTick true (seconds 5) (seconds 5) (fun _ => true);
     mkTick true (seconds 10) (seconds 10) (fun _ => true);
     mkTick true (seconds 11) (seconds 11) (fun _ => true);
     mkTick true (seconds 20) (seconds 20) (fun _ => true)])
    by (repeat constructor).
  split; [exact Hp|]. split; [reflexivity|].
  destruct (dwell_opens_once Detector.default_config Detector.init _ 0
              Hp eq_refl eq_refl eq_refl eq_refl) as (_ & _ & _ & Hexact).
  apply Hexact.
  - repeat constructor.
  - repeat constructor; discriminate.
  - intros l Hl. discriminate Hl.
  - discriminate.
Defined.

End TimerFacts.

(** ** The order of transactions on the serial line *)

Section LineFacts.
Import CatWindow Vocabulary.

Lemma read_is_no_write a e : is_read e = true -> writes_to a e = false.
Proof. destruct e; [discriminate | reflexivity]. Qed.

Lemma reads_are_no_writes a l :
  Forall (fun e => is_read e = true) l -> Forall (fun e => writes_to a e = false) l.
Proof. apply Forall_impl. intros e. apply read_is_no_write. Qed.

(** A list with a single element satisfying [P] splits around it in one
    way only. *)
Lemma split_at_only {A} (P : A -> bool) :
  forall l1 a l2 p b q,
  Forall (fun e => P e = false) l1 ->
  Forall (fun e => P e = false) l2 ->
  P b = true ->
  l1 ++ a :: l2 = p ++ b :: q ->
  p = l1 /\ b = a /\ q = l2.
Proof.
  induction l1 as [|x l1 IH]; intros a l2 p b q H1 H2 Hb E.
  - destruct p as [|y p]; cbn in E.
    + injection E as -> ->. repeat split.
    + injection E as -> ->. rewrite Forall_forall in H2.
      specialize (H2 b (in_elt b p q)). congruence.
  - inversion H1 as [|? ? Hx H1']; subst.
    destruct p as [|y p]; cbn in E.
    + injection E as -> _. congruence.
    + injection E as -> E.
      destruct (IH a l2 p b q H1' H2 Hb E) as (-> & -> & ->). repeat split.
Qed.

Lemma no_split_without {A} (P : A -> bool) l p b q :
  Forall (fun e => P e = false) l -> P b = true -> l <> p ++ b :: q.
Proof.
  intros Hl Hb ->. rewrite Forall_forall in Hl.
  specialize (Hl b (in_elt b p q)). congruence.
Qed.

(** One iteration of the polling loop, written out. *)
Lemma poll_step dev fuel angle start_time l :
  poll dev (S fuel) angle start_time l
  = if WindowCtl.Qlt_bool timeout (time_at dev (clock_reads l) - start_time)
    then (Some false, mkLine (events l) (S (clock_reads l)))
    else
      let reply := on_read dev (events l) 1 in
      let l1 := mkLine (events l ++ [Read 1 reply]) (S (clock_reads l)) in
      match reply with
      | ReadRegisters r0 =>
          if Qle_bool (Qabs (register_angle r0 - angle)) 0.1
          then (Some true, l1)
          else poll dev fuel angle start_time l1
      | _ => poll dev fuel angle start_time l1
      end.
Proof.
  destruct l as [history n].
  cbn [poll]. unfold bind, time, read_holding_registers, sleep, ret.
  cbn [fst snd events clock_reads].
  destruct (WindowCtl.Qlt_bool timeout (time_at dev n - start_time));
    [reflexivity|].
  cbn [events clock_reads].
  destruct (on_read dev history 1) as [r0| |]; try reflexivity.
  destruct (Qle_bool (Qabs (register_angle r0 - angle)) 0.1); reflexivity.
Qed.

(** The polling loop only reads, and it reports success right after a
    reading within tolerance. *)
Lemma poll_trace dev angle start_time :
  forall fuel l,
  exists reads,
    events (snd (poll dev fuel angle start_time l)) = events l ++ reads /\
    Forall (fun e => is_read e = true) reads /\
    (fst (poll dev fuel angle start_time l) = Some true ->
     exists polls r0,
       reads = polls ++ [Read 1 (ReadRegisters r0)] /\
       Forall (fun e => is_read e = true) polls /\
       (Qabs (register_angle r0 - angle) <= 0.1)%Q).
Proof.
  induction fuel as [|fuel IH]; intros l.
  - exists []. cbn [poll ret fst snd]. rewrite app_nil_r.
    split; [reflexivity|]. split; [constructor | discriminate].
  - rewrite poll_step.
    destruct (WindowCtl.Qlt_bool timeout (time_at dev (clock_reads l) - start_time)).
    { exists []. cbn [fst snd events]. rewrite app_nil_r.
      split; [reflexivity|]. split; [constructor | discriminate]. }
    cbv zeta.
    set (reply := on_read dev (events l) 1).
    set (l1 := mkLine (events l ++ [Read 1 reply]) (S (clock_reads l))).
    assert (Hrec :
      exists reads,
        events (snd (poll dev fuel angle start_time l1)) = events l ++ reads /\
        Forall (fun e => is_read e = true) reads /\
        (fst (poll dev fuel angle start_time l1) = Some true ->
         exists polls r0,
           reads = polls ++ [Read 1 (ReadRegisters r0)] /\
           Forall (fun e => is_read e = true) polls /\
           (Qabs (register_angle r0 - angle) <= 0.1)%Q)).
    { destruct (IH l1) as (reads & E & Hr & Hok).
      exists (Read 1 reply :: reads). split; [|split].
      - rewrite E. subst l1. cbn [events]. rewrite <- app_assoc. reflexivity.
      - constructor; [reflexivity | exact Hr].
      - intros Hs. destruct (Hok Hs) as (polls & r0 & -> & Hp & Htol).
        exists (Read 1 reply :: polls), r0. split; [reflexivity|].
        split; [constructor; [reflexivity | exact Hp] | exact Htol]. }
    destruct reply as [r0| |] eqn:Er; try exact Hrec.
    destruct (Qle_bool (Qabs (register_angle r0 - angle)) 0.1) eqn:Et; [|exact Hrec].
    exists [Read 1 (ReadRegisters r0)]. subst l1. cbn [fst snd events].
    split; [reflexivity|]. split; [repeat constructor|].
    intros _. exists [], r0. split; [reflexivity|].
    split; [constructor | apply Qle_bool_iff; exact Et].
Qed.

(** [set_window_angle] writes the leaf setpoint once and then only
    reads. *)
Lemma set_window_angle_trace dev fuel angle l :
  exists rep reads,
    events (snd (set_window_angle dev fuel angle l))
      = events l ++ Write 0 (angle_reg angle) rep :: reads /\
    Forall (fun e => is_read e = true) reads /\
    (fst (set_window_angle dev fuel angle l) = Some true ->
     rep = WriteAck /\
     exists polls r0,
       reads = polls ++ [Read 1 (ReadRegisters r0)] /\
       Forall (fun e => is_read e = true) polls /\
       (Qabs (register_angle r0 - angle) <= 0.1)%Q).
Proof.
  unfold set_window_angle, bind. cbn [write_register fst snd].
  set (rep := on_write dev (events l) 0 (angle_reg angle)).
  exists rep. destruct rep eqn:Er.
  - cbn [time fst snd events clock_reads].
    destruct (poll_trace dev angle (time_at dev (clock_reads l)) fuel
                (mkLine (events l ++ [Write 0 (angle_reg angle) WriteAck])
                   (S (clock_reads l)))) as (reads & E & Hr & Hok).
    exists reads. split; [|split].
    + rewrite E. cbn [events]. rewrite <- app_assoc. reflexivity.
    + exact Hr.
    + intros Hs. split; [reflexivity | exact (Hok Hs)].
  - exists []. cbn. repeat split; try constructor; discriminate.
  - exists []. cbn. repeat split; try constructor; discriminate.
Qed.

(** [set_lock_angle] writes the lock setpoint once and reads at most
    once; it reports success only after a reading within tolerance. *)
Lemma set_lock_angle_trace dev angle l :
  exists rep reads,
    events (snd (set_lock_angle dev angle l))
      = events l ++ Write 2 (angle_reg angle) rep :: reads /\
    Forall (fun e => is_read e = true) reads /\
    (fst (set_lock_angle dev angle l) = true ->
     rep = WriteAck /\
     exists r0,
       reads = [Read 3 (ReadRegisters r0)] /\
       (Qabs (register_angle r0 - angle) <= 5)%Q).
Proof.
  unfold set_lock_angle, bind. cbn [write_register fst snd].
  set (rep := on_write dev (events l) 2 (angle_reg angle)).
  exists rep. destruct rep eqn:Er.
  - cbn [sleep ret read_holding_registers fst snd events clock_reads].
    set (reply := on_read dev (events l ++ [Write 2 (angle_reg angle) WriteAck]) 3).
    exists [Read 3 reply]. split; [|split].
    + destruct reply; cbn [ret snd events]; rewrite <- app_assoc; reflexivity.
    + repeat constructor.
    + destruct reply as [r0| |]; cbn [ret fst]; try discriminate.
      intros Hs. split; [reflexivity|]. exists r0.
      split; [reflexivity | apply Qle_bool_iff; exact Hs].
  - exists []. cbn. repeat split; try constructor; discriminate.
  - exists []. cbn. repeat split; try constructor; discriminate.
Qed.

Lemma open_window_line dev fuel l :
  snd (open_window dev fuel l)
  = if fst (unlock_window dev l)
    then snd (set_window_angle dev fuel 120 (snd (unlock_window dev l)))
    else snd (unlock_window dev l).
Proof.
  unfold open_window, bind.
  destruct (fst (unlock_window dev l)); cbn [negb]; [|reflexivity].
  destruct (fst (set_window_angle dev fuel 120 (snd (unlock_window dev l))))
    as [[]|]; reflexivity.
Qed.

Lemma close_window_line dev fuel l :
  snd (close_window dev fuel l)
  = match fst (set_window_angle dev fuel 77 l) with
    | Some true => snd (lock_window dev (snd (set_window_angle dev fuel 77 l)))
    | _ => snd (set_window_angle dev fuel 77 l)
    end.
Proof.
  unfold close_window, bind.
  destruct (fst (set_window_angle dev fuel 77 l)) as [[]|]; try reflexivity.
  unfold sleep, ret. cbn [fst snd].
  destruct (fst (lock_window dev (snd (set_window_angle dev fuel 77 l))));
    reflexivity.
Qed.

(** The obedient device: opening and closing succeed, with the
    transactions in the expected order. *)
Example open_on_obedient_device :
  open_window obedient 5 fresh
  = (Some true,
     mkLine [Write 2 900 WriteAck; Read 3 (ReadRegisters 900);
             Write 0 1200 WriteAck; Read 1 (ReadRegisters 1200)] 2).
Proof. vm_compute. reflexivity. Qed.

Example close_on_obedient_device :
  close_window obedient 5 fresh
  = (Some true,
     mkLine [Write 0 770 WriteAck; Read 1 (ReadRegisters 770);
             Write 2 0 WriteAck; Read 3 (ReadRegisters 0)] 2).
Proof. vm_compute. reflexivity. Qed.

(** A lock that stays at 0 degrees: the opening stops after the failed
    confirmation and the leaf setpoint is never written. *)
Example open_with_stuck_lock :
  open_window stuck_lock 5 fresh
  = (Some false, mkLine [Write 2 900 WriteAck; Read 3 (ReadRegisters 0)] 0).
Proof. vm_compute. reflexivity. Qed.

(** A leaf that never reaches 77 degrees: the closing ends with the time
    limit after 30 readings and the lock setpoint is never written. *)
Example close_with_stuck_leaf :
  let r := close_window
             (mkDevice (fun _ _ _ => WriteAck) (fun _ _ => ReadRegisters 900)
                (fun n => inject_Z (Z.of_nat n))) 100 fresh in
  fst r = Some false /\
  forallb (fun e => negb (writes_to 2 e)) (events (snd r)) = true /\
  List.length (events (snd r)) = 31%nat.
Proof. vm_compute. repeat split. Qed.

(** C7: among the transactions of [open_window], whatever the device
    answers, a write of the leaf setpoint (register 0) comes only
    directly after the accepted unlock setpoint and a lock reading within
    tolerance of 90 degrees, and there is none when the unlock fails;
    among the transactions of [close_window], a write of the lock
    setpoint (register 2) comes only directly after the accepted leaf
    setpoint and a leaf reading within tolerance of 77 degrees, and there
    is none when the leaf move does not succeed. *)
Theorem actuation_order dev fuel l :
  (exists sent,
     events (snd (open_window dev fuel l)) = events l ++ sent /\
     (forall before v rep rest,
        sent = before ++ Write 0 v rep :: rest -> unlock_confirmed before) /\
     (fst (unlock_window dev l) = false ->
      Forall (fun e => writes_to 0 e = false) sent)) /\
  (exists sent,
     events (snd (close_window dev fuel l)) = events l ++ sent /\
     (forall before v rep rest,
        sent = before ++ Write 2 v rep :: rest -> leaf_confirmed_closed before) /\
     (fst (set_window_angle dev fuel 77 l) <> Some true ->
      Forall (fun e => writes_to 2 e = false) sent)).
Proof.
  split.
  - rewrite open_window_line. unfold unlock_window.
    destruct (set_lock_angle_trace dev 90 l) as (rep & reads & E & Hr & Hok).
    change (angle_reg 90) with 900 in E.
    destruct (fst (set_lock_angle dev 90 l)) eqn:Hu.
    + destruct (Hok eq_refl) as (-> & r0 & -> & Htol).
      destruct (set_window_angle_trace dev fuel 120 (snd (set_lock_angle dev 90 l)))
        as (rep' & reads' & E' & Hr' & _).
      exists ([Write 2 900 WriteAck; Read 3 (ReadRegisters r0)]
              ++ Write 0 (angle_reg 120) rep' :: reads').
      split; [rewrite E', E, <- app_assoc; reflexivity|].
      split; [|discriminate].
      intros before v rp rest Hsplit.
      apply (split_at_only (writes_to 0)) in Hsplit.
      * destruct Hsplit as (-> & _ & _). exists r0. split; [reflexivity | exact Htol].
      * repeat constructor.
      * apply reads_are_no_writes. exact Hr'.
      * reflexivity.
    + assert (Hno : Forall (fun e => writes_to 0 e = false) (Write 2 900 rep :: reads)).
      { constructor; [reflexivity | apply reads_are_no_writes; exact Hr]. }
      exists (Write 2 900 rep :: reads). split; [exact E|].
      split; [|intros _; exact Hno].
      intros before v rp rest Hsplit. exfalso.
      exact (no_split_without (writes_to 0) _ before (Write 0 v rp) rest Hno eq_refl Hsplit).
  - rewrite close_window_line. unfold lock_window.
    destruct (set_window_angle_trace dev fuel 77 l) as (rep & reads & E & Hr & Hok).
    change (angle_reg 77) with 770 in E.
    destruct (fst (set_window_angle dev fuel 77 l)) as [[]|] eqn:Hm.
    + destruct (Hok eq_refl) as (-> & polls & r0 & -> & Hp & Htol).
      destruct (set_lock_angle_trace dev 0 (snd (set_window_angle dev fuel 77 l)))
        as (rep' & reads' & E' & Hr' & _).
      exists ((Write 0 770 WriteAck :: polls ++ [Read 1 (ReadRegisters r0)])
              ++ Write 2 (angle_reg 0) rep' :: reads').
      split; [rewrite E', E, <- app_assoc; reflexivity|].
      split; [|intros Hne; exfalso; apply Hne; reflexivity].
      intros before v rp rest Hsplit.
      apply (split_at_only (writes_to 2)) in Hsplit.
      * destruct Hsplit as (-> & _ & _). exists polls, r0.
        split; [reflexivity|]. split; [exact Hp | exact Htol].
      * constructor; [reflexivity|]. apply reads_are_no_writes. exact Hr.
      * apply reads_are_no_writes. exact Hr'.
      * reflexivity.
    + assert (Hno : Forall (fun e => writes_to 2 e = false) (Write 0 770 rep :: reads)).
      { constructor; [reflexivity | apply reads_are_no_writes; exact Hr]. }
      exists (Write 0 770 rep :: reads). split; [exact E|].
      split; [|intros _; exact Hno].
      intros before v rp rest Hsplit. exfalso.
      exact (no_split_without (writes_to 2) _ before (Write 2 v rp) rest Hno eq_refl Hsplit).
    + assert (Hno : Forall (fun e => writes_to 2 e = false) (Write 0 770 rep :: reads)).
      { constructor; [reflexivity | apply reads_are_no_writes; exact Hr]. }
      exists (Write 0 770 rep :: reads). split; [exact E|].
      split; [|intros _; exact Hno].
      intros before v rp rest Hsplit. exfalso.
      exact (no_split_without (writes_to 2) _ before (Write 2 v rp) rest Hno eq_refl Hsplit).
Qed.

End LineFacts.

(** * Further properties *)

(** ** Sequences of requests to the controller *)

Section RequestFacts.
Import WindowCtl Requests Vocabulary.

Lemma consistent_mode b w : consistent w -> consistent (set_manual_mode b w).
Proof. intros H. exact H. Qed.

Lemma consistent_enter manual w : consistent w -> consistent (enter_manual manual w).
Proof. destruct manual; intros H; exact H. Qed.

Lemma consistent_position exec now w target manual :
  consistent w -> consistent (after (set_window_position exec now w target manual)).
Proof.
  intros H. unfold set_window_position.
  destruct (cooldown_active w now); [exact H|].
  pose proof (consistent_enter manual w H) as He.
  destruct (Bool.eqb target (is_window_open (enter_manual manual w)) && negb manual);
    [exact He|].
  destruct target; [destruct (exec Apri)|destruct (exec Chiudi)]; try exact He;
    cbn [after]; repeat split; discriminate.
Qed.

Lemma consistent_lock exec now w target manual :
  consistent w -> consistent (after (set_lock_position exec now w target manual)).
Proof.
  intros H. unfold set_lock_position.
  destruct (cooldown_active w now); [exact H|].
  pose proof (consistent_enter manual w H) as He.
  destruct (Bool.eqb target (is_window_locked (enter_manual manual w)) && negb manual);
    [exact He|].
  destruct He as (H1 & H2 & H3 & H4 & H5 & H6).
  destruct target; [destruct (exec Blocca)|destruct (exec Sblocca)];
    cbn [after]; repeat split; assumption.
Qed.

Lemma consistent_move exec now w angle sent0 :
  consistent w ->
  Qle_bool CLOSED_ANGLE angle && Qle_bool angle OPEN_ANGLE = true ->
  consistent (after (move_leaf exec now w angle sent0)).
Proof.
  intros H Hr. unfold move_leaf.
  destruct (exec (Finestra angle)); [|exact H].
  apply andb_prop in Hr. destruct Hr as [Ha Hb].
  apply Qle_bool_iff in Ha. apply Qle_bool_iff in Hb.
  destruct H as (H1 & H2 & H3 & H4 & H5 & H6).
  cbn [after]. repeat split; assumption.
Qed.

Lemma consistent_angle exec now lock_time w angle manual :
  consistent w ->
  consistent (after (set_window_angle exec now lock_time w angle manual)).
Proof.
  intros H. unfold set_window_angle.
  destruct (cooldown_active w now); [exact H|].
  pose proof (consistent_enter manual w H) as He.
  destruct (Qle_bool CLOSED_ANGLE angle && Qle_bool angle OPEN_ANGLE) eqn:Hr;
    cbn [negb]; [|exact He].
  destruct (is_window_locked (enter_manual manual w)).
  - pose proof (consistent_lock exec lock_time _ false manual He) as Hl.
    destruct (negb (returned (set_lock_position exec lock_time
                                (enter_manual manual w) false manual)));
      [exact Hl|].
    apply consistent_move; assumption.
  - apply consistent_move; assumption.
Qed.

Lemma consistent_call w c : consistent w -> consistent (call w c).
Proof.
  intros H. destruct c as [[exec t o m|exec t o m|exec t lt a m]| |]; cbn [call perform].
  - apply consistent_position. exact H.
  - apply consistent_lock. exact H.
  - apply consistent_angle. exact H.
  - exact H.
  - exact H.
Qed.

(** Whatever is asked of a freshly initialised controller, in whatever
    order and with whatever script results: the current and target angles
    agree, for the leaf and for the lock; the leaf angle stays between 77
    and 120 degrees; the lock angle is 0 when the lock flag is set and 90
    when it is not; and the window counts as open exactly when its angle
    exceeds 82 degrees. *)
Theorem controller_stays_consistent cs :
  consistent (calls WindowCtl.init cs).
Proof.
  unfold calls.
  assert (Hgen : forall w, consistent w -> consistent (fold_left call cs w)).
  { induction cs as [|c cs IH]; intros w Hw; cbn [fold_left]; [exact Hw|].
    apply IH. apply consistent_call. exact Hw. }
  apply Hgen. repeat split; discriminate.
Qed.

Lemma move_leaf_stamp exec now w angle sent0 :
  returned (move_leaf exec now w angle sent0) = true ->
  last_command_time (after (move_leaf exec now w angle sent0)) = Some now.
Proof.
  unfold move_leaf. destruct (exec (Finestra angle)); [reflexivity | discriminate].
Qed.

Lemma success_stamps self r :
  returned (perform self r) = true ->
  last_command_time (after (perform self r)) = Some (request_time r).
Proof.
  destruct r as [exec t o m|exec t o m|exec t lt a m]; cbn [perform request_time].
  - unfold set_window_position.
    destruct (cooldown_active self t); [discriminate|].
    destruct (Bool.eqb o (is_window_open (enter_manual m self)) && negb m);
      [discriminate|].
    destruct o; [destruct (exec Apri)|destruct (exec Chiudi)];
      try discriminate; reflexivity.
  - unfold set_lock_position.
    destruct (cooldown_active self t); [discriminate|].
    destruct (Bool.eqb o (is_window_locked (enter_manual m self)) && negb m);
      [discriminate|].
    destruct o; [destruct (exec Blocca)|destruct (exec Sblocca)];
      try discriminate; reflexivity.
  - unfold set_window_angle.
    destruct (cooldown_active self t); [discriminate|].
    destruct (negb (Qle_bool CLOSED_ANGLE a && Qle_bool a OPEN_ANGLE));
      [discriminate|].
    destruct (is_window_locked (enter_manual m self)).
    + destruct (negb (returned (set_lock_position exec lt (enter_manual m self) false m)));
        [discriminate|].
      apply move_leaf_stamp.
    + apply move_leaf_stamp.
Qed.

Lemma rejected_in_cooldown self r :
  cooldown_active self (request_time r) = true ->
  perform self r = mkOutcome false self [].
Proof.
  intros Hc.
  destruct r as [exec t o m|exec t o m|exec t lt a m]; cbn [perform request_time] in *.
  - unfold set_window_position. rewrite Hc. reflexivity.
  - unfold set_lock_position. rewrite Hc. reflexivity.
  - unfold set_window_angle. rewrite Hc. reflexivity.
Qed.

(** A request that returns [True] stamps [last_command_time] with the
    clock reading it took at entry, so every request read off the clock
    less than five seconds after that reading returns [False], sends
    nothing and changes nothing, whichever entry points the two requests
    use. *)
Theorem success_starts_cooldown self first second :
  returned (perform self first) = true ->
  request_time second - request_time first < command_cooldown ->
  last_command_time (after (perform self first)) = Some (request_time first) /\
  perform (after (perform self first)) second
  = mkOutcome false (after (perform self first)) [].
Proof.
  intros Hok Hlt. pose proof (success_stamps self first Hok) as Hs.
  split; [exact Hs|].
  apply rejected_in_cooldown. unfold cooldown_active. rewrite Hs.
  apply Z.ltb_lt. exact Hlt.
Qed.

Lemma success_starts_cooldown_witness :
  let first := Angle (fun _ => true) 0 (seconds 1) 100 false in
  let second := Position (fun _ => true) (seconds 4) false true in
  returned (perform WindowCtl.init first) = true /\
  request_time second - request_time first < command_cooldown /\
  perform (after (perform WindowCtl.init first)) second
  = mkOutcome false (after (perform WindowCtl.init first)) [].
Proof.
  cbv zeta. split; [reflexivity|]. split; [reflexivity|].
  apply (success_starts_cooldown WindowCtl.init
           (Angle (fun _ => true) 0 (seconds 1) 100 false)
           (Position (fun _ => true) (seconds 4) false true) eq_refl eq_refl).
Defined.

(** When [set_window_angle] returns [False], either the controller is as
    before up to [manual_mode], or the unlock succeeded and the leaf
    command failed: then both commands went to the script, the lock is
    recorded open and [last_command_time] carries the clock reading of the
    unlock. *)
Theorem angle_request_failure exec now lock_time self angle manual :
  returned (set_window_angle exec now lock_time self angle manual) = false ->
  let r := set_window_angle exec now lock_time self angle manual in
  same_but_mode self (after r) \/
  (is_window_locked self = true /\
   exec Sblocca = true /\ exec (Finestra angle) = false /\
   wire r = [Sblocca; Finestra angle] /\
   after r = unlocked_at lock_time (enter_manual manual self)).
Proof.
  cbv zeta. unfold set_window_angle.
  destruct (cooldown_active self now); [intros _; left; apply same_but_mode_refl|].
  destruct (negb (Qle_bool CLOSED_ANGLE angle && Qle_bool angle OPEN_ANGLE));
    [intros _; left; apply same_but_mode_enter|].
  destruct (is_window_locked (enter_manual manual self)) eqn:Hl.
  - assert (Hl0 : is_window_locked self = true) by (destruct manual; exact Hl).
    unfold set_lock_position.
    destruct (cooldown_active (enter_manual manual self) lock_time);
      [intros _; left; apply same_but_mode_enter|].
    assert (He : enter_manual manual (enter_manual manual self) = enter_manual manual self)
      by (destruct manual; reflexivity).
    rewrite He, Hl. cbn [Bool.eqb andb].
    destruct (exec Sblocca) eqn:Eu; cbn [returned negb after wire].
    + unfold move_leaf. destruct (exec (Finestra angle)) eqn:Ef; [discriminate|].
      intros _. right. repeat split; assumption.
    + intros _. left. apply same_but_mode_enter.
  - unfold move_leaf. destruct (exec (Finestra angle)); [discriminate|].
    intros _. left. apply same_but_mode_enter.
Qed.

Lemma angle_request_failure_witness :
  let exec := fun c => match c with Sblocca => true | _ => false end in
  let r := set_window_angle exec 0 (seconds 1) WindowCtl.init 100 false in
  returned r = false /\
  (same_but_mode WindowCtl.init (after r) \/
   (is_window_locked WindowCtl.init = true /\
    exec Sblocca = true /\ exec (Finestra 100) = false /\
    wire r = [Sblocca; Finestra 100] /\
    after r = unlocked_at (seconds 1) (enter_manual false WindowCtl.init))).
Proof.
  cbv zeta. split; [reflexivity|].
  apply (angle_request_failure
           (fun c => match c with Sblocca => true | _ => false end)
           0 (seconds 1) WindowCtl.init 100 false eq_refl).
Defined.

End RequestFacts.

(** ** The register encoding of angles *)

Section EncodingFacts.
Import CatWindow.

Lemma round_half_even_cases x :
  (round_half_even x = Qfloor x /\ (x - inject_Z (Qfloor x) <= 1 # 2)%Q) \/
  (round_half_even x = Qfloor x + 1 /\ (1 # 2 <= x - inject_Z (Qfloor x))%Q).
Proof.
  unfold round_half_even.
  destruct (x - inject_Z (Qfloor x) ?= 1 # 2)%Q eqn:E.
  - apply Qeq_alt in E. destruct (Z.even (Qfloor x)); [left | right];
      (split; [reflexivity | rewrite E; apply Qle_refl]).
  - apply Qlt_alt in E. left. split; [reflexivity | apply Qlt_le_weak; exact E].
  - apply Qgt_alt in E. right. split; [reflexivity | apply Qlt_le_weak; exact E].
Qed.

(** Rounding moves a number by at most one half. *)
Lemma round_half_even_near x :
  (Qabs (inject_Z (round_half_even x) - x) <= 1 # 2)%Q.
Proof.
  pose proof (Qfloor_le x) as Hlo. pose proof (Qlt_floor x) as Hhi.
  rewrite inject_Z_plus in Hhi. change (inject_Z 1) with 1%Q in Hhi.
  apply Qabs_Qle_condition.
  destruct (round_half_even_cases x) as [[-> H]|[-> H]].
  - generalize dependent (inject_Z (Qfloor x)). intros f Hlo Hhi H. split; lra.
  - rewrite inject_Z_plus. change (inject_Z 1) with 1%Q.
    generalize dependent (inject_Z (Qfloor x)). intros f Hlo Hhi H. split; lra.
Qed.

(** Rounding stays between integer bounds. *)
Lemma round_half_even_between (a b : Z) x :
  (inject_Z a <= x)%Q -> (x <= inject_Z b)%Q ->
  a <= round_half_even x <= b.
Proof.
  intros Ha Hb.
  assert (Hfa : a <= Qfloor x).
  { rewrite <- (Qfloor_Z a). apply Qfloor_resp_le. exact Ha. }
  assert (Hfb : Qfloor x <= b).
  { rewrite <- (Qfloor_Z b). apply Qfloor_resp_le. exact Hb. }
  destruct (round_half_even_cases x) as [[-> H]|[-> H]]; [lia|].
  split; [lia|].
  assert (Hlt : (inject_Z (Qfloor x) < inject_Z b)%Q).
  { generalize dependent (inject_Z (Qfloor x)). generalize dependent (inject_Z b).
    intros. lra. }
  rewrite <- Zlt_Qlt in Hlt. lia.
Qed.

Lemma round_half_even_integer (k : Z) x :
  (x == inject_Z k)%Q -> round_half_even x = k.
Proof.
  intros E.
  assert (Hf : Qfloor x = k) by (rewrite (Qfloor_comp _ _ E); apply Qfloor_Z).
  destruct (round_half_even_cases x) as [[-> _]|[_ H]]; [exact Hf|].
  exfalso. rewrite Hf, E in H. revert H. generalize (inject_Z k). intros. lra.
Qed.

(** Writing an angle to a register and reading the register back gives
    the angle within 0.05 degrees, and exactly when the angle is a whole
    number of tenths; so the tolerance tests of the script (0.1 degrees
    for the leaf, 5 degrees for the lock) accept a device that returns
    the setpoint it was given. *)
Theorem register_round_trip angle :
  (Qabs (register_angle (angle_reg angle) - angle) <= 0.05)%Q /\
  (forall k, (angle * 10 == inject_Z k)%Q ->
     angle_reg angle = k /\ (register_angle (angle_reg angle) == angle)%Q) /\
  Qle_bool (Qabs (register_angle (angle_reg angle) - angle)) 0.1 = true /\
  Qle_bool (Qabs (register_angle (angle_reg angle) - angle)) 5 = true.
Proof.
  assert (Hnear : (Qabs (register_angle (angle_reg angle) - angle) <= 0.05)%Q).
  { unfold register_angle, angle_reg.
    pose proof (round_half_even_near (angle * 10)) as H.
    apply Qabs_Qle_condition in H. apply Qabs_Qle_condition.
    setoid_replace (inject_Z (round_half_even (angle * 10)) / 10)%Q
      with (inject_Z (round_half_even (angle * 10)) * (1 # 10))%Q by field.
    generalize dependent (inject_Z (round_half_even (angle * 10))).
    intros r H. split; lra. }
  split; [exact Hnear|]. split; [|split].
  - intros k E. unfold register_angle, angle_reg.
    rewrite (round_half_even_integer k _ E).
    split; [reflexivity|]. rewrite <- E. field.
  - apply Qle_bool_iff. eapply Qle_trans; [exact Hnear | discriminate].
  - apply Qle_bool_iff. eapply Qle_trans; [exact Hnear | discriminate].
Qed.

End EncodingFacts.

(** ** The end of the polling loop *)

Section PollingFacts.
Import CatWindow.

(** Once the loop has a result, more iterations allowed change nothing. *)
Lemma poll_fuel_irrelevant dev angle start_time :
  forall fuel l b k,
  fst (poll dev fuel angle start_time l) = Some b ->
  poll dev (fuel + k) angle start_time l = poll dev fuel angle start_time l.
Proof.
  induction fuel as [|fuel IH]; intros l b k Hb.
  - discriminate Hb.
  - change (S fuel + k)%nat with (S (fuel + k)).
    rewrite poll_step in Hb. rewrite !poll_step.
    destruct (WindowCtl.Qlt_bool timeout (time_at dev (clock_reads l) - start_time));
      [reflexivity|].
    cbv zeta in *.
    destruct (on_read dev (events l) 1) as [r0| |].
    + destruct (Qle_bool (Qabs (register_angle r0 - angle)) 0.1); [reflexivity|].
      eapply IH. exact Hb.
    + eapply IH. exact Hb.
    + eapply IH. exact Hb.
Qed.

(** If the [n]-th clock reading from now lies past the time limit, the
    loop ends within [n] register readings. *)
Lemma poll_ends dev angle start_time :
  forall n l,
  WindowCtl.Qlt_bool timeout (time_at dev (clock_reads l + n) - start_time) = true ->
  exists b reads,
    fst (poll dev (S n) angle start_time l) = Some b /\
    events (snd (poll dev (S n) angle start_time l)) = events l ++ reads /\
    (List.length reads <= n)%nat.
Proof.
  induction n as [|n IH]; intros l Hn; rewrite poll_step.
  - rewrite Nat.add_0_r in Hn. rewrite Hn.
    exists false, []. cbn [fst snd events]. rewrite app_nil_r.
    repeat split. apply le_n.
  - destruct (WindowCtl.Qlt_bool timeout (time_at dev (clock_reads l) - start_time)).
    { exists false, []. cbn [fst snd events]. rewrite app_nil_r.
      repeat split. apply Nat.le_0_l. }
    cbv zeta.
    set (reply := on_read dev (events l) 1).
    set (l1 := mkLine (events l ++ [Read 1 reply]) (S (clock_reads l))).
    assert (Hrec : exists b reads,
      fst (poll dev (S n) angle start_time l1) = Some b /\
      events (snd (poll dev (S n) angle start_time l1)) = events l ++ reads /\
      (List.length reads <= S n)%nat).
    { destruct (IH l1) as (b & reads & Hb & He & Hl).
      - subst l1. cbn [clock_reads]. rewrite Nat.add_succ_comm. exact Hn.
      - exists b, (Read 1 reply :: reads). split; [exact Hb|]. split.
        + rewrite He. subst l1. cbn [events]. rewrite <- app_assoc. reflexivity.
        + cbn [List.length]. apply le_n_S. exact Hl. }
    destruct reply as [r0| |]; try exact Hrec.
    destruct (Qle_bool (Qabs (register_angle r0 - angle)) 0.1); [|exact Hrec].
    exists true, [Read 1 (ReadRegisters r0)]. subst l1. cbn [fst snd events].
    repeat split. cbn. apply le_n_S. apply Nat.le_0_l.
Qed.

Lemma poll_any_fuel dev angle start_time n l fuel :
  WindowCtl.Qlt_bool timeout (time_at dev (clock_reads l + n) - start_time) = true ->
  (n < fuel)%nat ->
  poll dev fuel angle start_time l = poll dev (S n) angle start_time l.
Proof.
  intros Hn Hlt.
  destruct (poll_ends dev angle start_time n l Hn) as (b & _ & Hb & _).
  replace fuel with (S n + (fuel - S n))%nat by lia.
  eapply poll_fuel_irrelevant. exact Hb.
Qed.

(** If the clock passes the thirty-second limit by its [n]-th reading
    after the setpoint was written, [set_window_angle] returns after at
    most [n] readings of the position register, and so do [open_window]
    and [close_window]; the result does not depend on how many iterations
    the model allows beyond [n]. *)
Theorem polling_ends dev angle l n fuel :
  WindowCtl.Qlt_bool timeout
    (time_at dev (S (clock_reads l) + n) - time_at dev (clock_reads l)) = true ->
  (n < fuel)%nat ->
  (exists b rep reads,
     fst (set_window_angle dev fuel angle l) = Some b /\
     events (snd (set_window_angle dev fuel angle l))
       = events l ++ Write 0 (angle_reg angle) rep :: reads /\
     (List.length reads <= n)%nat) /\
  set_window_angle dev fuel angle l = set_window_angle dev (S n) angle l /\
  fst (open_window dev fuel l) <> None /\
  fst (close_window dev fuel l) <> None.
Proof.
  intros Hn Hlt.
  assert (Hswa : forall a l',
    clock_reads l' = clock_reads l ->
    (exists b rep reads,
       fst (set_window_angle dev fuel a l') = Some b /\
       events (snd (set_window_angle dev fuel a l'))
         = events l' ++ Write 0 (angle_reg a) rep :: reads /\
       (List.length reads <= n)%nat) /\
    set_window_angle dev fuel a l' = set_window_angle dev (S n) a l').
  { intros a l' Hc. unfold set_window_angle, bind.
    cbn [write_register fst snd].
    set (rep := on_write dev (events l') 0 (angle_reg a)).
    destruct rep eqn:Er.
    - cbn [time fst snd events clock_reads].
      set (l1 := mkLine (events l' ++ [Write 0 (angle_reg a) WriteAck])
                   (S (clock_reads l'))).
      assert (Hn1 : WindowCtl.Qlt_bool timeout
                (time_at dev (clock_reads l1 + n) - time_at dev (clock_reads l')) = true).
      { subst l1. cbn [clock_reads]. rewrite Hc. exact Hn. }
      rewrite (poll_any_fuel dev a _ n l1 fuel Hn1 Hlt).
      destruct (poll_ends dev a (time_at dev (clock_reads l')) n l1 Hn1)
        as (b & reads & Hb & He & Hl).
      split; [|reflexivity].
      exists b, WriteAck, reads. split; [exact Hb|]. split; [|exact Hl].
      rewrite He. subst l1. cbn [events]. rewrite <- app_assoc. reflexivity.
    - split; [|reflexivity].
      exists false, WriteNone, []. cbn. repeat split. apply Nat.le_0_l.
    - split; [|reflexivity].
      exists false, WriteRaise, []. cbn. repeat split. apply Nat.le_0_l. }
  split; [apply (Hswa angle l eq_refl)|]. split; [apply (Hswa angle l eq_refl)|].
  split.
  - unfold open_window, bind.
    destruct (fst (unlock_window dev l)); cbn [negb]; [|discriminate].
    assert (Hc : clock_reads (snd (unlock_window dev l)) = clock_reads l).
    { unfold unlock_window, set_lock_angle, bind, write_register,
        read_holding_registers, sleep, ret. cbn [fst snd].
      destruct (on_write dev (events l) 2 (angle_reg 90)); cbn [fst snd clock_reads];
        try reflexivity.
      destruct (on_read dev _ 3); reflexivity. }
    destruct (Hswa 120%Q (snd (unlock_window dev l)) Hc) as [(b & _ & _ & Hb & _) _].
    rewrite Hb. destruct b; discriminate.
  - unfold close_window, bind.
    destruct (Hswa 77%Q l eq_refl) as [(b & _ & _ & Hb & _) _].
    rewrite Hb. destruct b; [|discriminate].
    unfold sleep, ret. cbn [fst snd].
    destruct (fst (lock_window dev (snd (set_window_angle dev fuel 77 l))));
      discriminate.
Qed.

Lemma polling_ends_witness :
  let dev := mkDevice (fun _ _ _ => WriteAck) (fun _ _ => ReadRegisters 900)
               (fun n => inject_Z (Z.of_nat n)) in
  WindowCtl.Qlt_bool timeout
    (time_at dev (S (clock_reads fresh) + 30) - time_at dev (clock_reads fresh)) = true /\
  (30 < 40)%nat /\
  set_window_angle dev 40 77 fresh = set_window_angle dev 31 77 fresh /\
  fst (close_window dev 40 fresh) <> None.
Proof.
  cbv zeta. split; [reflexivity|]. split; [lia|].
  destruct (polling_ends
              (mkDevice (fun _ _ _ => WriteAck) (fun _ _ => ReadRegisters 900)
                 (fun n => inject_Z (Z.of_nat n)))
              77 fresh 30 40 eq_refl) as (_ & H2 & _ & H4); [lia|].
  split; [exact H2 | exact H4].
Defined.

End PollingFacts.

(** ** Connecting to the serial port *)

Section ConnectFacts.
Import Script.

Lemma connects_app a b : connects (a ++ b) = (connects a + connects b)%nat.
Proof. unfold connects. rewrite filter_app, length_app. reflexivity. Qed.

Lemma resets_app a b : resets (a ++ b) = (resets a + resets b)%nat.
Proof. unfold resets. rewrite filter_app, length_app. reflexivity. Qed.

Lemma half_succ_odd a : (a mod 2 = 1 -> S a / 2 = S (a / 2))%nat.
Proof.
  intros H. pose proof (Nat.div_mod_eq a 2). pose proof (Nat.div_mod_eq (S a) 2).
  pose proof (Nat.mod_upper_bound (S a) 2). lia.
Qed.

Lemma half_succ_even a : (a mod 2 <> 1 -> S a / 2 = a / 2)%nat.
Proof.
  intros H. pose proof (Nat.div_mod_eq a 2). pose proof (Nat.div_mod_eq (S a) 2).
  pose proof (Nat.mod_upper_bound (S a) 2). pose proof (Nat.mod_upper_bound a 2). lia.
Qed.

Lemma half_succ_le a : (a / 2 <= S a / 2)%nat.
Proof.
  destruct (Nat.eq_dec (a mod 2) 1) as [H|H];
    [rewrite (half_succ_odd a H) | rewrite (half_succ_even a H)]; lia.
Qed.

Lemma attempts_spec outcome max_retries retry_delay :
  forall remaining attempt,
  let r := attempts outcome max_retries retry_delay attempt remaining in
  (resets (snd r) = (attempt + connects (snd r)) / 2 - attempt / 2)%nat /\
  match fst r with
  | Some k =>
      (attempt <= k < attempt + remaining)%nat /\
      outcome k = Connected /\
      (forall j, (attempt <= j < k)%nat -> outcome j <> Connected) /\
      connects (snd r) = (k - attempt + 1)%nat
  | None =>
      (forall j, (attempt <= j < attempt + remaining)%nat -> outcome j <> Connected) /\
      connects (snd r) = remaining
  end.
Proof.
  induction remaining as [|remaining IH]; intros attempt; cbn [attempts].
  - cbn. split; [rewrite Nat.add_0_r; lia|]. split; [intros j Hj; lia | reflexivity].
  - set (prelude := if (0 <? attempt)%nat
                    then [KillPort; Sleep 0.5]
                         ++ (if (attempt mod 2 =? 1)%nat then [UsbReset] else [])
                    else []).
    assert (Hpc : connects prelude = 0%nat).
    { subst prelude. destruct (0 <? attempt)%nat; [|reflexivity].
      destruct (attempt mod 2 =? 1)%nat; reflexivity. }
    assert (Hpr : resets prelude = (S attempt / 2 - attempt / 2)%nat).
    { subst prelude. destruct (Nat.ltb_spec 0 attempt) as [Hpos|Hzero].
      - destruct (Nat.eqb_spec (attempt mod 2) 1) as [Hodd|Heven].
        + rewrite (half_succ_odd attempt Hodd).
          change (resets ([KillPort; Sleep 0.5] ++ [UsbReset])) with 1%nat. lia.
        + rewrite (half_succ_even attempt Heven).
          change (resets ([KillPort; Sleep 0.5] ++ [])) with 0%nat. lia.
      - assert (attempt = 0)%nat by lia. subst attempt. reflexivity. }
    assert (Hmono : forall a b, (a / 2 <= (a + b) / 2)%nat).
    { intros a b. apply Nat.Div0.div_le_mono. lia. }
    specialize (IH (S attempt)). cbv zeta in IH. destruct IH as [IHr IHk].
    destruct (outcome attempt) eqn:Eo.
    + cbn [fst snd]. split.
      * rewrite resets_app, connects_app, Hpc, Hpr.
        change (resets [Connect]) with 0%nat. change (connects [Connect]) with 1%nat.
        replace (attempt + (0 + 1))%nat with (S attempt) by lia. lia.
      * split; [lia|]. split; [exact Eo|]. split; [intros j Hj; lia|].
        rewrite connects_app, Hpc. change (connects [Connect]) with 1%nat. lia.
    + cbn [fst snd].
      set (pause := if (attempt <? max_retries - 1)%nat then [Sleep retry_delay] else []).
      assert (Hqc : connects pause = 0%nat) by (subst pause; destruct (attempt <? max_retries - 1)%nat; reflexivity).
      assert (Hqr : resets pause = 0%nat) by (subst pause; destruct (attempt <? max_retries - 1)%nat; reflexivity).
      assert (Hc : connects (prelude ++ [Connect] ++ pause
                      ++ snd (attempts outcome max_retries retry_delay (S attempt) remaining))
                   = S (connects (snd (attempts outcome max_retries retry_delay
                                         (S attempt) remaining)))).
      { rewrite !connects_app, Hpc, Hqc. reflexivity. }
      split.
      * rewrite Hc, !resets_app, Hpr, Hqr, IHr.
        change (resets [Connect]) with 0%nat.
        pose proof (Hmono (S attempt)
                      (connects (snd (attempts outcome max_retries retry_delay
                                        (S attempt) remaining)))).
        pose proof (half_succ_le attempt).
        replace (attempt + S (connects (snd (attempts outcome max_retries retry_delay
                                               (S attempt) remaining))))%nat
          with (S attempt + connects (snd (attempts outcome max_retries retry_delay
                                             (S attempt) remaining)))%nat by lia.
        lia.
      * destruct (fst (attempts outcome max_retries retry_delay (S attempt) remaining))
          as [k|].
        -- destruct IHk as (Hk & Hok & Hbefore & Hn).
           split; [lia|]. split; [exact Hok|]. split.
           ++ intros j Hj. destruct (Nat.eq_dec j attempt) as [->|Hne];
                [rewrite Eo; discriminate | apply Hbefore; lia].
           ++ rewrite Hc, Hn. lia.
        -- destruct IHk as (Hall & Hn). split.
           ++ intros j Hj. destruct (Nat.eq_dec j attempt) as [->|Hne];
                [rewrite Eo; discriminate | apply Hall; lia].
           ++ rewrite Hc, Hn. reflexivity.
    + cbn [fst snd].
      set (pause := if (attempt <? max_retries - 1)%nat then [Sleep retry_delay] else []).
      assert (Hqc : connects pause = 0%nat) by (subst pause; destruct (attempt <? max_retries - 1)%nat; reflexivity).
      assert (Hqr : resets pause = 0%nat) by (subst pause; destruct (attempt <? max_retries - 1)%nat; reflexivity).
      assert (Hc : connects (prelude ++ [Connect] ++ pause
                      ++ snd (attempts outcome max_retries retry_delay (S attempt) remaining))
                   = S (connects (snd (attempts outcome max_retries retry_delay
                                         (S attempt) remaining)))).
      { rewrite !connects_app, Hpc, Hqc. reflexivity. }
      split.
      * rewrite Hc, !resets_app, Hpr, Hqr, IHr.
        change (resets [Connect]) with 0%nat.
        pose proof (Hmono (S attempt)
                      (connects (snd (attempts outcome max_retries retry_delay
                                        (S attempt) remaining)))).
        pose proof (half_succ_le attempt).
        replace (attempt + S (connects (snd (attempts outcome max_retries retry_delay
                                               (S attempt) remaining))))%nat
          with (S attempt + connects (snd (attempts outcome max_retries retry_delay
                                             (S attempt) remaining)))%nat by lia.
        lia.
      * destruct (fst (attempts outcome max_retries retry_delay (S attempt) remaining))
          as [k|].
        -- destruct IHk as (Hk & Hok & Hbefore & Hn).
           split; [lia|]. split; [exact Hok|]. split.
           ++ intros j Hj. destruct (Nat.eq_dec j attempt) as [->|Hne];
                [rewrite Eo; discriminate | apply Hbefore; lia].
           ++ rewrite Hc, Hn. lia.
        -- destruct IHk as (Hall & Hn). split.
           ++ intros j Hj. destruct (Nat.eq_dec j attempt) as [->|Hne];
                [rewrite Eo; discriminate | apply Hall; lia].
           ++ rewrite Hc, Hn. reflexivity.
Qed.

(** [connect_with_retry] makes at most [max_retries] connection attempts
    and stops at the first that connects; it gives up exactly when the
    first [max_retries] attempts all fail, having made them all; and it
    resets the USB port before every second attempt (the second, the
    fourth, ...), that is once for every two attempts made. *)
Theorem connect_attempts_bounded outcome max_retries retry_delay :
  let r := connect_with_retry outcome max_retries retry_delay in
  (connects (snd r) <= max_retries)%nat /\
  resets (snd r) = (connects (snd r) / 2)%nat /\
  match fst r with
  | Some k =>
      (k < max_retries)%nat /\ outcome k = Connected /\
      (forall j, (j < k)%nat -> outcome j <> Connected) /\
      connects (snd r) = S k
  | None =>
      (forall j, (j < max_retries)%nat -> outcome j <> Connected) /\
      connects (snd r) = max_retries
  end.
Proof.
  cbv zeta. unfold connect_with_retry.
  pose proof (attempts_spec outcome max_retries retry_delay max_retries 0%nat) as H.
  cbv zeta in H. destruct H as [Hr Hk].
  destruct (fst (attempts outcome max_retries retry_delay 0 max_retries)) as [k|].
  - destruct Hk as (Hb & Hok & Hbefore & Hn).
    split; [lia|]. split; [rewrite Hr, Nat.add_0_l; change (0 / 2)%nat with 0%nat; lia|].
    split; [lia|]. split; [exact Hok|]. split; [intros j Hj; apply Hbefore; lia | lia].
  - destruct Hk as (Hall & Hn).
    split; [lia|]. split; [rewrite Hr, Nat.add_0_l; change (0 / 2)%nat with 0%nat; lia|].
    split; [intros j Hj; apply Hall; lia | exact Hn].
Qed.

(** Three refusals and then a connection: four attempts, the USB port
    reset before the second and the fourth. *)
Example connect_on_fourth_attempt :
  connect_with_retry (fun k => if (k <? 3)%nat then Refused else Connected) 5 2
  = (Some 3%nat,
     [Connect; Sleep 2;
      KillPort; Sleep 0.5; UsbReset; Connect; Sleep 2;
      KillPort; Sleep 0.5; Connect; Sleep 2;
      KillPort; Sleep 0.5; UsbReset; Connect]).
Proof. reflexivity. Qed.

End ConnectFacts.

(** ** The command line of the script *)

Section ScriptFacts.
Import CatWindow Script.

Lemma reads_in_range reads :
  Forall (fun e => is_read e = true) reads -> Forall setpoint_in_range reads.
Proof.
  apply Forall_impl. intros [a v rep|a rep] H; [discriminate H | exact I].
Qed.

Lemma status_of_bind {A} (m : IO A) (f : A -> option Z) l :
  (x <- m ;; ret (f x)) l = (f (fst (m l)), snd (m l)).
Proof. reflexivity. Qed.

Lemma status_zero ok : status ok = Some 0 -> ok = Some true.
Proof. destruct ok as [[]|]; [reflexivity | discriminate | discriminate]. Qed.

Lemma careful_refusal l : careful (ret (Some 1)) l.
Proof.
  exists []. cbn. rewrite app_nil_r. split; [reflexivity|].
  split; [constructor | discriminate].
Qed.

Lemma careful_leaf dev fuel angle l :
  770 <= angle_reg angle <= 1350 ->
  careful (ok <- set_window_angle dev fuel angle ;; ret (status ok)) l.
Proof.
  intros Hr. unfold careful. rewrite status_of_bind. cbn [fst snd].
  destruct (set_window_angle_trace dev fuel angle l) as (rep & reads & E & Hreads & Hok).
  exists (Write 0 (angle_reg angle) rep :: reads). split; [exact E|]. split.
  - constructor; [left; split; [reflexivity | exact Hr] | apply reads_in_range; exact Hreads].
  - intros Hs. apply status_zero in Hs.
    destruct (Hok Hs) as (_ & polls & r0 & -> & _ & _).
    exists (Write 0 (angle_reg angle) rep :: polls), 1, r0. reflexivity.
Qed.

Lemma careful_lock dev angle l :
  0 <= angle_reg angle <= 900 ->
  careful (ok <- set_lock_angle dev angle ;; ret (status (Some ok))) l.
Proof.
  intros Hr. unfold careful. rewrite status_of_bind. cbn [fst snd].
  destruct (set_lock_angle_trace dev angle l) as (rep & reads & E & Hreads & Hok).
  exists (Write 2 (angle_reg angle) rep :: reads). split; [exact E|]. split.
  - constructor; [right; split; [reflexivity | exact Hr] | apply reads_in_range; exact Hreads].
  - intros Hs. apply status_zero in Hs. injection Hs as Hs.
    destruct (Hok Hs) as (_ & r0 & -> & _).
    exists [Write 2 (angle_reg angle) rep], 3, r0. reflexivity.
Qed.

Lemma open_window_success dev fuel l :
  fst (open_window dev fuel l) = Some true ->
  fst (unlock_window dev l) = true /\
  fst (set_window_angle dev fuel 120 (snd (unlock_window dev l))) = Some true.
Proof.
  unfold open_window, bind.
  destruct (fst (unlock_window dev l)); cbn [negb]; [|discriminate].
  destruct (fst (set_window_angle dev fuel 120 (snd (unlock_window dev l))))
    as [[]|]; try discriminate.
  intros _. split; reflexivity.
Qed.

Lemma close_window_success dev fuel l :
  fst (close_window dev fuel l) = Some true ->
  fst (set_window_angle dev fuel 77 l) = Some true /\
  fst (lock_window dev (snd (set_window_angle dev fuel 77 l))) = true.
Proof.
  unfold close_window, bind.
  destruct (fst (set_window_angle dev fuel 77 l)) as [[]|]; try discriminate.
  unfold sleep, ret. cbn [fst snd].
  destruct (fst (lock_window dev (snd (set_window_angle dev fuel 77 l))));
    [|discriminate].
  intros _. split; reflexivity.
Qed.

Lemma careful_open dev fuel l :
  careful (ok <- open_window dev fuel ;; ret (status ok)) l.
Proof.
  unfold careful. rewrite status_of_bind. cbn [fst snd].
  rewrite open_window_line. unfold unlock_window.
  destruct (set_lock_angle_trace dev 90 l) as (rep & reads & E & Hreads & Hok).
  change (angle_reg 90) with 900 in E.
  assert (Hlock : Forall setpoint_in_range (Write 2 900 rep :: reads)).
  { constructor; [right; split; [reflexivity | lia] | apply reads_in_range; exact Hreads]. }
  destruct (fst (set_lock_angle dev 90 l)) eqn:Hu.
  - destruct (set_window_angle_trace dev fuel 120 (snd (set_lock_angle dev 90 l)))
      as (rep' & reads' & E' & Hreads' & Hok').
    change (angle_reg 120) with 1200 in E'.
    exists ((Write 2 900 rep :: reads) ++ Write 0 1200 rep' :: reads').
    split; [rewrite E', E, <- app_assoc; reflexivity|]. split.
    + apply Forall_app. split; [exact Hlock|].
      constructor; [left; split; [reflexivity | lia] | apply reads_in_range; exact Hreads'].
    + intros Hs. apply status_zero, open_window_success in Hs. destruct Hs as [_ Hs].
      destruct (Hok' Hs) as (_ & polls & r0 & -> & _ & _).
      exists ((Write 2 900 rep :: reads) ++ Write 0 1200 rep' :: polls), 1, r0.
      rewrite <- !app_assoc. reflexivity.
  - exists (Write 2 900 rep :: reads). split; [exact E|]. split; [exact Hlock|].
    intros Hs. apply status_zero, open_window_success in Hs.
    unfold unlock_window in Hs. destruct Hs as [Hs _]. congruence.
Qed.

Lemma careful_close dev fuel l :
  careful (ok <- close_window dev fuel ;; ret (status ok)) l.
Proof.
  unfold careful. rewrite status_of_bind. cbn [fst snd].
  rewrite close_window_line. unfold lock_window.
  destruct (set_window_angle_trace dev fuel 77 l) as (rep & reads & E & Hreads & Hok).
  change (angle_reg 77) with 770 in E.
  assert (Hleaf : Forall setpoint_in_range (Write 0 770 rep :: reads)).
  { constructor; [left; split; [reflexivity | lia] | apply reads_in_range; exact Hreads]. }
  assert (Hfail : fst (set_window_angle dev fuel 77 l) <> Some true ->
    status (fst (close_window dev fuel l)) = Some 0 -> ends_with_reading (Write 0 770 rep :: reads)).
  { intros Hne Hs. apply status_zero, close_window_success in Hs.
    destruct Hs as [Hs _]. contradiction. }
  destruct (fst (set_window_angle dev fuel 77 l)) as [[]|] eqn:Hm.
  - destruct (set_lock_angle_trace dev 0 (snd (set_window_angle dev fuel 77 l)))
      as (rep' & reads' & E' & Hreads' & Hok').
    change (angle_reg 0) with 0 in E'.
    exists ((Write 0 770 rep :: reads) ++ Write 2 0 rep' :: reads').
    split; [rewrite E', E, <- app_assoc; reflexivity|]. split.
    + apply Forall_app. split; [exact Hleaf|].
      constructor; [right; split; [reflexivity | lia] | apply reads_in_range; exact Hreads'].
    + intros Hs. apply status_zero, close_window_success in Hs. destruct Hs as [_ Hs].
      unfold lock_window in Hs.
      destruct (Hok' Hs) as (_ & r0 & -> & _).
      exists ((Write 0 770 rep :: reads) ++ [Write 2 0 rep']), 3, r0.
      rewrite <- !app_assoc. reflexivity.
  - exists (Write 0 770 rep :: reads). split; [exact E|]. split; [exact Hleaf|].
    apply Hfail. discriminate.
  - exists (Write 0 770 rep :: reads). split; [exact E|]. split; [exact Hleaf|].
    apply Hfail. discriminate.
Qed.

Lemma angle_reg_between (a b : Z) angle :
  Qle_bool (inject_Z a) angle && Qle_bool angle (inject_Z b) = true ->
  a * 10 <= angle_reg angle <= b * 10.
Proof.
  intros H. apply andb_prop in H. destruct H as [Ha Hb].
  apply Qle_bool_iff in Ha. apply Qle_bool_iff in Hb.
  unfold angle_reg. apply round_half_even_between.
  - rewrite inject_Z_mult. change (inject_Z 10) with 10%Q.
    revert Ha. generalize (inject_Z a). intros. lra.
  - rewrite inject_Z_mult. change (inject_Z 10) with 10%Q.
    revert Hb. generalize (inject_Z b). intros. lra.
Qed.

Lemma careful_dispatch parse_float dev fuel comando argv l :
  careful (dispatch parse_float dev fuel comando argv) l.
Proof.
  unfold dispatch.
  destruct (String.eqb comando "finestra" && (List.length argv =? 3)%nat).
  { destruct (parse_float (nth 2 argv ""%string)) as [angle|]; [|apply careful_refusal].
    destruct (Qle_bool 77 angle && Qle_bool angle 135) eqn:Hr; cbn [negb];
      [|apply careful_refusal].
    apply careful_leaf. apply (angle_reg_between 77 135). exact Hr. }
  destruct (String.eqb comando "serratura" && (List.length argv =? 3)%nat).
  { destruct (parse_float (nth 2 argv ""%string)) as [angle|]; [|apply careful_refusal].
    destruct (Qle_bool 0 angle && Qle_bool angle 90) eqn:Hr; cbn [negb];
      [|apply careful_refusal].
    apply careful_lock. apply (angle_reg_between 0 90). exact Hr. }
  destruct (String.eqb comando "apri"); [apply careful_open|].
  destruct (String.eqb comando "chiudi"); [apply careful_close|].
  destruct (String.eqb comando "sblocca").
  { apply (careful_lock dev 90). change (angle_reg 90) with 900. lia. }
  destruct (String.eqb comando "blocca").
  { apply (careful_lock dev 0). change (angle_reg 0) with 0. lia. }
  apply careful_refusal.
Qed.

(** Whatever the arguments, the connection attempts and the answers of
    the device, a run of the script only adds transactions to the line;
    every setpoint it writes is a leaf angle between 77 and 135 degrees
    on register 0 or a lock angle between 0 and 90 degrees on register 2;
    it ends with status 0 only when its last transaction is a register
    reading; and without a command or without a connection it ends with
    status 1 and no transaction at all. *)
Theorem script_is_careful parse_float outcome dev fuel argv l :
  let r := main parse_float outcome dev fuel argv l in
  exists sent,
    events (line r) = events l ++ sent /\
    Forall setpoint_in_range sent /\
    (exit_status r = Some 0 -> ends_with_reading sent) /\
    ((List.length argv < 2)%nat \/ fst (connect_with_retry outcome 5 2) = None ->
     exit_status r = Some 1 /\ sent = []).
Proof.
  cbv zeta. unfold main.
  destruct (Nat.ltb_spec (List.length argv) 2) as [Hshort|Hlong].
  { exists []. cbn [line exit_status]. rewrite app_nil_r.
    split; [reflexivity|]. split; [constructor|]. split; [discriminate|].
    intros _. split; reflexivity. }
  destruct (fst (connect_with_retry outcome 5 2)) as [k|] eqn:Hc.
  - destruct (careful_dispatch parse_float dev fuel
                (lower (nth 1 argv ""%string)) argv l) as (sent & E & Hr & Hz).
    exists sent. cbn [line exit_status].
    split; [exact E|]. split; [exact Hr|]. split; [exact Hz|].
    intros [H|H]; [lia | discriminate H].
  - exists []. cbn [line exit_status]. rewrite app_nil_r.
    split; [reflexivity|]. split; [constructor|]. split; [discriminate|].
    intros _. split; reflexivity.
Qed.

(** A leaf angle within the range of the script. *)
Example script_moves_leaf :
  let r := main parse_whole (fun _ => Connected) obedient 5
             ["cat_window.py"; "FINESTRA"; "100"]%string fresh in
  exit_status r = Some 0 /\
  host r = [Connect; Close] /\
  events (line r) = [Write 0 1000 WriteAck; Read 1 (ReadRegisters 1000)].
Proof. vm_compute. repeat split. Qed.

(** A leaf angle outside it, and a command with a missing argument. *)
Example script_refuses :
  let far := main parse_whole (fun _ => Connected) obedient 5
               ["cat_window.py"; "finestra"; "200"]%string fresh in
  let bare := main parse_whole (fun _ => Connected) obedient 5
                ["cat_window.py"; "finestra"]%string fresh in
  exit_status far = Some 1 /\ events (line far) = [] /\
  exit_status bare = Some 1 /\ events (line bare) = [].
Proof. vm_compute. repeat split. Qed.

End ScriptFacts.

(** ** Absence and manual mode *)

Section AbsenceFacts.
Import WindowCtl Session Vocabulary Runs.

Lemma closes_cons v vs :
  closes (v :: vs)
  = ((match Detector.window_change v with Some false => 1 | _ => 0 end) + closes vs)%nat.
Proof.
  unfold closes. cbn [filter].
  destruct (Detector.window_change v) as [[]|]; reflexivity.
Qed.

(** An absent tick on a closed window in automatic mode does nothing
    beyond clearing the presence timer. *)
Lemma absent_tick_while_closed cfg self t t0 :
  absent_tick t ->
  manual_mode (Detector.window_controller self) = false ->
  is_window_open (Detector.window_controller self) = false ->
  Detector.current_no_detection_time self = Some t0 ->
  step cfg self (Frame t)
  = Detector.mkVerdict (waiting t0 (Detector.window_controller self) self) [] None.
Proof.
  intros Hp Hm Ho Hd. cbn [step]. unfold Detector.process_cat_detection.
  rewrite Hp, Hd. unfold auto_control_enabled. rewrite Hm. cbn [negb].
  destruct (Detector.required_no_detection_time cfg <=? tick_time t - t0);
    [|reflexivity].
  unfold set_window_position.
  destruct (cooldown_active (Detector.window_controller self) (tick_ctl_time t));
    [reflexivity|].
  cbn [enter_manual negb]. rewrite Ho. reflexivity.
Qed.

(** An absent tick on an open window in automatic mode: nothing, a
    failed attempt, or the closing. *)
Lemma absent_tick_while_open cfg self t t0 :
  absent_tick t ->
  manual_mode (Detector.window_controller self) = false ->
  is_window_open (Detector.window_controller self) = true ->
  Detector.current_no_detection_time self = Some t0 ->
  let w := Detector.window_controller self in
  step cfg self (Frame t)
  = if close_due cfg w t0 t
    then if tick_exec t Chiudi
         then Detector.mkVerdict (waiting t0 (closed_at (tick_ctl_time t) w) self)
                [Chiudi] (Some false)
         else Detector.mkVerdict (waiting t0 w self) [Chiudi] None
    else Detector.mkVerdict (waiting t0 w self) [] None.
Proof.
  intros Hp Hm Ho Hd. cbn [step]. unfold Detector.process_cat_detection, close_due.
  rewrite Hp, Hd. unfold auto_control_enabled. rewrite Hm. cbn [negb].
  destruct (Detector.required_no_detection_time cfg <=? tick_time t - t0);
    cbn [andb]; [|reflexivity].
  unfold set_window_position.
  destruct (cooldown_active (Detector.window_controller self) (tick_ctl_time t));
    cbn [negb]; [reflexivity|].
  cbn [enter_manual negb]. rewrite Ho. cbn [Bool.eqb andb].
  destruct (tick_exec t Chiudi); reflexivity.
Qed.

Lemma absent_run_while_closed cfg t0 :
  forall ticks self,
  Forall absent_tick ticks ->
  manual_mode (Detector.window_controller self) = false ->
  is_window_open (Detector.window_controller self) = false ->
  Detector.current_no_detection_time self = Some t0 ->
  let vs := run cfg self (map Frame ticks) in
  Forall (fun v => Detector.current_no_detection_time (Detector.app_after v) = Some t0) vs /\
  closes vs = 0%nat /\ sent vs = [].
Proof.
  induction ticks as [|t ticks IH]; intros self Hp Hm Ho Hd; cbn [map run].
  - repeat split. constructor.
  - inversion Hp as [|? ? Hp1 Hp2]; subst.
    rewrite (absent_tick_while_closed cfg self t t0 Hp1 Hm Ho Hd). cbn [Detector.app_after].
    destruct (IH (waiting t0 (Detector.window_controller self) self) Hp2 Hm Ho eq_refl)
      as (Hf & Hn & Hs).
    split; [constructor; [reflexivity | exact Hf]|].
    rewrite closes_cons, sent_cons, Hn, Hs. split; reflexivity.
Qed.

Lemma absent_run_while_open cfg t0 :
  forall ticks self,
  Forall absent_tick ticks ->
  manual_mode (Detector.window_controller self) = false ->
  is_window_open (Detector.window_controller self) = true ->
  Detector.current_no_detection_time self = Some t0 ->
  let w := Detector.window_controller self in
  let vs := run cfg self (map Frame ticks) in
  Forall (fun v => Detector.current_no_detection_time (Detector.app_after v) = Some t0) vs /\
  (closes vs <= 1)%nat /\
  Forall (eq Chiudi) (sent vs) /\
  (Forall (fun t => tick_exec t Chiudi = true) ticks ->
   closes vs = (if existsb (close_due cfg w t0) ticks then 1 else 0)%nat /\
   sent vs = (if existsb (close_due cfg w t0) ticks then [Chiudi] else [])).
Proof.
  induction ticks as [|t ticks IH]; intros self Hp Hm Ho Hd; cbn [map run existsb].
  - split; [constructor|]. split; [cbn; lia|]. split; [constructor|].
    intros _. split; reflexivity.
  - inversion Hp as [|? ? Hp1 Hp2]; subst.
    rewrite (absent_tick_while_open cfg self t t0 Hp1 Hm Ho Hd).
    destruct (close_due cfg (Detector.window_controller self) t0 t) eqn:Hdue;
      cbn [orb].
    + destruct (tick_exec t Chiudi) eqn:He; cbn [Detector.app_after];
        rewrite closes_cons, sent_cons; cbn [Detector.window_change Detector.commands].
      * destruct (absent_run_while_closed cfg t0 ticks
                    (waiting t0 (closed_at (tick_ctl_time t) (Detector.window_controller self))
                       self) Hp2 Hm eq_refl eq_refl) as (Hf & Hn & Hs).
        rewrite Hn, Hs.
        split; [constructor; [reflexivity | exact Hf]|].
        split; [apply le_n|]. split; [repeat constructor|].
        intros _. split; reflexivity.
      * destruct (IH (waiting t0 (Detector.window_controller self) self) Hp2 Hm Ho eq_refl)
          as (Hf & Hn & Hs & _).
        split; [constructor; [reflexivity | exact Hf]|].
        split; [exact Hn|]. split; [constructor; [reflexivity | exact Hs]|].
        intros Hall. inversion Hall as [|? ? Hok _]. congruence.
    + cbn [Detector.app_after]. rewrite closes_cons, sent_cons.
      cbn [Detector.window_change Detector.commands].
      destruct (IH (waiting t0 (Detector.window_controller self) self) Hp2 Hm Ho eq_refl)
        as (Hf & Hn & Hs & Hex).
      split; [constructor; [reflexivity | exact Hf]|].
      split; [exact Hn|]. split; [exact Hs|].
      intros Hall. inversion Hall as [|? ? _ Hrest]. subst. apply Hex. exact Hrest.
Qed.

Lemma first_absent_tick_starts cfg self t :
  absent_tick t ->
  manual_mode (Detector.window_controller self) = false ->
  Detector.current_no_detection_time self = None ->
  step cfg self (Frame t) = step cfg (stopped_at (tick_time t) self) (Frame t).
Proof.
  intros Hp Hm Hd. cbn [step]. unfold Detector.process_cat_detection.
  rewrite Hp, Hd. cbn [stopped_at Detector.window_controller
    Detector.current_no_detection_time Detector.recent_detections].
  unfold auto_control_enabled. rewrite Hm. reflexivity.
Qed.

(** X8.  Over a run of frames with the cat absent throughout, with
    automatic control on and the window open at the start, the absence
    timer holds one value after every frame: the value it had at the
    start or, when it was not set, the time stamp of the first frame.
    The window is reported closed at most once and nothing but close
    commands reach the script.  When the script succeeds at every frame,
    the window is closed exactly once if some frame lies at least the
    required absence after that timer value and finds the controller, as
    it was at the start, out of its five-second cooldown, and not at all
    otherwise: a close that falls due during the cooldown of the opening
    is put off, not dropped. *)
Theorem absence_closes_once cfg self ticks t0 :
  Forall absent_tick ticks ->
  manual_mode (Detector.window_controller self) = false ->
  is_window_open (Detector.window_controller self) = true ->
  absence_start self ticks = Some t0 ->
  let w := Detector.window_controller self in
  let vs := run cfg self (map Frame ticks) in
  Forall (fun v => Detector.current_no_detection_time (Detector.app_after v) = Some t0) vs /\
  (closes vs <= 1)%nat /\
  Forall (eq Chiudi) (sent vs) /\
  (Forall (fun t => tick_exec t Chiudi = true) ticks ->
   closes vs = (if existsb (close_due cfg w t0) ticks then 1 else 0)%nat /\
   sent vs = (if existsb (close_due cfg w t0) ticks then [Chiudi] else [])).
Proof.
  intros Hp Hm Ho Hstart w vs. unfold absence_start in Hstart.
  destruct (Detector.current_no_detection_time self) as [t1|] eqn:Hd.
  - injection Hstart as ->.
    apply (absent_run_while_open cfg t0 ticks self Hp Hm Ho Hd).
  - destruct ticks as [|t ticks]; [discriminate Hstart|].
    cbn [first_time] in Hstart. injection Hstart as Ht0.
    assert (Hp1 : absent_tick t) by (inversion Hp; assumption).
    assert (Hrun : vs = run cfg (stopped_at t0 self) (map Frame (t :: ticks))).
    { unfold vs. cbn [map run].
      rewrite (first_absent_tick_starts cfg self t Hp1 Hm Hd), Ht0. reflexivity. }
    rewrite Hrun.
    apply (absent_run_while_open cfg t0 (t :: ticks) (stopped_at t0 self) Hp Hm Ho eq_refl).
Qed.

Lemma absence_closes_once_witness :
  let opened := Detector.mkApp (opened_at (seconds 100) WindowCtl.init)
                  (Some (seconds 90)) None [] in
  let ticks :=
    [mkTick false (seconds 101) (seconds 101) (fun _ => true);
     mkTick false (seconds 104) (seconds 104) (fun _ => true);
     mkTick false (seconds 105) (seconds 105) (fun _ => true);
     mkTick false (seconds 106) (seconds 106) (fun _ => true)] in
  let vs := run Detector.default_config opened (map Frame ticks) in
  Forall absent_tick ticks /\
  first_time ticks = Some (seconds 101) /\
  closes vs = 1%nat /\
  sent vs = [Chiudi] /\
  map Detector.window_change vs = [None; None; Some false; None].
Proof.
  cbv zeta.
  assert (Hp : Forall absent_tick
    [mkTick false (seconds 101) (seconds 101) (fun _ => true);
     mkTick false (seconds 104) (seconds 104) (fun _ => true);
     mkTick false (seconds 105) (seconds 105) (fun _ => true);
     mkTick false (seconds 106) (seconds 106) (fun _ => true)])
    by (repeat constructor).
  split; [exact Hp|]. split; [reflexivity|].
  destruct (absence_closes_once Detector.default_config
              (Detector.mkApp (opened_at (seconds 100) WindowCtl.init)
                 (Some (seconds 90)) None [])
              _ (seconds 101) Hp eq_refl eq_refl eq_refl)
    as (_ & _ & _ & Hexact).
  destruct Hexact as [Hc Hs]; [repeat constructor|].
  split; [exact Hc|]. split; [exact Hs | reflexivity].
Defined.

(** An absence timer left over from before a manual opening counts from
    its old value: the first absent frame after [/auto] closes the
    window. *)
Example stale_absence_timer :
  let ok (c : WireCommand) := true in
  let events :=
    [Frame (mkTick false (seconds 50) (seconds 50) ok);
     TelegramApri (seconds 100) ok;
     TelegramAuto;
     Frame (mkTick false (seconds 106) (seconds 106) ok)] in
  map Detector.window_change (run Detector.default_config Detector.init events)
  = [None; None; None; Some false]
  /\ map (fun v => Detector.current_no_detection_time (Detector.app_after v))
       (run Detector.default_config Detector.init events)
     = [Some (seconds 50); Some (seconds 50); Some (seconds 50); Some (seconds 50)].
Proof. split; reflexivity. Qed.

End AbsenceFacts.

Section ManualFacts.
Import WindowCtl Session Vocabulary.

(** Frames that arrive in manual mode leave the application as it is. *)
Lemma run_manual_frames cfg self :
  manual_mode (Detector.window_controller self) = true ->
  forall ticks rest,
  run cfg self (map Frame ticks ++ rest)
  = map (fun _ => Detector.mkVerdict self [] None) ticks ++ run cfg self rest.
Proof.
  intros Hm. induction ticks as [|t ticks IH]; intros rest; [reflexivity|].
  cbn [map app run]. 
  assert (Hstep : step cfg self (Frame t) = Detector.mkVerdict self [] None).
  { cbn [step]. unfold Detector.process_cat_detection, auto_control_enabled.
    rewrite Hm. reflexivity. }
  rewrite Hstep. cbn [Detector.app_after]. rewrite IH. reflexivity.
Qed.

(** X9.  While manual mode is on, frames change nothing, whatever they
    report: every frame leaves the application as it is, timers included,
    and sends no command.  The dwell is therefore measured from the
    frozen timer once automatic control returns: if the presence timer
    was set and the window is closed, a present frame right after [/auto]
    that lies the required time after the timer value, finds the
    controller out of its cooldown and has its script succeed, opens the
    window at once. *)
Theorem manual_mode_freezes_timer cfg self ticks :
  manual_mode (Detector.window_controller self) = true ->
  run cfg self (map Frame ticks) = map (fun _ => Detector.mkVerdict self [] None) ticks /\
  forall t t0,
    Detector.current_detection_time self = Some t0 ->
    is_window_open (Detector.window_controller self) = false ->
    present_tick t ->
    Detector.required_detection_time cfg <= tick_time t - t0 ->
    cooldown_active (Detector.window_controller self) (tick_ctl_time t) = false ->
    tick_exec t Apri = true ->
    let auto :=
      Detector.mkApp (enable_auto_control (Detector.window_controller self))
        (Detector.current_detection_time self)
        (Detector.current_no_detection_time self)
        (Detector.recent_detections self) in
    run cfg self (map Frame ticks ++ [TelegramAuto; Frame t])
    = map (fun _ => Detector.mkVerdict self [] None) ticks
      ++ [Detector.mkVerdict auto [] None;
          Detector.mkVerdict
            (dwelling t0
               (opened_at (tick_ctl_time t)
                  (enable_auto_control (Detector.window_controller self))) self)
            [Apri] (Some true)].
Proof.
  intros Hm. split.
  - rewrite <- (app_nil_r (map Frame ticks)).
    rewrite (run_manual_frames cfg self Hm ticks []). cbn [run]. apply app_nil_r.
  - intros t t0 Hd Hc Hp Hreq Hcool He auto.
    rewrite (run_manual_frames cfg self Hm ticks). f_equal.
    cbn [run]. change (Detector.app_after (step cfg self TelegramAuto)) with auto.
    change (step cfg self TelegramAuto) with (Detector.mkVerdict auto [] None).
    f_equal.
    rewrite (tick_while_closed_exact cfg auto t t0 Hp eq_refl Hc Hd He).
    + apply Z.leb_le in Hreq. rewrite Hreq. reflexivity.
    + intros _. exact Hcool.
Qed.

Lemma manual_mode_freezes_timer_witness :
  let self := Detector.mkApp (set_manual_mode true WindowCtl.init) (Some 0) None [] in
  let ticks := [mkTick false (seconds 60) (seconds 60) (fun _ => true);
                mkTick false (seconds 3000) (seconds 3000) (fun _ => true)] in
  let t := mkTick true (seconds 3600) (seconds 3600) (fun _ => true) in
  present_tick t /\
  Detector.required_detection_time Detector.default_config <= tick_time t - 0 /\
  map Detector.window_change
    (run Detector.default_config self (map Frame ticks ++ [TelegramAuto; Frame t]))
  = [None; None; None; Some true].
Proof.
  cbv zeta. split; [reflexivity|]. split; [discriminate|].
  destruct (manual_mode_freezes_timer Detector.default_config
              (Detector.mkApp (set_manual_mode true WindowCtl.init) (Some 0) None [])
              [mkTick false (seconds 60) (seconds 60) (fun _ => true);
               mkTick false (seconds 3000) (seconds 3000) (fun _ => true)]
              eq_refl)
    as [_ H].
  rewrite (H (mkTick true (seconds 3600) (seconds 3600) (fun _ => true)) 0
             eq_refl eq_refl eq_refl);
    [reflexivity | discriminate | reflexivity | reflexivity].
Defined.

(** A present frame that falls into the cooldown of a manual close opens
    nothing, although the frozen timer is long past the dwell. *)
Example frozen_timer_in_cooldown :
  let ok (c : WireCommand) := true in
  let self := Detector.mkApp WindowCtl.init (Some (seconds 90)) None [] in
  map Detector.window_change
    (run Detector.default_config self
       [TelegramChiudi (seconds 100) ok; TelegramAuto;
        Frame (mkTick true (seconds 102) (seconds 102) ok)])
  = [None; None; None].
Proof. reflexivity. Qed.

End ManualFacts.

(** ** Frames without a usable width *)

Section WidthFacts.
Import Hailo Vocabulary.

Lemma scan_without_width cfg thr width :
  width = None \/ width = Some 0 ->
  forall ds s,
  ((exists d, In d ds /\ counts_anywhere thr d) ->
   Detector.scan cfg thr width s ds = None) /\
  ((forall d, In d ds -> ~ counts_anywhere thr d) ->
   Detector.scan cfg thr width s ds = Some s).
Proof.
  intros Hw.
  assert (Hroi : forall x, Detector.is_within_roi cfg x width = None).
  { intros x. destruct Hw as [-> | ->]; reflexivity. }
  assert (Hstep : forall s d,
    (counts_anywhere thr d -> Detector.scan_step cfg thr width s d = None) /\
    (~ counts_anywhere thr d -> Detector.scan_step cfg thr width s d = Some s)).
  { intros s d. unfold Detector.scan_step, counts_anywhere. rewrite Hroi.
    destruct (String.eqb_spec (label d) "cat") as [Hl|Hl].
    - destruct (Qle_bool thr (confidence d)) eqn:Ht.
      + split; [reflexivity|]. apply Qle_bool_iff in Ht. intros Hn. exfalso. auto.
      + split; [|reflexivity]. intros [_ Hc]. apply Qle_bool_iff in Hc. congruence.
    - split; [|reflexivity]. intros [Hc _]. contradiction. }
  induction ds as [|d ds IH]; intros s; cbn [Detector.scan].
  - split; [intros [d [[] _]] | reflexivity].
  - assert (Hdec : counts_anywhere thr d \/ ~ counts_anywhere thr d).
    { unfold counts_anywhere.
      destruct (String.eqb_spec (label d) "cat") as [Hl|Hl]; [|right; tauto].
      destruct (Qle_bool thr (confidence d)) eqn:Ht.
      - left. apply Qle_bool_iff in Ht. tauto.
      - right. intros [_ Hc]. apply Qle_bool_iff in Hc. congruence. }
    destruct Hdec as [Hc|Hn].
    + rewrite (proj1 (Hstep s d) Hc). split; [reflexivity|].
      intros Hall. exfalso. apply (Hall d); [left; reflexivity | exact Hc].
    + rewrite (proj2 (Hstep s d) Hn). destruct (IH s) as [IH1 IH2]. split.
      * intros [d' [[<-|Hin] Hc]]; [contradiction|]. apply IH1. exists d'. auto.
      * intros Hall. apply IH2. intros d' Hin. apply Hall. right. exact Hin.
Qed.

(** When the width of the frame is unknown or zero, a frame with a cat
    detection of confidence at least the threshold is dropped whole: the
    presence window is neither pruned nor extended, the timers do not
    move and no command is sent.  A frame without such a detection is
    processed as a frame without a cat. *)
Theorem frame_without_width cfg exec ctl_time self ds width now :
  width = None \/ width = Some 0 ->
  let thr := Detector.get_current_confidence_threshold cfg self in
  ((exists d, In d ds /\ counts_anywhere thr d) ->
   Detector.process_frame cfg exec ctl_time self ds width now
   = Detector.mkVerdict self [] None) /\
  ((forall d, In d ds -> ~ counts_anywhere thr d) ->
   Detector.process_frame cfg exec ctl_time self ds width now
   = Detector.process_cat_detection cfg exec ctl_time
       (fst (Detector.update_detection_filter cfg self false now))
       (snd (Detector.update_detection_filter cfg self false now)) now).
Proof.
  intros Hw thr.
  destruct (scan_without_width cfg thr width Hw ds Detector.scan_start) as [H1 H2].
  split; intros H; unfold Detector.process_frame; fold thr.
  - rewrite (H1 H). reflexivity.
  - rewrite (H2 H). reflexivity.
Qed.

Lemma frame_without_width_witness :
  let self := Detector.mkApp WindowCtl.init None None [0] in
  (@None Z = None \/ @None Z = Some 0) /\
  Detector.process_frame Detector.default_config (fun _ => true) (seconds 9) self
    [mkDetection "cat" 0.9 300 340] None (seconds 9)
  = Detector.mkVerdict self [] None.
Proof.
  cbv zeta. split; [left; reflexivity|].
  apply (frame_without_width Detector.default_config (fun _ => true) (seconds 9)
           (Detector.mkApp WindowCtl.init None None [0])
           [mkDetection "cat" 0.9 300 340] None (seconds 9) (or_introl eq_refl)).
  exists (mkDetection "cat" 0.9 300 340). split; [left; reflexivity|].
  split; [reflexivity | discriminate].
Defined.

End WidthFacts.

(** ** The presence window over a sequence of updates *)

Section WindowRunFacts.
Import WindowRuns.

Lemma update_sorted window recent cat_detected now :
  StronglySorted Z.le recent ->
  Forall (fun t => t <= now) recent ->
  StronglySorted Z.le (fst (PresenceWindow.update window recent cat_detected now)) /\
  Forall (fun t => t <= now) (fst (PresenceWindow.update window recent cat_detected now)).
Proof.
  intros Hs Hb. rewrite update_appends. unfold PresenceWindow.prune.
  assert (Hks : StronglySorted Z.le (filter (fun t => now - t <? window) recent)).
  { induction Hs as [|a l Hs IH Ha]; cbn [filter]; [constructor|].
    inversion Hb as [|? ? _ Hb']; subst.
    destruct (now - a <? window); [|apply IH; exact Hb'].
    constructor; [apply IH; exact Hb'|].
    rewrite Forall_forall in Ha |- *. intros x Hx. apply filter_In in Hx.
    apply Ha. apply Hx. }
  assert (Hkb : Forall (fun t => t <= now) (filter (fun t => now - t <? window) recent)).
  { rewrite Forall_forall in Hb |- *. intros x Hx. apply filter_In in Hx.
    apply Hb. apply Hx. }
  destruct cat_detected; [|rewrite app_nil_r; split; assumption].
  split.
  - clear Hs Hb. induction Hks as [|a l Hs IH Ha]; cbn [app].
    + repeat constructor.
    + inversion Hkb as [|? ? Han Hkb']; subst.
      constructor; [apply IH; exact Hkb'|].
      apply Forall_app. split; [exact Ha | constructor; [exact Han | constructor]].
  - apply Forall_app. split; [exact Hkb | constructor; [apply Z.le_refl | constructor]].
Qed.

Lemma update_members window recent cat_detected now t :
  In t (fst (PresenceWindow.update window recent cat_detected now)) ->
  (In t recent /\ now - t < window) \/ (cat_detected = true /\ t = now).
Proof.
  rewrite update_appends. unfold PresenceWindow.prune. intros H.
  apply in_app_or in H. destruct H as [H|H].
  - apply filter_In in H. destruct H as [Hin Hlt]. apply Z.ltb_lt in Hlt. left. auto.
  - destruct cat_detected; [|destruct H]. destruct H as [<-|[]]. right. auto.
Qed.

Lemma final_sorted window :
  forall updates recent lo,
  StronglySorted Z.le recent ->
  Forall (fun t => t <= lo) recent ->
  StronglySorted Z.le (lo :: map fst updates) ->
  StronglySorted Z.le (final window recent updates) /\
  (forall t, In t (final window recent updates) ->
     In t recent \/ In (t, true) updates).
Proof.
  unfold final.
  induction updates as [|[now d] updates IH]; intros recent lo Hs Hb Hu;
    cbn [fold_left fst snd].
  - split; [exact Hs | auto].
  - apply StronglySorted_inv in Hu. destruct Hu as [Hu Hlo].
    cbn [map fst] in Hu, Hlo. inversion Hlo as [|? ? Hle _]; subst.
    assert (Hb' : Forall (fun t => t <= now) recent).
    { revert Hb. apply Forall_impl. intros t Ht. lia. }
    destruct (update_sorted window recent d now Hs Hb') as [Hs1 Hb1].
    destruct (IH _ now Hs1 Hb1 Hu) as [Hs2 Hm2].
    split; [exact Hs2|].
    intros t Ht. destruct (Hm2 t Ht) as [Hin|Hin]; [|right; right; exact Hin].
    destruct (update_members window recent d now t Hin) as [[Hr _]|[-> ->]];
      [left; exact Hr | right; left; reflexivity].
Qed.

Lemma final_last window recent pre now d :
  final window recent (pre ++ [(now, d)])
  = fst (PresenceWindow.update window (final window recent pre) d now).
Proof. unfold final. rewrite fold_left_app. reflexivity. Qed.

Lemma final_from_empty window updates :
  StronglySorted Z.le (map fst updates) ->
  StronglySorted Z.le (final window [] updates) /\
  (forall t, In t (final window [] updates) -> In (t, true) updates).
Proof.
  intros Hu.
  assert (Hgen : StronglySorted Z.le (final window [] updates) /\
                 (forall t, In t (final window [] updates) ->
                    In t [] \/ In (t, true) updates)).
  { destruct updates as [|[t0 d0] rest].
    - split; [constructor | intros t []].
    - apply (final_sorted window ((t0, d0) :: rest) [] t0); [constructor | constructor|].
      cbn [map fst] in *. constructor; [exact Hu|].
      constructor; [apply Z.le_refl|].
      apply StronglySorted_inv in Hu. apply Hu. }
  destruct Hgen as [Hs Hm]. split; [exact Hs|].
  intros t Ht. destruct (Hm t Ht) as [[]|H]. exact H.
Qed.

Lemma sorted_before_last (xs : list Z) (x : Z) :
  StronglySorted Z.le (xs ++ [x]) ->
  StronglySorted Z.le xs /\ Forall (fun t => t <= x) xs.
Proof.
  induction xs as [|a xs IH]; cbn [app]; intros H.
  - split; constructor.
  - apply StronglySorted_inv in H. destruct H as [H Ha].
    destruct (IH H) as [Hs Hb]. split.
    + constructor; [exact Hs|]. apply Forall_app in Ha. apply Ha.
    + constructor; [|exact Hb]. apply Forall_app in Ha. destruct Ha as [_ Ha].
      inversion Ha; assumption.
Qed.

(** Starting from the empty list, after any sequence of updates whose
    time stamps do not decrease, with a positive window: the list is in
    time order; every entry is the time stamp of a qualifying update of
    the sequence; and every entry is less than the window older than the
    last update and not later than it. *)
Theorem presence_window_invariant window updates :
  0 < window ->
  StronglySorted Z.le (map fst updates) ->
  let recent := final window [] updates in
  StronglySorted Z.le recent /\
  (forall t, In t recent -> In (t, true) updates) /\
  (forall pre now d, updates = pre ++ [(now, d)] ->
     Forall (fun t => now - window < t <= now) recent).
Proof.
  intros Hw Hu recent.
  destruct (final_from_empty window updates Hu) as [Hs Hm].
  split; [exact Hs|]. split; [exact Hm|].
  intros pre now d ->. unfold recent. rewrite final_last.
  rewrite map_app in Hu. cbn [map fst] in Hu.
  destruct (sorted_before_last _ _ Hu) as [Hps Hpb].
  destruct (final_from_empty window pre Hps) as [_ Hpm].
  rewrite Forall_forall. intros t Ht.
  destruct (update_members window _ d now t Ht) as [[Hin Hage]|[_ ->]]; [|lia].
  split; [lia|].
  rewrite Forall_forall in Hpb. apply Hpb.
  specialize (Hpm t Hin). apply (in_map fst) in Hpm. exact Hpm.
Qed.

Lemma presence_window_invariant_witness :
  let updates := [(0, true); (seconds 1, false); (seconds 2, true);
                  (seconds 4, true); (seconds 5, false)] in
  0 < seconds 3 /\
  StronglySorted Z.le (map fst updates) /\
  final (seconds 3) [] updates = [seconds 4] /\
  StronglySorted Z.le (final (seconds 3) [] updates).
Proof.
  cbv zeta.
  assert (Hs : StronglySorted Z.le
    (map fst [(0, true); (seconds 1, false); (seconds 2, true);
              (seconds 4, true); (seconds 5, false)])).
  { repeat (constructor; [|repeat (constructor; [discriminate|])]); constructor. }
  split; [reflexivity|]. split; [exact Hs|]. split; [reflexivity|].
  apply (presence_window_invariant (seconds 3) _ eq_refl Hs).
Defined.

(** Without a detection the list stays empty. *)
Lemma replay_misses window ts :
  PresenceWindow.replay window [] (map miss ts) = map (fun _ => false) ts.
Proof.
  induction ts as [|t ts IH]; [reflexivity|].
  cbn [map miss PresenceWindow.replay]. cbn. f_equal. exact IH.
Qed.

Lemma replay_single window t0 :
  forall ts,
  StronglySorted Z.le ts ->
  PresenceWindow.replay window [t0] (map miss ts)
  = map (fun t => t - t0 <? window) ts.
Proof.
  induction ts as [|t ts IH]; intros Hs; [reflexivity|].
  apply StronglySorted_inv in Hs. destruct Hs as [Hs Ht].
  cbn [map miss PresenceWindow.replay].
  unfold PresenceWindow.update, PresenceWindow.prune. cbn [filter fst snd].
  destruct (Z.ltb_spec (t - t0) window) as [Hlt|Hge].
  - cbn [List.length Nat.ltb Nat.leb]. f_equal. apply IH. exact Hs.
  - cbn [List.length Nat.ltb Nat.leb]. f_equal. rewrite replay_misses.
    apply map_ext_in. intros t' Hin. symmetry. apply Z.ltb_ge.
    rewrite Forall_forall in Ht. specialize (Ht t' Hin). lia.
Qed.

(** A single qualifying frame at [t0], followed by frames that do not
    qualify at non-decreasing times: the filter returns [True] at the
    qualifying frame and then exactly at the frames less than the window
    after [t0].  The presence lasts up to, and not including, the width
    of the window. *)
Theorem single_detection_expires window recent t0 ts :
  StronglySorted Z.le ts ->
  Forall (fun t => window <= t0 - t) recent ->
  PresenceWindow.replay window recent ((t0, true) :: map miss ts)
  = true :: map (fun t => t - t0 <? window) ts.
Proof.
  intros Hs Hold. cbn [PresenceWindow.replay].
  assert (Hkept : PresenceWindow.prune window recent t0 = []).
  { unfold PresenceWindow.prune. induction Hold as [|a l Ha _ IH]; [reflexivity|].
    cbn [filter]. apply Z.ltb_ge in Ha. rewrite Ha. exact IH. }
  unfold PresenceWindow.update. rewrite Hkept. cbn [app fst snd].
  f_equal. apply replay_single. exact Hs.
Qed.

Lemma single_detection_expires_witness :
  StronglySorted Z.le [seconds 1; seconds 2; seconds 3; seconds 4] /\
  Forall (fun t => seconds 3 <= 0 - t) [] /\
  PresenceWindow.replay (seconds 3) []
    ((0, true) :: map miss [seconds 1; seconds 2; seconds 3; seconds 4])
  = [true; true; true; false; false].
Proof.
  assert (Hs : StronglySorted Z.le [seconds 1; seconds 2; seconds 3; seconds 4]).
  { repeat (constructor; [|repeat (constructor; [discriminate|])]); constructor. }
  split; [exact Hs|]. split; [constructor|].
  apply (single_detection_expires (seconds 3) [] 0 _ Hs). constructor.
Defined.


End WindowRunFacts.

(** ** Image capture of the headless detector *)

Section CaptureFacts.
Import WindowCtl Capture.

Lemma capture_saved last f name c last' :
  capture last f = (Some (name, c), last') ->
  should_capture_image last c (checked_at (outside f)) = true
  /\ c = Callback.max_confidence (scanned f)
  /\ last' = Some (stamped_at (outside f)).
Proof.
  unfold capture, save_cat_image.
  destruct (frame_available f && Callback.cat_detected (scanned f)
            && Qlt_bool 0 (Callback.max_confidence (scanned f))); [|discriminate].
  destruct (should_capture_image last (Callback.max_confidence (scanned f))
              (checked_at (outside f))) eqn:Hs; cbn [negb]; [|discriminate].
  destruct (write_raises (outside f)); [discriminate|].
  intros H. inversion H. subst. auto.
Qed.

Lemma capture_not_saved last f last' :
  capture last f = (None, last') -> last' = last.
Proof.
  unfold capture, save_cat_image.
  destruct (frame_available f && Callback.cat_detected (scanned f)
            && Qlt_bool 0 (Callback.max_confidence (scanned f))).
  - destruct (negb _).
    + intros H. inversion H. reflexivity.
    + destruct (write_raises (outside f)); intros H; inversion H. reflexivity.
  - intros H. inversion H. reflexivity.
Qed.

Lemma should_capture_image_true last c now :
  should_capture_image last c now = true ->
  (capture_confidence_threshold <= c)%Q
  /\ match last with
     | None => True
     | Some t => capture_cooldown <= now - t
     end.
Proof.
  unfold should_capture_image.
  destruct last as [t|].
  - destruct (capture_cooldown <=? now - t) eqn:Hc; [|discriminate].
    destruct (Qle_bool capture_confidence_threshold c) eqn:Hq; [|discriminate].
    intros _. split; [apply Qle_bool_iff; exact Hq | apply Z.leb_le; exact Hc].
  - destruct (Qle_bool capture_confidence_threshold c) eqn:Hq; [|discriminate].
    intros _. split; [apply Qle_bool_iff; exact Hq | exact I].
Qed.

(** X13.  Over any sequence of frames of the headless detector in which
    the clock does not run backwards inside a call of [save_cat_image],
    the images saved are stamped at least [capture_cooldown] (30 s) apart,
    the first one at least that long after the [last_capture_time] the
    sequence starts with, and each has a confidence of at least
    [capture_confidence_threshold] (0.8). *)
Theorem capture_rate_limit last frames :
  Forall clock_forward frames ->
  spaced_from capture_cooldown last (map snd (captures last frames))
  /\ Forall (fun c => (capture_confidence_threshold <= c)%Q)
       (map fst (captures last frames)).
Proof.
  intros Hf. revert last.
  induction Hf as [|f rest Hfwd _ IH]; intros last.
  - cbn. split; [exact I | constructor].
  - cbn [captures].
    destruct (capture last f) as [[[name c]|] last'] eqn:Hc.
    + destruct (capture_saved _ _ _ _ _ Hc) as [Hs [_ Hl]]. subst last'.
      destruct (should_capture_image_true _ _ _ Hs) as [Hq Ht].
      destruct (IH (Some (stamped_at (outside f)))) as [IH1 IH2].
      cbn [map fst snd spaced_from]. split.
      * split; [|exact IH1].
        destruct last as [t|]; [|exact I].
        unfold clock_forward in Hfwd. lia.
      * constructor; assumption.
    + apply capture_not_saved in Hc. subst last'. apply IH.
Qed.

Lemma capture_rate_limit_witness :
  let f1 := mkShot true (Callback.mkScan true 0.9%Q) (mkSave 0 1 false 2) in
  let f2 := mkShot true (Callback.mkScan true 0.95%Q) (mkSave 10000000 10000001 false 10000002) in
  let f3 := mkShot true (Callback.mkScan true 0.85%Q) (mkSave 40000000 40000001 false 40000002) in
  captures None [f1; f2; f3] = [(0.9%Q, 2); (0.85%Q, 40000002)]
  /\ spaced_from capture_cooldown None (map snd (captures None [f1; f2; f3])).
Proof.
  intros f1 f2 f3. split; [reflexivity|].
  apply (capture_rate_limit None [f1; f2; f3]).
  repeat constructor; unfold clock_forward; cbn; lia.
Defined.

End CaptureFacts.

(** ** Window statistics of the system monitor *)

Section WindowStatsFacts.
Import Monitor.

Lemma last_entry_snoc h x : last_entry (h ++ [x]) = Some x.
Proof.
  unfold last_entry. rewrite map_app. cbn [map]. apply last_last.
Qed.

Lemma last_state_snoc h now b : last_state (h ++ [(now, b)]) = b.
Proof. unfold last_state. rewrite last_entry_snoc. reflexivity. Qed.

Lemma last_time_snoc h now b : last_time (h ++ [(now, b)]) = Some now.
Proof. unfold last_time. rewrite last_entry_snoc. reflexivity. Qed.

Lemma last_entry_cons x y h : last_entry (x :: y :: h) = last_entry (y :: h).
Proof. reflexivity. Qed.

Lemma alternating_snoc e h now :
  alternating e (map snd h) ->
  alternating e (map snd (h ++ [(now, negb (match last_entry h with
                                          | Some (_, s) => s
                                          | None => negb e
                                          end))])).
Proof.
  revert e. induction h as [|[t s] h IH]; intros e.
  - cbn. rewrite negb_involutive. auto.
  - cbn [map snd alternating app]. intros [Hs Hr]. split; [exact Hs|].
    specialize (IH _ Hr).
    destruct h as [|y h'].
    + cbn. subst s. auto.
    + rewrite last_entry_cons.
      destruct (last_entry (y :: h')) as [[t' s']|] eqn:Hl; [exact IH|].
      exfalso. clear -Hl. unfold last_entry in Hl.
      revert y Hl. induction h' as [|z h' IHh]; intros y Hl; [discriminate|].
      cbn [map] in Hl. apply (IHh z). exact Hl.
Qed.

Lemma open_entries_snoc h now b :
  open_entries (h ++ [(now, b)]) = open_entries h + (if b then 1 else 0).
Proof.
  unfold open_entries. rewrite filter_app, length_app. cbn [filter snd].
  destruct b; cbn [List.length]; lia.
Qed.

Lemma last_entry_nonempty y h : last_entry (y :: h) <> None.
Proof.
  unfold last_entry. revert y. induction h as [|z h IH]; intros y; [discriminate|].
  cbn [map]. apply (IH z).
Qed.

Lemma window_call_consistent s c :
  window_consistent s -> window_consistent (window_call s c).
Proof.
  intros H. pose proof H as (Ho & Ha & Hs & Hl & Hn).
  destruct c as [is_open now|now1 now2]; cbn [window_call].
  - unfold record_window_change.
    destruct (Bool.eqb (window_is_open s) is_open) eqn:He; cbn [negb];
      [exact H|].
    apply eqb_false_iff in He.
    unfold window_consistent.
    cbn [window_is_open window_open_time window_openings last_window_change
         window_state_history].
    rewrite last_state_snoc, last_time_snoc, open_entries_snoc.
    assert (Hb : is_open = negb (window_is_open s))
      by (destruct is_open, (window_is_open s); congruence || reflexivity).
    repeat split.
    + intros ->. rewrite Hb. cbn. destruct (window_is_open s); [discriminate|].
      cbn. discriminate.
    + intros Hne. destruct (negb (window_is_open s) && is_open) eqn:Hx;
        [|congruence].
      apply andb_true_iff in Hx. tauto.
    + rewrite Hb, Hs. unfold last_state.
      pose proof (alternating_snoc true (window_state_history s) now Ha) as H1.
      destruct (last_entry (window_state_history s)) as [[t0 s0]|]; exact H1.
    + rewrite Hn. rewrite Hb. destruct (window_is_open s); cbn; lia.
  - unfold _update_window_time.
    destruct (window_is_open s) eqn:Hw; [|exact H].
    destruct (window_open_time s) eqn:Ht; [|exact H].
    unfold window_consistent.
    cbn [window_is_open window_open_time window_openings last_window_change
         window_state_history].
    repeat split; try assumption; try discriminate.
Qed.

Lemma fresh_window_consistent : window_consistent fresh_window.
Proof.
  unfold window_consistent. cbn. repeat split; try reflexivity.
  - discriminate.
  - intros H. congruence.
Qed.

(** X14.  Whatever calls of [record_window_change] and
    [_update_window_time] a monitor without loaded statistics receives,
    its window statistics stay consistent: [window_open_time] is set
    exactly while [window_is_open] holds, the entries of
    [window_state_history] alternate between open and closed beginning
    with open, the last entry gives [window_is_open] and
    [last_window_change], and [window_openings] counts the open entries;
    so a repeated report of the same state changes nothing. *)
Theorem window_statistics_consistent cs :
  window_consistent (window_calls fresh_window cs).
Proof.
  pose proof fresh_window_consistent as H.
  revert H. generalize fresh_window.
  induction cs as [|c cs IH]; intros s H; [exact H|].
  cbn [window_calls fold_left]. apply IH. apply window_call_consistent. exact H.
Qed.

Lemma minutes_chain (a b c : Z) :
  (minutes (a - b)%Z + minutes (b - c)%Z == minutes (a - c)%Z)%Q.
Proof.
  unfold minutes. unfold Z.sub. rewrite !inject_Z_plus, !inject_Z_opp. field.
Qed.

Lemma minutes_zero (a : Z) : (minutes (a - a)%Z == 0)%Q.
Proof. unfold minutes. rewrite Z.sub_diag. reflexivity. Qed.

Lemma minutes_nonneg d : 0 <= d -> (0 <= minutes d)%Q.
Proof.
  intros H. unfold minutes. apply Qle_shift_div_l; [reflexivity|].
  rewrite Qmult_0_l. change 0%Q with (inject_Z 0). rewrite <- Zle_Qle. exact H.
Qed.

Lemma open_minutes_cons t1 (s1 : bool) t2 (s2 : bool) rest :
  (open_minutes ((t1, s1) :: (t2, s2) :: rest)
   == (if s1 && negb s2 then minutes (t2 - t1)%Z else 0)
      + open_minutes ((t2, s2) :: rest))%Q.
Proof.
  destruct s1, s2; cbn [andb negb];
    try (change (open_minutes ((t1, true) :: (t2, false) :: rest))
           with (minutes (t2 - t1)%Z + open_minutes ((t2, false) :: rest))%Q;
         reflexivity);
    match goal with
    | |- (open_minutes (?x :: ?l) == _)%Q =>
        change (open_minutes (x :: l)) with (open_minutes l)
    end; ring.
Qed.

Lemma open_minutes_snoc h now b :
  (open_minutes (h ++ [(now, b)])
   == open_minutes h
      + match last_entry h with
        | Some (t, true) => if b then 0 else minutes (now - t)%Z
        | _ => 0
        end)%Q.
Proof.
  induction h as [|[t1 s1] h IH].
  - cbn. destruct b; reflexivity.
  - destruct h as [|[t2 s2] h'].
    + change ([(t1, s1)] ++ [(now, b)]) with [(t1, s1); (now, b)].
      rewrite open_minutes_cons.
      destruct s1, b; cbn; ring.
    + rewrite last_entry_cons.
      change (((t1, s1) :: (t2, s2) :: h') ++ [(now, b)])
        with ((t1, s1) :: (t2, s2) :: h' ++ [(now, b)]).
      rewrite !open_minutes_cons.
      change ((t2, s2) :: h' ++ [(now, b)])
        with (((t2, s2) :: h') ++ [(now, b)]).
      rewrite IH. ring.
Qed.

Lemma open_shape s :
  window_consistent s -> window_is_open s = true ->
  exists t t0,
    window_open_time s = Some t
    /\ last_entry (window_state_history s) = Some (t0, true)
    /\ last_window_change s = Some t0.
Proof.
  intros (Ho & _ & Hs & Hl & _) Hw.
  destruct (window_open_time s) as [t|] eqn:Ht;
    [|exfalso; apply (proj1 Ho Hw); reflexivity].
  rewrite Hw in Hs. unfold last_state in Hs. unfold last_time in Hl.
  destruct (last_entry (window_state_history s)) as [[t0 s0]|]; [|discriminate].
  subst s0. exists t, t0. auto.
Qed.

Lemma closed_shape s :
  window_consistent s -> window_is_open s = false ->
  match last_entry (window_state_history s) with
  | Some (_, true) => False
  | _ => True
  end.
Proof.
  intros (_ & _ & Hs & _ & _) Hw. rewrite Hw in Hs. unfold last_state in Hs.
  destruct (last_entry (window_state_history s)) as [[t0 [|]]|]; auto; discriminate.
Qed.

Lemma window_call_accounted s c L :
  window_consistent s ->
  (total_open_time s + L == open_minutes (window_state_history s) + pending s)%Q ->
  (total_open_time (window_call s c) + (L + skipped s c)
   == open_minutes (window_state_history (window_call s c))
      + pending (window_call s c))%Q.
Proof.
  intros Hc Hacc.
  destruct (window_is_open s) eqn:Hw.
  - destruct (open_shape s Hc Hw) as (t & t0 & Ht & He & Hl).
    unfold pending in Hacc. rewrite Hw, Ht, Hl in Hacc.
    destruct c as [[|] now|now1 now2]; cbn [window_call skipped].
    + unfold record_window_change. rewrite Hw. cbn [Bool.eqb negb].
      unfold pending. rewrite Hw, Ht, Hl. lra.
    + unfold record_window_change. rewrite Hw, Ht. cbn [Bool.eqb negb andb].
      unfold pending.
      cbn [window_is_open total_open_time window_state_history].
      rewrite open_minutes_snoc, He.
      pose proof (minutes_chain now t t0). lra.
    + unfold _update_window_time. rewrite Hw, Ht.
      unfold pending.
      cbn [window_is_open total_open_time window_state_history window_open_time
           last_window_change].
      rewrite Hl.
      pose proof (minutes_chain now2 now1 t0).
      pose proof (minutes_chain now1 t t0). lra.
  - pose proof (closed_shape s Hc Hw) as He.
    unfold pending in Hacc. rewrite Hw in Hacc.
    destruct c as [[|] now|now1 now2]; cbn [window_call skipped].
    + unfold record_window_change. rewrite Hw. cbn [Bool.eqb negb andb].
      unfold pending.
      cbn [window_is_open total_open_time window_state_history window_open_time
           last_window_change].
      rewrite open_minutes_snoc.
      pose proof (minutes_zero now).
      destruct (last_entry (window_state_history s)) as [[t0 [|]]|];
        [contradiction| |]; lra.
    + unfold record_window_change. rewrite Hw. cbn [Bool.eqb negb].
      unfold pending. rewrite Hw. lra.
    + unfold _update_window_time. rewrite Hw.
      unfold pending. rewrite Hw. lra.
Qed.

Lemma window_calls_accounted cs s L :
  window_consistent s ->
  (total_open_time s + L == open_minutes (window_state_history s) + pending s)%Q ->
  (total_open_time (window_calls s cs) + (L + lost s cs)
   == open_minutes (window_state_history (window_calls s cs))
      + pending (window_calls s cs))%Q.
Proof.
  revert s L. induction cs as [|c cs IH]; intros s L Hc Hacc.
  - cbn [window_calls fold_left lost]. lra.
  - cbn [window_calls fold_left lost].
    pose proof (IH (window_call s c) (L + skipped s c)%Q
                  (window_call_consistent s c Hc)
                  (window_call_accounted s c L Hc Hacc)) as H.
    unfold window_calls in H. lra.
Qed.

Lemma lost_nonneg cs s :
  Forall update_forward cs -> (0 <= lost s cs)%Q.
Proof.
  intros Hf. revert s. induction Hf as [|c cs Hc _ IH]; intros s.
  - cbn. apply Qle_refl.
  - cbn [lost].
    assert (Hk : (0 <= skipped s c)%Q).
    { destruct c as [b now|now1 now2]; cbn [skipped]; [apply Qle_refl|].
      destruct (window_is_open s); [|apply Qle_refl].
      destruct (window_open_time s); [|apply Qle_refl].
      apply minutes_nonneg. cbn in Hc. lia. }
    specialize (IH (window_call s c)). lra.
Qed.

(** X15.  For a monitor without loaded statistics, after any calls of
    [record_window_change] and [_update_window_time] in which the second
    clock reading of [_update_window_time] is not before its first:
    [total_open_time], together with the minutes that passed between the
    two clock readings of the [_update_window_time] calls that found the
    window open, equals the minutes between each open entry of
    [window_state_history] and the closed entry after it, plus the part of
    a still running opening that lies before [window_open_time]; the
    minutes left out are never negative, so [total_open_time] never
    exceeds the open time that the history shows. *)
Theorem open_time_accounting cs :
  Forall update_forward cs ->
  let s := window_calls fresh_window cs in
  (total_open_time s + lost fresh_window cs
   == open_minutes (window_state_history s) + pending s)%Q
  /\ (0 <= lost fresh_window cs)%Q
  /\ (total_open_time s <= open_minutes (window_state_history s) + pending s)%Q.
Proof.
  intros Hf s.
  assert (Heq : (total_open_time s + lost fresh_window cs
                 == open_minutes (window_state_history s) + pending s)%Q).
  { subst s.
    assert (H0 : (total_open_time fresh_window + 0
                  == open_minutes (window_state_history fresh_window)
                     + pending fresh_window)%Q) by reflexivity.
    pose proof (window_calls_accounted cs fresh_window 0%Q
                  fresh_window_consistent H0) as H.
    lra. }
  pose proof (lost_nonneg cs fresh_window Hf) as Hl.
  split; [exact Heq|]. split; [exact Hl|].
  lra.
Qed.

Lemma open_time_accounting_witness :
  let cs := [Change true 0; UpdateTime 60000000 60000005; Change false 120000000] in
  (total_open_time (window_calls fresh_window cs)
   <= open_minutes (window_state_history (window_calls fresh_window cs))
      + pending (window_calls fresh_window cs))%Q.
Proof.
  intros cs.
  apply (open_time_accounting cs).
  repeat constructor; cbn; lia.
Defined.

End WindowStatsFacts.

(** ** Detection statistics of the system monitor *)

Section DetectionStatsFacts.
Import WindowCtl Monitor.

Lemma pymin_le_left a b : (pymin a b <= a)%Q.
Proof.
  unfold pymin, Qlt_bool.
  destruct (Qle_bool a b) eqn:H; cbn [negb]; [apply Qle_refl|].
  destruct (Qlt_le_dec b a) as [Hlt|Hle]; [apply Qlt_le_weak; exact Hlt|].
  apply Qle_bool_iff in Hle. congruence.
Qed.

Lemma pymin_le_right a b : (pymin a b <= b)%Q.
Proof.
  unfold pymin, Qlt_bool.
  destruct (Qle_bool a b) eqn:H; cbn [negb]; [apply Qle_bool_iff; exact H|].
  apply Qle_refl.
Qed.

Lemma pymax_ge_left a b : (a <= Hailo.pymax a b)%Q.
Proof.
  unfold Hailo.pymax, Qlt_bool.
  destruct (Qle_bool b a) eqn:H; cbn [negb]; [apply Qle_refl|].
  destruct (Qlt_le_dec a b) as [Hlt|Hle]; [apply Qlt_le_weak; exact Hlt|].
  apply Qle_bool_iff in Hle. congruence.
Qed.

Lemma pymax_ge_right a b : (b <= Hailo.pymax a b)%Q.
Proof.
  unfold Hailo.pymax, Qlt_bool.
  destruct (Qle_bool b a) eqn:H; cbn [negb]; [apply Qle_bool_iff; exact H|].
  apply Qle_refl.
Qed.

Lemma Qsum_snoc l c : (Qsum (l ++ [c]) == Qsum l + c)%Q.
Proof.
  unfold Qsum. induction l as [|x l IH]; cbn [app fold_right]; [ring|].
  rewrite IH. ring.
Qed.

Lemma record_detection_counts stats c now :
  0 <= total_detections stats ->
  let r := record_detection stats c now in
  snd r = false
  /\ total_detections (fst r) = total_detections stats + 1
  /\ (avg_detection_confidence (fst r) * inject_Z (total_detections (fst r))
      == avg_detection_confidence stats * inject_Z (total_detections stats) + c)%Q
  /\ min_detection_confidence (fst r) = pymin (min_detection_confidence stats) c
  /\ max_detection_confidence (fst r) = Hailo.pymax (max_detection_confidence stats) c
  /\ detection_times (fst r) = detection_times stats ++ [now]
  /\ daily_detections (fst r) = daily_detections stats + 1
  /\ weekly_detections (fst r) = weekly_detections stats + 1.
Proof.
  intros Hn. unfold record_detection.
  destruct (total_detections stats + 1 =? 0) eqn:H0; [apply Z.eqb_eq in H0; lia|].
  cbn [fst snd total_detections avg_detection_confidence min_detection_confidence
       max_detection_confidence detection_times daily_detections weekly_detections].
  repeat split.
  replace (total_detections stats + 1 - 1) with (total_detections stats) by lia.
  field.
  change 0%Q with (inject_Z 0). rewrite inject_Z_injective.
  apply Z.eqb_neq in H0. exact H0.
Qed.

(** What a sequence of recordings keeps true of statistics that hold [n]
    detections with the confidences [seen]. *)
Lemma record_all_from stats cs (seen : list Q) :
  total_detections stats = Z.of_nat (List.length seen) ->
  (avg_detection_confidence stats * inject_Z (total_detections stats)
   == Qsum seen)%Q ->
  Forall (fun c => (min_detection_confidence stats <= c
                    /\ c <= max_detection_confidence stats)%Q) seen ->
  let r := record_all stats cs in
  snd r = false
  /\ total_detections (fst r) = Z.of_nat (List.length (seen ++ map fst cs))
  /\ (avg_detection_confidence (fst r) * inject_Z (total_detections (fst r))
      == Qsum (seen ++ map fst cs))%Q
  /\ Forall (fun c => (min_detection_confidence (fst r) <= c
                       /\ c <= max_detection_confidence (fst r))%Q)
       (seen ++ map fst cs)
  /\ (min_detection_confidence (fst r) <= min_detection_confidence stats)%Q
  /\ (max_detection_confidence stats <= max_detection_confidence (fst r))%Q
  /\ detection_times (fst r) = detection_times stats ++ map snd cs
  /\ daily_detections (fst r) = daily_detections stats + Z.of_nat (List.length cs)
  /\ weekly_detections (fst r) = weekly_detections stats + Z.of_nat (List.length cs).
Proof.
  revert stats seen. induction cs as [|[c now] cs IH]; intros stats seen Hn Havg Hb.
  - cbn [record_all fst snd map List.length]. rewrite !app_nil_r.
    repeat split; try assumption; try apply Qle_refl; try lia.
  - cbn [record_all fst snd].
    assert (H0 : 0 <= total_detections stats) by lia.
    destruct (record_detection_counts stats c now H0)
      as (Hr & Ht & Ha & Hmin & Hmax & Hts & Hd & Hw).
    set (stats' := fst (record_detection stats c now)) in *.
    rewrite Hr. cbn [orb].
    assert (Hn' : total_detections stats' = Z.of_nat (List.length (seen ++ [c]))).
    { rewrite Ht, Hn, length_app. cbn [List.length]. lia. }
    assert (Havg' : (avg_detection_confidence stats' * inject_Z (total_detections stats')
                     == Qsum (seen ++ [c]))%Q).
    { rewrite Ha, Havg, Qsum_snoc. reflexivity. }
    assert (Hb' : Forall (fun x => (min_detection_confidence stats' <= x
                                    /\ x <= max_detection_confidence stats')%Q)
                    (seen ++ [c])).
    { rewrite Hmin, Hmax. apply Forall_app. split.
      - eapply Forall_impl; [|exact Hb]. cbn. intros x [H1 H2]. split.
        + eapply Qle_trans; [apply pymin_le_left | exact H1].
        + eapply Qle_trans; [exact H2 | apply pymax_ge_left].
      - constructor; [|constructor]. split; [apply pymin_le_right | apply pymax_ge_right]. }
    destruct (IH stats' (seen ++ [c]) Hn' Havg' Hb')
      as (I1 & I2 & I3 & I4 & I5 & I6 & I7 & I8 & I9).
    cbn [map fst snd].
    replace (seen ++ c :: map fst cs) with ((seen ++ [c]) ++ map fst cs)
      by (rewrite <- app_assoc; reflexivity).
    repeat split; try assumption.
    + eapply Qle_trans; [exact I5|]. rewrite Hmin. apply pymin_le_left.
    + eapply Qle_trans; [|exact I6]. rewrite Hmax. apply pymax_ge_left.
    + rewrite I7, Hts, <- app_assoc. reflexivity.
    + rewrite I8, Hd. cbn [List.length]. lia.
    + rewrite I9, Hw. cbn [List.length]. lia.
Qed.

(** X16.  Starting from statistics without loaded data,
    [record_detection] never raises, and after any sequence of calls
    [total_detections] is the number of calls,
    [avg_detection_confidence] is the mean of the confidences recorded
    (its product with the count is their sum), every recorded confidence
    lies between [min_detection_confidence] and
    [max_detection_confidence], and [detection_times] holds the clock
    readings in order. *)
Theorem running_mean cs :
  let r := record_all fresh_detections cs in
  snd r = false
  /\ total_detections (fst r) = Z.of_nat (List.length cs)
  /\ (avg_detection_confidence (fst r) * inject_Z (Z.of_nat (List.length cs))
      == Qsum (map fst cs))%Q
  /\ Forall (fun c => (min_detection_confidence (fst r) <= c
                       /\ c <= max_detection_confidence (fst r))%Q) (map fst cs)
  /\ detection_times (fst r) = map snd cs.
Proof.
  assert (H1 : total_detections fresh_detections = Z.of_nat (List.length (@nil Q)))
    by reflexivity.
  assert (H2 : (avg_detection_confidence fresh_detections
                * inject_Z (total_detections fresh_detections) == Qsum [])%Q)
    by reflexivity.
  destruct (record_all_from fresh_detections cs [] H1 H2 (Forall_nil _))
    as (I1 & I2 & I3 & I4 & _ & _ & I7 & _ & _).
  cbn [app] in *. rewrite length_map in I2.
  cbv zeta. rewrite <- I2. repeat split; assumption.
Qed.

Lemma flag_recorded stats (seen : bool) now :
  0 <= total_detections stats ->
  (seen = true <-> 0 < total_detections stats) ->
  (avg_detection_confidence stats == number_of_bool seen)%Q ->
  max_detection_confidence stats = number_of_bool seen ->
  min_detection_confidence stats = 1%Q ->
  let r := record_detection stats (number_of_bool true) now in
  snd r = false
  /\ total_detections (fst r) = total_detections stats + 1
  /\ (avg_detection_confidence (fst r) == 1)%Q
  /\ max_detection_confidence (fst r) = 1%Q
  /\ min_detection_confidence (fst r) = 1%Q.
Proof.
  intros Hn Hseen Havg Hmax Hmin.
  destruct (record_detection_counts stats (number_of_bool true) now Hn)
    as (Hr & Ht & Ha & Hmi & Hma & _).
  cbv zeta. repeat split; try assumption.
  - rewrite Ht in Ha. rewrite Havg in Ha.
    rewrite inject_Z_plus in Ha.
    assert (Hnz : ~ (inject_Z (total_detections stats) + inject_Z 1 == 0)%Q).
    { rewrite <- inject_Z_plus. change 0%Q with (inject_Z 0).
      rewrite inject_Z_injective. lia. }
    destruct seen; cbn [number_of_bool] in Ha.
    + apply (Qmult_inj_r _ _ _ Hnz). rewrite Ha.
      change (inject_Z 1) with 1%Q. ring.
    + assert (total_detections stats = 0).
      { destruct (Z.eq_dec (total_detections stats) 0) as [E|E]; [exact E|].
        assert (0 < total_detections stats) by lia.
        apply Hseen in H. discriminate. }
      rewrite H in *. apply (Qmult_inj_r _ _ _ Hnz). rewrite Ha.
      change (inject_Z 1) with 1%Q. change (inject_Z 0) with 0%Q. ring.
  - rewrite Hma, Hmax. destruct seen; reflexivity.
  - rewrite Hmi, Hmin. reflexivity.
Qed.

Lemma filter_all_from frames stats (seen : bool) :
  0 <= total_detections stats ->
  (seen = true <-> 0 < total_detections stats) ->
  (avg_detection_confidence stats == number_of_bool seen)%Q ->
  max_detection_confidence stats = number_of_bool seen ->
  min_detection_confidence stats = 1%Q ->
  let r := filter_all stats frames in
  snd r = false
  /\ total_detections (fst r)
     = total_detections stats + Z.of_nat (List.length (filter fst frames))
  /\ (avg_detection_confidence (fst r)
      == number_of_bool (seen || existsb fst frames))%Q
  /\ max_detection_confidence (fst r) = number_of_bool (seen || existsb fst frames)
  /\ min_detection_confidence (fst r) = 1%Q.
Proof.
  revert stats seen.
  induction frames as [|[d now] frames IH]; intros stats seen Hn Hseen Havg Hmax Hmin.
  - cbn [filter_all fst snd filter existsb List.length]. rewrite orb_false_r.
    repeat split; try assumption. lia.
  - cbn [filter_all fst snd filter existsb]. unfold update_detection_filter.
    destruct d.
    + destruct (flag_recorded stats seen now Hn Hseen Havg Hmax Hmin)
        as (Hr & Ht & Ha & Hma & Hmi).
      set (stats' := fst (record_detection stats (number_of_bool true) now)) in *.
      rewrite Hr. cbn [orb].
      assert (Hn' : 0 <= total_detections stats') by lia.
      assert (Hs' : true = true <-> 0 < total_detections stats')
        by (split; [intros _; lia | reflexivity]).
      destruct (IH stats' true Hn' Hs' Ha Hma Hmi) as (I1 & I2 & I3 & I4 & I5).
      cbn [orb] in *. rewrite orb_true_r.
      repeat split; try assumption.
      rewrite I2, Ht. cbn [List.length]. lia.
    + cbn [fst snd orb].
      destruct (IH stats seen Hn Hseen Havg Hmax Hmin) as (I1 & I2 & I3 & I4 & I5).
      repeat split; assumption.
Qed.

(** X17.  The detector records a qualifying frame with the flag
    [cat_detected] as its confidence, so whatever the confidences of the
    detections were: starting from statistics without loaded data,
    [total_detections] counts the qualifying frames, and as soon as there
    is one, [avg_detection_confidence] and [max_detection_confidence] are
    1, while [min_detection_confidence] stays at 1 throughout. *)
Theorem detector_records_flag frames :
  let r := filter_all fresh_detections frames in
  snd r = false
  /\ total_detections (fst r) = Z.of_nat (List.length (filter fst frames))
  /\ (avg_detection_confidence (fst r) == number_of_bool (existsb fst frames))%Q
  /\ max_detection_confidence (fst r) = number_of_bool (existsb fst frames)
  /\ min_detection_confidence (fst r) = 1%Q.
Proof.
  assert (Hs : false = true <-> 0 < total_detections fresh_detections)
    by (split; [discriminate | cbn; lia]).
  destruct (filter_all_from frames fresh_detections false (Z.le_refl 0) Hs
              (Qeq_refl _) eq_refl eq_refl) as (I1 & I2 & I3 & I4 & I5).
  cbn [orb] in *. repeat split; assumption.
Qed.

End DetectionStatsFacts.

(** ** System health *)

Section HealthFacts.
Import WindowCtl Monitor.

Lemma check_status critical warning key ct wt value (r : Report) :
  fst (check critical warning key ct wt value r)
  = match grade critical warning value with
    | Critical => "critical"%string
    | High => str_max (fst r) "warning"
    | Fine => fst r
    end.
Proof.
  unfold check, grade.
  destruct (Qlt_bool critical value); [reflexivity|].
  destruct (Qlt_bool warning value); reflexivity.
Qed.

(** X18.  When every probe answers, the status that [get_system_health]
    reports is that of the last check that found something, in the order
    CPU, memory, disk, temperature, error rate: a warning found after a
    critical value replaces it, because [max] compares the strings. *)
Theorem health_reports_last_finding cpu memory disk temps errors total :
  fst (get_system_health (answering cpu memory disk temps errors total))
  = status_of (last_finding (findings cpu memory disk temps errors total)).
Proof.
  unfold get_system_health, answering, findings, error_rate.
  cbn [cpu_percent memory_percent disk_percent cpu_temperature total_errors detections].
  destruct (Qlt_bool 0.1 (inject_Z errors / inject_Z (Z.max 1 total))).
  - cbn [fst]. destruct temps as [cpu_temp|]; rewrite ?check_status;
      rewrite ?check_status;
      destruct (grade 90 75 cpu), (grade 90 80 memory), (grade 95 85 disk);
      try destruct (grade 80 70 cpu_temp); reflexivity.
  - destruct temps as [cpu_temp|]; rewrite !check_status;
      destruct (grade 90 75 cpu), (grade 90 80 memory), (grade 95 85 disk);
      try destruct (grade 80 70 cpu_temp); reflexivity.
Qed.

(** X19.  When every probe answers and more than a tenth of the
    detections count an error, the status is ["warning"] whatever the
    other checks found, critical values included, and [check_health]
    neither restarts the detector nor reports it healthy. *)
Theorem high_error_rate_never_restarts cpu memory disk temps errors total :
  (0.1 < error_rate (answering cpu memory disk temps errors total))%Q ->
  fst (get_system_health (answering cpu memory disk temps errors total))
  = "warning"%string
  /\ check_health (answering cpu memory disk temps errors total) = (false, false).
Proof.
  intros Hrate.
  assert (Hb : Qlt_bool 0.1 (error_rate (answering cpu memory disk temps errors total))
               = true).
  { unfold Qlt_bool. apply negb_true_iff. apply Qle_bool_false_iff.
    apply Qlt_not_le. exact Hrate. }
  assert (Hs : fst (get_system_health (answering cpu memory disk temps errors total))
               = "warning"%string).
  { unfold get_system_health. rewrite Hb. unfold answering.
    cbn [cpu_percent memory_percent disk_percent cpu_temperature fst].
    destruct temps as [cpu_temp|]; rewrite !check_status;
      destruct (grade 90 75 cpu), (grade 90 80 memory), (grade 95 85 disk);
      try destruct (grade 80 70 cpu_temp); reflexivity. }
  split; [exact Hs|].
  unfold check_health. rewrite Hs. reflexivity.
Qed.

Lemma high_error_rate_never_restarts_witness :
  fst (get_system_health (answering 99 50 50 None 2 10)) = "warning"%string
  /\ check_health (answering 99 50 50 None 2 10) = (false, false).
Proof.
  apply (high_error_rate_never_restarts 99 50 50 None 2 10).
  reflexivity.
Defined.

Lemma raising_probe_fails p :
  some_probe_raises p -> exists r, get_system_health p = failed r.
Proof.
  intros H. unfold get_system_health.
  destruct (cpu_percent p) as [cpu|] eqn:E1; [|eexists; reflexivity].
  destruct (memory_percent p) as [memory|] eqn:E2; [|eexists; reflexivity].
  destruct (disk_percent p) as [disk|] eqn:E3; [|eexists; reflexivity].
  destruct (cpu_temperature p) as [temps|] eqn:E4; [|eexists; reflexivity].
  destruct H as [H|[H|[H|H]]]; congruence.
Qed.

(** X20.  When one of the probes raises, [get_system_health] reports the
    status ["unknown"], the last entry of the details has the key
    ["error"], and [check_health] neither restarts the detector nor
    reports it healthy. *)
Theorem raising_probe_is_unknown p :
  some_probe_raises p ->
  fst (get_system_health p) = "unknown"%string
  /\ (exists details text, snd (get_system_health p) = details ++ [("error"%string, text)])
  /\ check_health p = (false, false).
Proof.
  intros H. destruct (raising_probe_fails p H) as [r Hr].
  unfold check_health. rewrite Hr. unfold failed. cbn [fst snd].
  split; [reflexivity|]. split; [|reflexivity].
  eexists. eexists. reflexivity.
Qed.

Lemma raising_probe_is_unknown_witness :
  fst (get_system_health (mkProbes (Some 99%Q) None (Some 50%Q) (Some None) 0 0))
  = "unknown"%string.
Proof.
  apply (raising_probe_is_unknown (mkProbes (Some 99%Q) None (Some 50%Q) (Some None) 0 0)).
  right. left. reflexivity.
Defined.

Example critical_cpu_with_warm_disk :
  get_system_health (answering 99 50 90 None 0 10)
  = ("warning"%string,
     [("cpu"%string, "Critical CPU usage"%string);
      ("disk"%string, "High disk usage"%string)])
  /\ check_health (answering 99 50 90 None 0 10) = (false, false).
Proof. split; reflexivity. Qed.

Example critical_cpu_alone :
  check_health (answering 99 50 50 None 0 10) = (true, false).
Proof. reflexivity. Qed.

End HealthFacts.

(** ** Sending a Telegram message *)

Section SendingFacts.
Import TelegramBase.

Lemma first_delivered_ge bot n a k :
  first_delivered bot a n = Some k -> (a <= k < a + n)%nat /\ bot k = Delivered.
Proof.
  revert a. induction n as [|n IH]; intros a; cbn [first_delivered]; [discriminate|].
  destruct (bot a) eqn:Hb;
    try (intros H; apply IH in H; destruct H as [H1 H2]; split; [lia | exact H2]).
  intros H. inversion H. subst k. split; [lia | exact Hb].
Qed.

Lemma first_delivered_none bot n a :
  first_delivered bot a n = None ->
  forall k, (a <= k < a + n)%nat -> bot k <> Delivered.
Proof.
  revert a. induction n as [|n IH]; intros a; cbn [first_delivered]; [intros _ k; lia|].
  destruct (bot a) eqn:Hb; try discriminate;
    intros H k Hk;
    (destruct (Nat.eq_dec k a) as [->|Hne];
      [rewrite Hb; discriminate | apply (IH (S a) H); lia]).
Qed.

Lemma attempts_from_spec bot n a :
  (a + n = max_retries)%nat ->
  let s := attempts_from bot a n in
  let waits i := map (fun j => sleep_after j (bot j)) (seq a i) in
  match first_delivered bot a n with
  | Some k =>
      sent s = true /\ heartbeat s = true
      /\ tries s = S (k - a) /\ sleeps s = waits (k - a)%nat
  | None =>
      sent s = false /\ heartbeat s = false /\ tries s = n
      /\ (sleeps s = waits n
          \/ (bot (max_retries - 1)%nat = OtherError /\ sleeps s = waits (n - 1)%nat))
  end.
Proof.
  revert a. induction n as [|n IH]; intros a Ha; cbv zeta.
  - cbn. auto.
  - cbn [attempts_from first_delivered].
    assert (Hstep : forall w,
      sleep_after a (bot a) = w ->
      bot a <> Delivered ->
      match first_delivered bot (S a) n with
      | Some k =>
          sent (after_sleep w (attempts_from bot (S a) n)) = true
          /\ heartbeat (after_sleep w (attempts_from bot (S a) n)) = true
          /\ tries (after_sleep w (attempts_from bot (S a) n)) = S (k - a)
          /\ sleeps (after_sleep w (attempts_from bot (S a) n))
             = map (fun j => sleep_after j (bot j)) (seq a (k - a))
      | None =>
          sent (after_sleep w (attempts_from bot (S a) n)) = false
          /\ heartbeat (after_sleep w (attempts_from bot (S a) n)) = false
          /\ tries (after_sleep w (attempts_from bot (S a) n)) = S n
          /\ (sleeps (after_sleep w (attempts_from bot (S a) n))
              = map (fun j => sleep_after j (bot j)) (seq a (S n))
              \/ (bot (max_retries - 1)%nat = OtherError
                  /\ sleeps (after_sleep w (attempts_from bot (S a) n))
                     = map (fun j => sleep_after j (bot j)) (seq a (S n - 1))))
      end).
    { intros w Hw Hnd.
      assert (Ha' : (S a + n = max_retries)%nat) by lia.
      specialize (IH (S a) Ha'). cbv zeta in IH.
      destruct (first_delivered bot (S a) n) as [k|] eqn:Hf.
      - destruct IH as (I1 & I2 & I3 & I4).
        apply first_delivered_ge in Hf. destruct Hf as [Hk _].
        cbn [after_sleep sent heartbeat tries sleeps].
        repeat split; try assumption.
        + rewrite I3. lia.
        + rewrite I4. replace (k - a)%nat with (S (k - S a)) by lia.
          cbn [seq map]. rewrite Hw. reflexivity.
      - destruct IH as (I1 & I2 & I3 & I4).
        cbn [after_sleep sent heartbeat tries sleeps].
        repeat split; try assumption.
        + rewrite I3. reflexivity.
        + destruct I4 as [I4|[Ho I4]].
          * left. rewrite I4. cbn [seq map]. rewrite Hw. reflexivity.
          * destruct n as [|n'].
            -- left. cbn [seq map] in *. rewrite I4, Hw. reflexivity.
            -- right. split; [exact Ho|]. rewrite I4.
               replace (S (S n') - 1)%nat with (S (S n' - 1)) by lia.
               cbn [seq map]. rewrite Hw. reflexivity. }
    destruct (bot a) eqn:Hb.
    + rewrite Nat.sub_diag. cbn. auto.
    + apply Hstep; [reflexivity | discriminate].
    + apply Hstep; [reflexivity | discriminate].
    + destruct (a =? max_retries - 1)%nat eqn:He.
      * apply Nat.eqb_eq in He.
        assert (n = 0%nat) by (unfold max_retries in *; lia). subst n.
        cbn [first_delivered sent heartbeat tries sleeps].
        repeat split. right. rewrite <- He. split; [exact Hb | reflexivity].
      * apply Hstep; [reflexivity | discriminate].
Qed.

Lemma send_message_shape bot :
  let s := _send_message bot in
  exists n,
    (n <= tries s <= S n)%nat /\ (tries s <= max_retries)%nat /\ (1 <= tries s)%nat
    /\ sleeps s = map (fun j => sleep_after j (bot j)) (seq 0 n)
    /\ heartbeat s = sent s
    /\ (sent s = true <-> exists k, (k < max_retries)%nat /\ bot k = Delivered)
    /\ (sent s = true \/ tries s = max_retries).
Proof.
  cbv zeta. unfold _send_message.
  pose proof (attempts_from_spec bot max_retries 0 eq_refl) as H. cbv zeta in H.
  destruct (first_delivered bot 0 max_retries) as [k|] eqn:Hf.
  - destruct H as (H1 & H2 & H3 & H4).
    apply first_delivered_ge in Hf. destruct Hf as [Hk Hd].
    rewrite Nat.sub_0_r in *.
    exists k. rewrite H1, H2, H3, H4.
    repeat split; try lia; auto.
    intros _. exists k. split; [lia | exact Hd].
  - destruct H as (H1 & H2 & H3 & H4).
    pose proof (first_delivered_none bot _ _ Hf) as Hn.
    rewrite H1, H2, H3.
    assert (Hs : ~ exists k, (k < max_retries)%nat /\ bot k = Delivered).
    { intros [k [Hk Hd]]. apply (Hn k); [lia | exact Hd]. }
    destruct H4 as [H4|[_ H4]].
    + exists max_retries. rewrite H4.
      repeat split; try (unfold max_retries; lia); auto; try discriminate.
    + exists (max_retries - 1)%nat. rewrite H4.
      repeat split; try (unfold max_retries; lia); auto; try discriminate.
Qed.

(** X21.  Whatever the replies of the Telegram bot, [_send_message]
    calls [bot.send_message] at least once and at most [max_retries] (5)
    times, returns [True] exactly when one of these calls is delivered,
    sets the heartbeat exactly then, makes all five calls before it
    returns [False], and sleeps after each failed attempt but possibly
    the last: the delay asked for after [RetryAfter], and
    [base_retry_delay * 2 ** attempt] otherwise. *)
Theorem send_message_attempts bot :
  let s := _send_message bot in
  (1 <= tries s <= max_retries)%nat
  /\ (sent s = true <-> exists k, (k < max_retries)%nat /\ bot k = Delivered)
  /\ heartbeat s = sent s
  /\ (sent s = true \/ tries s = max_retries)
  /\ exists n, (n <= tries s <= S n)%nat
       /\ sleeps s = map (fun j => sleep_after j (bot j)) (seq 0 n).
Proof.
  cbv zeta. destruct (send_message_shape bot) as (n & H1 & H2 & H3 & H4 & H5 & H6 & H7).
  repeat split; try lia; try apply H6; try assumption.
  exists n. split; assumption.
Qed.

Lemma backoff_sum n :
  (n <= max_retries)%nat -> (Monitor.Qsum (map backoff (seq 0 n)) <= 62)%Q.
Proof.
  intros H. unfold max_retries in H.
  do 6 (destruct n as [|n]; [vm_compute; discriminate|]). lia.
Qed.

(** X22.  When none of the replies asks for a delay of its own,
    [_send_message] sleeps for at most 62 seconds in all
    (2 + 4 + 8 + 16 + 32) before it returns. *)
Theorem send_message_wait_bounded bot :
  never_rate_limited bot ->
  (Monitor.Qsum (sleeps (_send_message bot)) <= 62)%Q.
Proof.
  intros Hn.
  destruct (send_message_shape bot) as (n & H1 & H2 & _ & H4 & _).
  rewrite H4.
  assert (He : map (fun j => sleep_after j (bot j)) (seq 0 n) = map backoff (seq 0 n)).
  { apply map_ext_in. intros j Hj. apply in_seq in Hj.
    assert (Hlt : (j < max_retries)%nat) by lia.
    unfold sleep_after. destruct (bot j) eqn:Hb; try reflexivity.
    exfalso. apply (Hn j retry_after Hlt). exact Hb. }
  rewrite He. apply backoff_sum. lia.
Qed.

Lemma send_message_wait_bounded_witness :
  (Monitor.Qsum (sleeps (_send_message (fun _ => NetworkError))) <= 62)%Q
  /\ sleeps (_send_message (fun _ => NetworkError)) = [2; 4; 8; 16; 32]%Q.
Proof.
  split.
  - apply (send_message_wait_bounded (fun _ => NetworkError)).
    intros k w _. discriminate.
  - reflexivity.
Defined.

Example delivered_on_third_attempt :
  let bot k := match k with
               | 0%nat => NetworkError
               | 1%nat => RetryAfter 7
               | _ => Delivered
               end in
  _send_message bot = mkSending true 3 [backoff 0; 7%Q] true.
Proof. reflexivity. Qed.

Example other_error_on_last_attempt :
  let bot k := match k with
               | 4%nat => OtherError
               | _ => NetworkError
               end in
  _send_message bot = mkSending false 5 [backoff 0; backoff 1; backoff 2; backoff 3] false.
Proof. reflexivity. Qed.

End SendingFacts.

(** ** The detector and its window statistics *)

Section StatisticsFacts.
Import WindowCtl Session.

Lemma set_window_position_auto exec now w (target : bool) :
  let o := set_window_position exec now w target false in
  if returned o
  then is_window_open w = negb target /\ is_window_open (after o) = target
  else is_window_open (after o) = is_window_open w.
Proof.
  cbv zeta. unfold set_window_position.
  destruct (cooldown_active w now); [reflexivity|].
  cbn [enter_manual negb]. rewrite andb_true_r.
  destruct (Bool.eqb target (is_window_open w)) eqn:He; [reflexivity|].
  apply eqb_false_iff in He.
  destruct target; [destruct (exec Apri)|destruct (exec Chiudi)];
    cbn [returned after opened_at closed_at is_window_open negb];
    try reflexivity;
    (split; [destruct (is_window_open w); congruence | reflexivity]).
Qed.

(** What one event without a Telegram move leaves behind: either no
    change is announced and the controller's window is as before, or the
    change [b] is announced, the window was in the other state and is
    now in state [b]. *)
Lemma hands_off_step cfg self e :
  Statistics.hands_off e ->
  let v := Session.step cfg self (fst e) in
  match Detector.window_change v with
  | None =>
      is_window_open (Detector.window_controller (Detector.app_after v))
      = is_window_open (Detector.window_controller self)
  | Some b =>
      is_window_open (Detector.window_controller self) = negb b
      /\ is_window_open (Detector.window_controller (Detector.app_after v)) = b
  end.
Proof.
  destruct e as [[t|now exec|now exec| |] clock]; cbn [Statistics.hands_off fst];
    intros H; try contradiction; cbv zeta; cbn [Session.step].
  - unfold Detector.process_cat_detection.
    destruct (negb (auto_control_enabled (Detector.window_controller self)));
      [reflexivity|].
    destruct (tick_present t).
    + destruct (Detector.required_detection_time cfg <=? _); [|reflexivity].
      cbn [Detector.window_change Detector.app_after Detector.window_controller].
      pose proof (set_window_position_auto (tick_exec t) (tick_ctl_time t)
                    (Detector.window_controller self) true) as Hs.
      cbv zeta in Hs.
      destruct (returned (set_window_position _ _ _ true false)); exact Hs.
    + destruct (Detector.required_no_detection_time cfg <=? _); [|reflexivity].
      cbn [Detector.window_change Detector.app_after Detector.window_controller].
      pose proof (set_window_position_auto (tick_exec t) (tick_ctl_time t)
                    (Detector.window_controller self) false) as Hs.
      cbv zeta in Hs.
      destruct (returned (set_window_position _ _ _ false false)); exact Hs.
  - reflexivity.
  - reflexivity.
Qed.

Lemma statistics_step cfg state e :
  Statistics.hands_off e ->
  Statistics.in_step state ->
  let v := Session.step cfg (fst state) (fst e) in
  Statistics.in_step (Statistics.step cfg state e)
  /\ Monitor.window_openings (snd (Statistics.step cfg state e))
     = Monitor.window_openings (snd state)
       + match Detector.window_change v with Some true => 1 | _ => 0 end.
Proof.
  intros He Hin. cbv zeta.
  pose proof (hands_off_step cfg (fst state) e He) as Hs. cbv zeta in Hs.
  unfold Statistics.in_step, Statistics.step in *. cbn [fst snd].
  destruct (Detector.window_change (Session.step cfg (fst state) (fst e))) as [b|].
  - destruct Hs as [Hbefore Hafter]. rewrite Hafter.
    unfold Monitor.record_window_change. rewrite Hin, Hbefore.
    destruct b; cbn; split; try reflexivity; lia.
  - rewrite Hs. split; [exact Hin | lia].
Qed.

Lemma statistics_run cfg events state :
  Forall Statistics.hands_off events ->
  Statistics.in_step state ->
  Statistics.in_step (Statistics.run cfg state events)
  /\ Monitor.window_openings (snd (Statistics.run cfg state events))
     = Monitor.window_openings (snd state)
       + Z.of_nat (opens (Session.run cfg (fst state) (map fst events))).
Proof.
  intros Hf. revert state. induction Hf as [|e events He _ IH]; intros state Hin.
  - cbn. split; [exact Hin | lia].
  - cbn [Statistics.run fold_left map Session.run].
    destruct (statistics_step cfg state e He Hin) as [Hin' Hn].
    destruct (IH _ Hin') as [I1 I2].
    unfold Statistics.run in *. split; [exact I1|].
    rewrite I2, Hn, opens_cons.
    change (fst (Statistics.step cfg state e))
      with (Detector.app_after (Session.step cfg (fst state) (fst e))).
    destruct (Detector.window_change (Session.step cfg (fst state) (fst e)))
      as [[|]|]; lia.
Qed.

(** X23.  As long as the window is not moved from Telegram, the window
    statistics follow the controller: after any sequence of frames and
    mode commands on a newly started detector, with or without a
    statistics file, the monitor's [window_is_open] equals the
    controller's [is_window_open], and [window_openings] is the count
    the monitor started with (the one of the statistics file, else 0)
    plus the number of times the detector opened the window. *)
Theorem statistics_follow_controller cfg stats_file events :
  Forall Statistics.hands_off events ->
  let final := Statistics.run cfg (Statistics.start stats_file) events in
  Statistics.in_step final
  /\ Monitor.window_openings (snd final)
     = Monitor.window_openings (Monitor.init_window stats_file)
       + Z.of_nat (opens (Session.run cfg Detector.init (map fst events))).
Proof.
  intros Hf final.
  assert (H0 : Statistics.in_step (Statistics.start stats_file))
    by (destruct stats_file; reflexivity).
  destruct (statistics_run cfg events (Statistics.start stats_file) Hf H0) as [H1 H2].
  split; [exact H1|]. subst final. rewrite H2. reflexivity.
Qed.

Lemma statistics_follow_controller_witness :
  let ok (c : WireCommand) := true in
  let saved := Monitor.mkSavedWindow 5 (75 # 2) (Some 0) [(0, true)] in
  let events :=
    [ (Frame (mkTick true 0 0 ok), 0);
      (Frame (mkTick true 10000000 10000000 ok), 10000001);
      (Frame (mkTick false 11000000 11000000 ok), 11000001) ] in
  Monitor.window_openings
    (snd (Statistics.run Detector.default_config (Statistics.start (Some saved)) events))
  = 6.
Proof.
  intros ok saved events.
  pose proof (statistics_follow_controller Detector.default_config (Some saved) events)
    as H.
  cbv zeta in H.
  destruct H as [_ H]; [repeat constructor|].
  rewrite H. reflexivity.
Defined.

(** A window closed from Telegram stays open in the statistics, and the
    next opening by the detector is not counted. *)
Example telegram_close_not_recorded :
  let ok (c : WireCommand) := true in
  let events :=
    [ (Frame (mkTick true 0 0 ok), 0);
      (Frame (mkTick true 10000000 10000000 ok), 10000001);
      (TelegramChiudi 20000000 ok, 0);
      (TelegramAuto, 0);
      (Frame (mkTick true 30000000 30000000 ok), 30000001) ] in
  let final := Statistics.run Detector.default_config (Statistics.start None) events in
  opens (Session.run Detector.default_config Detector.init (map fst events)) = 2%nat
  /\ Monitor.window_openings (snd final) = 1
  /\ ~ Statistics.in_step
        (Statistics.run Detector.default_config (Statistics.start None)
           (firstn 3 events)).
Proof.
  cbv zeta. split; [reflexivity|]. split; [reflexivity|].
  unfold Statistics.in_step. vm_compute. discriminate.
Qed.

End StatisticsFacts.

(** ** The open time of the last day *)

Section DailyFacts.
Import Monitor Daily.

Lemma sorted_middle (l1 : list Z) x l2 :
  StronglySorted Z.lt (l1 ++ x :: l2) ->
  Forall (fun y => y < x) l1 /\ Forall (fun y => x < y) l2
  /\ StronglySorted Z.lt (l1 ++ l2).
Proof.
  induction l1 as [|a l1 IH]; cbn [app]; intros H.
  - apply StronglySorted_inv in H. destruct H as [H1 H2].
    repeat split; [constructor | exact H2 | exact H1].
  - apply StronglySorted_inv in H. destruct H as [H1 H2].
    destruct (IH H1) as (I1 & I2 & I3).
    apply Forall_app in H2. destruct H2 as [H2 H3].
    apply Forall_cons_iff in H3. destruct H3 as [H3 H4].
    repeat split.
    + constructor; assumption.
    + exact I2.
    + constructor; [exact I3|]. apply Forall_app. split; assumption.
Qed.

Lemma next_close_skip t pre rest :
  Forall (fun e => fst e <= t) pre ->
  next_close t (pre ++ rest) = next_close t rest.
Proof.
  induction pre as [|[t' s'] pre IH]; cbn [app]; intros H; [reflexivity|].
  apply Forall_cons_iff in H. destruct H as [H1 H2]. cbn [fst] in H1.
  cbn [next_close].
  destruct (t <? t') eqn:E; [apply Z.ltb_lt in E; lia|].
  cbn [andb]. apply IH. exact H2.
Qed.

Lemma running_cons is_open today x y rest :
  running is_open today (x :: y :: rest) = running is_open today (y :: rest).
Proof. reflexivity. Qed.

Lemma open_intervals_cons t1 (s1 : bool) t2 (s2 : bool) rest :
  open_intervals ((t1, s1) :: (t2, s2) :: rest)
  = (if s1 && negb s2 then [t2 - t1] else [])
    ++ open_intervals ((t2, s2) :: rest).
Proof. destruct s1, s2; reflexivity. Qed.

(** The loop of [get_daily_stats] from an entry on, on a history whose
    times increase and whose states alternate. *)
Lemma daily_loop self today suf :
  forall pre e,
    window_state_history self = pre ++ suf ->
    StronglySorted Z.lt (map fst (pre ++ suf)) ->
    alternating e (map snd suf) ->
    Forall (fun t => today - days 1 <= t) (map fst suf) ->
    flat_map (fun entry => match added self today entry with
                           | Some d => [d]
                           | None => []
                           end) suf
    = open_intervals suf ++ running (window_is_open self) today suf.
Proof.
  induction suf as [|[t b] suf IH]; intros pre e Hh Hs Ha Hy.
  - reflexivity.
  - cbn [flat_map].
    cbn [map fst snd alternating] in Ha, Hy. destruct Ha as [Hb Ha]. subst e.
    apply Forall_cons_iff in Hy. destruct Hy as [Hy1 Hy].
    assert (Hh' : window_state_history self = (pre ++ [(t, b)]) ++ suf)
      by (rewrite <- app_assoc; exact Hh).
    assert (Hs' : StronglySorted Z.lt (map fst ((pre ++ [(t, b)]) ++ suf)))
      by (rewrite <- app_assoc; exact Hs).
    rewrite (IH (pre ++ [(t, b)]) (negb b) Hh' Hs' Ha Hy).
    rewrite map_app in Hs. cbn [map fst] in Hs.
    destruct (sorted_middle _ _ _ Hs) as (Hlt & Hgt & _).
    assert (Hpre : Forall (fun x => fst x <= t) pre).
    { apply Forall_map in Hlt. eapply Forall_impl; [|exact Hlt].
      intros x Hx. cbv beta in *. apply Z.lt_le_incl. exact Hx. }
    unfold added. cbn [fst snd]. rewrite Hh.
    rewrite (next_close_skip t pre _ Hpre).
    destruct (today - days 1 <=? t) eqn:Ey; [|apply Z.leb_gt in Ey; lia].
    cbn [andb]. cbn [next_close]. rewrite Z.ltb_irrefl. cbn [andb].
    destruct b.
    + destruct suf as [|[t2 b2] suf'].
      * cbn [next_close]. unfold running. cbn.
        destruct (window_is_open self); reflexivity.
      * cbn [map fst snd alternating] in Ha. destruct Ha as [Hb2 _].
        apply Forall_cons_iff in Hgt. destruct Hgt as [Hgt _].
        cbn [negb] in Hb2. subst b2.
        cbn [next_close negb].
        assert (E : (t <? t2) = true) by (apply Z.ltb_lt; exact Hgt).
        rewrite E.
        cbn [andb]. rewrite running_cons, open_intervals_cons.
        cbn [andb negb app]. reflexivity.
    + destruct suf as [|[t2 b2] suf'].
      * reflexivity.
      * rewrite running_cons, open_intervals_cons. cbn [andb app]. reflexivity.
Qed.

Lemma window_calls_consistent cs s :
  window_consistent s -> window_consistent (window_calls s cs).
Proof.
  revert s. induction cs as [|c cs IH]; intros s H; [exact H|].
  cbn [window_calls fold_left]. apply IH. apply window_call_consistent. exact H.
Qed.

Lemma forall_middle (P : Z -> Prop) l1 x l2 :
  Forall P (l1 ++ x :: l2) -> Forall P (l1 ++ l2).
Proof.
  intros H. apply Forall_app in H. destruct H as [H1 H2].
  apply Forall_cons_iff in H2. apply Forall_app. tauto.
Qed.

(** The times of the history are among the clock readings of the
    [record_window_change] calls, in their order. *)
Lemma history_times (P : Z -> Prop) cs s :
  StronglySorted Z.lt (map fst (window_state_history s) ++ change_times cs) ->
  Forall P (map fst (window_state_history s) ++ change_times cs) ->
  StronglySorted Z.lt (map fst (window_state_history (window_calls s cs)))
  /\ Forall P (map fst (window_state_history (window_calls s cs))).
Proof.
  revert s. induction cs as [|[b now|now1 now2] cs IH]; intros s Hs Hp.
  - cbn [change_times window_calls fold_left] in *. rewrite app_nil_r in *. auto.
  - cbn [change_times window_calls fold_left window_call] in *.
    apply IH; unfold record_window_change;
      destruct (negb (Bool.eqb (window_is_open s) b));
      cbn [window_state_history];
      try (rewrite map_app, <- app_assoc; assumption).
    + apply sorted_middle in Hs. tauto.
    + apply forall_middle in Hp. exact Hp.
  - cbn [change_times window_calls fold_left window_call] in *.
    apply IH; unfold _update_window_time;
      destruct (window_is_open s); try assumption;
      destruct (window_open_time s); assumption.
Qed.

(** X24.  For a monitor without loaded statistics whose
    [record_window_change] calls read strictly increasing clock values,
    all within the day before [today]: the intervals whose minutes the
    nested loops of [get_daily_stats] add up are, in order, the time from
    each open entry of [window_state_history] to the closed entry after
    it, followed by the time from the last entry to [today] when the
    window stands open. *)
Theorem daily_open_time cs today :
  StronglySorted Z.lt (change_times cs) ->
  Forall (fun t => today - days 1 <= t) (change_times cs) ->
  let s := window_calls fresh_window cs in
  added_intervals s today
  = open_intervals (window_state_history s)
    ++ running (window_is_open s) today (window_state_history s).
Proof.
  intros Hs Hp s.
  destruct (history_times (fun t => today - days 1 <= t) cs fresh_window Hs Hp)
    as [Hs' Hp'].
  pose proof (window_calls_consistent cs fresh_window fresh_window_consistent)
    as (_ & Ha & _).
  fold s in Hs', Hp', Ha.
  unfold added_intervals.
  apply (daily_loop s today (window_state_history s) [] true eq_refl Hs' Ha Hp').
Qed.

Lemma daily_open_time_witness :
  let cs := [Change true 0; UpdateTime 60000000 60000005;
             Change false 120000000; Change true 300000000] in
  added_intervals (window_calls fresh_window cs) 600000000
  = [120000000; 300000000].
Proof.
  intros cs.
  rewrite (daily_open_time cs 600000000).
  - reflexivity.
  - repeat constructor.
  - repeat constructor; cbn; discriminate.
Defined.

End DailyFacts.

(** ** The image cache of the file manager *)

Section CacheFacts.
Import FileManager.

Lemma insert_perm x l : Permutation (insert x l) (x :: l).
Proof.
  induction l as [|y l IH]; cbn [insert]; [apply Permutation_refl|].
  destruct (timestamp (snd y) <=? timestamp (snd x)).
  - eapply perm_trans; [apply perm_skip; exact IH | apply perm_swap].
  - apply Permutation_refl.
Qed.

Lemma insert_sorted x l :
  StronglySorted older l -> StronglySorted older (insert x l).
Proof.
  induction l as [|y l IH]; cbn [insert]; intros H.
  - constructor; constructor.
  - apply StronglySorted_inv in H. destruct H as [H1 H2].
    destruct (timestamp (snd y) <=? timestamp (snd x)) eqn:E.
    + apply Z.leb_le in E. constructor; [apply IH; exact H1|].
      apply (Permutation_Forall (Permutation_sym (insert_perm x l))).
      constructor; [exact E | exact H2].
    + apply Z.leb_gt in E. constructor.
      * constructor; assumption.
      * constructor; [unfold older; lia|].
        eapply Forall_impl; [|exact H2]. unfold older. intros a Ha. lia.
Qed.

Lemma sorted_from acc l :
  StronglySorted older acc ->
  Permutation (fold_left (fun a x => insert x a) l acc) (l ++ acc)
  /\ StronglySorted older (fold_left (fun a x => insert x a) l acc).
Proof.
  revert acc. induction l as [|x l IH]; intros acc H; cbn [fold_left app].
  - split; [apply Permutation_refl | exact H].
  - destruct (IH (insert x acc) (insert_sorted x acc H)) as [I1 I2].
    split; [|exact I2].
    eapply perm_trans; [exact I1|].
    eapply perm_trans; [apply Permutation_app_head; apply insert_perm|].
    apply Permutation_sym. apply Permutation_middle.
Qed.

Lemma sorted_spec l :
  Permutation (sorted l) l /\ StronglySorted older (sorted l).
Proof.
  destruct (sorted_from [] l (SSorted_nil _)) as [H1 H2].
  rewrite app_nil_r in H1. split; assumption.
Qed.

Lemma existsb_eqb_in k paths :
  existsb (String.eqb k) paths = true <-> In k paths.
Proof.
  rewrite existsb_exists. split.
  - intros [x [Hx He]]. apply String.eqb_eq in He. subst x. exact Hx.
  - intros H. exists k. split; [exact H | apply String.eqb_refl].
Qed.

Lemma forget_without paths cache : forget paths cache = without paths cache.
Proof.
  unfold forget, without. revert cache.
  induction paths as [|p paths IH]; intros cache; cbn [fold_left existsb].
  - rewrite (filter_ext _ (fun _ => true)); [rewrite filter_true; reflexivity|].
    reflexivity.
  - rewrite IH. unfold del.
    induction cache as [|e cache IHc]; cbn [filter]; [reflexivity|].
    destruct (String.eqb (fst e) p) eqn:E; cbn [negb orb filter].
    + exact IHc.
    + destruct (negb (existsb (String.eqb (fst e)) paths)); [rewrite IHc|]; auto.
Qed.

Lemma evict_without (rem : Cache) cache :
  fold_left (fun c item => del (fst item) c) rem cache = without (keys rem) cache.
Proof.
  rewrite <- forget_without. unfold forget, keys.
  revert cache. induction rem as [|r rem IH]; intros cache; cbn; [reflexivity|].
  apply IH.
Qed.

Lemma without_incl paths cache : incl (without paths cache) cache.
Proof. intros e H. apply filter_In in H. tauto. Qed.

Lemma without_length paths cache :
  (List.length (without paths cache) <= List.length cache)%nat.
Proof. apply filter_length_le. Qed.

Lemma without_keys paths cache :
  NoDup (keys cache) -> NoDup (keys (without paths cache)).
Proof.
  unfold keys, without. induction cache as [|e cache IH]; cbn [map filter]; intros H;
    [constructor|].
  apply NoDup_cons_iff in H. destruct H as [H1 H2].
  destruct (negb (existsb (String.eqb (fst e)) paths)); [|apply IH; exact H2].
  cbn [map]. constructor; [|apply IH; exact H2].
  intros Hin. apply H1. apply in_map_iff in Hin. destruct Hin as [x [Hx Hi]].
  apply filter_In in Hi. apply in_map_iff. exists x. tauto.
Qed.

Lemma filter_perm (A : Type) (f : A -> bool) l l' :
  Permutation l l' -> Permutation (filter f l) (filter f l').
Proof.
  induction 1 as [|x l l' _ IH|x y l|l l' l'' _ IH1 _ IH2]; cbn [filter].
  - constructor.
  - destruct (f x); [apply perm_skip|]; exact IH.
  - destruct (f x), (f y); try apply Permutation_refl. apply perm_swap.
  - eapply perm_trans; eassumption.
Qed.

Lemma sorted_split (l1 l2 : Cache) :
  StronglySorted older (l1 ++ l2) ->
  forall a b, In a l1 -> In b l2 -> older a b.
Proof.
  induction l1 as [|x l1 IH]; cbn [app]; intros H a b Ha Hb; [contradiction|].
  apply StronglySorted_inv in H. destruct H as [H1 H2].
  destruct Ha as [->|Ha]; [|apply (IH H1 a b Ha Hb)].
  rewrite Forall_forall in H2. apply H2. apply in_or_app. right. exact Hb.
Qed.

Lemma nodup_app_disjoint (l1 l2 : list string) x :
  NoDup (l1 ++ l2) -> In x l1 -> In x l2 -> False.
Proof.
  induction l1 as [|y l1 IH]; cbn [app]; intros H H1 H2; [contradiction|].
  apply NoDup_cons_iff in H. destruct H as [Hy Hn].
  destruct H1 as [->|H1]; [|apply (IH Hn H1 H2)].
  apply Hy. apply in_or_app. right. exact H2.
Qed.

(** Dropping the paths of the first [k] entries of a list with distinct
    paths leaves the other entries. *)
Lemma without_front (s : Cache) k :
  NoDup (keys s) ->
  without (keys (firstn k s)) s = skipn k s.
Proof.
  intros Hn.
  rewrite <- (firstn_skipn k s) at 2.
  rewrite <- (firstn_skipn k s) in Hn.
  set (rem := firstn k s) in *. set (keep := skipn k s) in *.
  unfold keys in Hn. rewrite map_app in Hn.
  unfold without. rewrite filter_app.
  rewrite (filter_ext_in _ (fun _ => false) rem), filter_false.
  - rewrite (filter_ext_in _ (fun _ => true) keep), filter_true; [reflexivity|].
    intros e He. apply negb_true_iff.
    destruct (existsb (String.eqb (fst e)) (keys rem)) eqn:E; [|reflexivity].
    exfalso. apply existsb_eqb_in in E.
    apply (nodup_app_disjoint _ _ (fst e) Hn E). apply in_map. exact He.
  - intros e He. apply negb_false_iff. apply existsb_eqb_in.
    unfold keys. apply in_map. exact He.
Qed.

Lemma clean_cache cache n :
  NoDup (keys cache) ->
  (n < List.length cache)%nat ->
  let s := sorted cache in
  let k := (List.length cache - n)%nat in
  Permutation (_clean_cache_if_needed n cache) (skipn k s)
  /\ _clean_cache_if_needed n cache = without (keys (firstn k s)) cache.
Proof.
  intros Hn Hlt s k.
  destruct (sorted_spec cache) as [Hp _]. fold s in Hp.
  unfold _clean_cache_if_needed.
  destruct (n <? List.length cache)%nat eqn:E; [|apply Nat.ltb_ge in E; lia].
  cbv zeta. fold s. fold k. rewrite evict_without. split; [|reflexivity].
  assert (Hs : NoDup (keys s)).
  { unfold keys. apply (Permutation_NoDup (l := map fst cache)); [|exact Hn].
    apply Permutation_map. apply Permutation_sym. exact Hp. }
  rewrite <- (without_front s k Hs).
  unfold without. apply filter_perm. apply Permutation_sym. exact Hp.
Qed.

(** X25.  On a cache with distinct paths [_clean_cache_if_needed(n)]
    leaves at most [n] entries (all of them when there are no more than
    [n]), keeps their paths distinct, adds none, and evicts the oldest:
    no evicted entry is younger than an entry kept. *)
Theorem clean_cache_keeps_newest cache n :
  NoDup (keys cache) ->
  let kept := _clean_cache_if_needed n cache in
  List.length kept = Nat.min n (List.length cache)
  /\ NoDup (keys kept)
  /\ incl kept cache
  /\ forall old new, In old cache -> ~ In old kept -> In new kept -> older old new.
Proof.
  intros Hn kept.
  destruct (Nat.lt_ge_cases n (List.length cache)) as [Hlt|Hge].
  - destruct (clean_cache cache n Hn Hlt) as [Hp He]. cbv zeta in Hp, He.
    fold kept in Hp, He.
    destruct (sorted_spec cache) as [Hps Hss].
    set (s := sorted cache) in *. set (k := (List.length cache - n)%nat) in *.
    repeat split.
    + rewrite (Permutation_length Hp), length_skipn, (Permutation_length Hps). lia.
    + rewrite He. apply without_keys. exact Hn.
    + rewrite He. apply without_incl.
    + intros old new Ho Hno Hnew.
      rewrite <- (firstn_skipn k s) in Hss.
      apply (sorted_split _ _ Hss).
      * assert (Hin : In old s) by (apply (Permutation_in _ (Permutation_sym Hps)); exact Ho).
        rewrite <- (firstn_skipn k s) in Hin. apply in_app_or in Hin.
        destruct Hin as [Hin|Hin]; [exact Hin|].
        exfalso. apply Hno. apply (Permutation_in _ (Permutation_sym Hp)). exact Hin.
      * apply (Permutation_in _ Hp). exact Hnew.
  - assert (Hk : kept = cache).
    { subst kept. unfold _clean_cache_if_needed.
      destruct (n <? List.length cache)%nat eqn:E; [apply Nat.ltb_lt in E; lia|].
      reflexivity. }
    rewrite Hk. repeat split.
    + lia.
    + exact Hn.
    + apply incl_refl.
    + intros old new Ho Hno. contradiction.
Qed.

Lemma clean_cache_keeps_newest_witness :
  let e (k : string) (t : Z) := (k, mkCached t 1) in
  _clean_cache_if_needed 2 [e "a" 30; e "b" 10; e "c" 20]%string
  = [e "a" 30; e "c" 20]%string
  /\ List.length (_clean_cache_if_needed 2 [e "a" 30; e "b" 10; e "c" 20]%string)
     = Nat.min 2 3.
Proof.
  intros e. split; [reflexivity|].
  apply (clean_cache_keeps_newest [e "a" 30; e "b" 10; e "c" 20]%string 2).
  repeat constructor; cbn; intuition discriminate.
Defined.

Lemma set_keys k v cache :
  keys (set k v cache) = keys cache /\ In k (keys cache)
  \/ keys (set k v cache) = keys cache ++ [k] /\ ~ In k (keys cache).
Proof.
  unfold keys. induction cache as [|[k' v'] cache IH]; cbn [set map fst].
  - right. split; [reflexivity | intros []].
  - destruct (String.eqb k' k) eqn:E.
    + apply String.eqb_eq in E. subst k'. left. cbn [map fst In]. auto.
    + apply String.eqb_neq in E. cbn [map fst].
      destruct IH as [[H1 H2]|[H1 H2]].
      * left. rewrite H1. split; [reflexivity | right; exact H2].
      * right. rewrite H1. split; [reflexivity|].
        intros [H|H]; [exact (E H) | exact (H2 H)].
Qed.

Lemma set_bounded k v cache n :
  NoDup (keys cache) -> (List.length cache <= n)%nat ->
  NoDup (keys (set k v cache)) /\ (List.length (set k v cache) <= S n)%nat.
Proof.
  intros Hn Hl.
  assert (Hlen : forall c : Cache, List.length c = List.length (keys c))
    by (intros c; unfold keys; rewrite length_map; reflexivity).
  rewrite (Hlen (set k v cache)). rewrite Hlen in Hl.
  destruct (set_keys k v cache) as [[H1 H2]|[H1 H2]]; rewrite H1.
  - split; [exact Hn | lia].
  - split.
    + apply NoDup_app; [exact Hn | constructor; [intros [] | constructor] |].
      intros a Ha [<-|[]]. exact (H2 Ha).
    + rewrite length_app. cbn [List.length]. lia.
Qed.

Lemma clean_cache_bounded cache n :
  NoDup (keys cache) ->
  NoDup (keys (_clean_cache_if_needed n cache))
  /\ (List.length (_clean_cache_if_needed n cache) <= n)%nat.
Proof.
  intros Hn.
  destruct (Nat.lt_ge_cases n (List.length cache)) as [Hlt|Hge].
  - destruct (clean_cache cache n Hn Hlt) as [Hp He]. cbv zeta in Hp, He.
    split.
    + rewrite He. apply without_keys. exact Hn.
    + rewrite (Permutation_length Hp), length_skipn.
      destruct (sorted_spec cache) as [Hps _].
      rewrite (Permutation_length Hps). lia.
  - unfold _clean_cache_if_needed.
    destruct (n <? List.length cache)%nat eqn:E; [apply Nat.ltb_lt in E; lia|].
    split; [exact Hn | exact Hge].
Qed.

Lemma call_bounded cache c :
  NoDup (keys cache) -> (List.length cache <= 101)%nat ->
  NoDup (keys (call cache c)) /\ (List.length (call cache c) <= 101)%nat.
Proof.
  intros Hn Hl. destruct c as [s|deleted_files]; cbn [call].
  - unfold save_image. rewrite forget_without.
    pose proof (without_keys (deleted s) cache Hn) as Hn1.
    pose proof (without_length (deleted s) cache) as Hl1.
    destruct (write_raises s); cbn [snd]; [split; [exact Hn1 | lia]|].
    destruct (clean_cache_bounded _ 100%nat Hn1) as [C1 C2].
    apply set_bounded; assumption.
  - rewrite forget_without. split; [apply without_keys; exact Hn|].
    pose proof (without_length deleted_files cache). lia.
Qed.

(** X26.  Whatever calls of [save_image] and [cleanup_storage] the file
    manager receives, with whatever paths, clock readings and write
    failures, [image_cache] never holds more than 101 entries (the limit
    of 100 is enforced before the new entry is added), and no path occurs
    in it twice. *)
Theorem image_cache_bounded cs :
  (List.length (calls [] cs) <= 101)%nat /\ NoDup (keys (calls [] cs)).
Proof.
  assert (H : forall cache,
             NoDup (keys cache) -> (List.length cache <= 101)%nat ->
             (List.length (calls cache cs) <= 101)%nat /\ NoDup (keys (calls cache cs))).
  { induction cs as [|c cs IH]; intros cache Hn Hl; [split; assumption|].
    cbn [calls fold_left]. destruct (call_bounded cache c Hn Hl) as [Hn' Hl'].
    apply IH; assumption. }
  apply H; [constructor | cbn; lia].
Qed.

Example cache_of_150_saves :
  let save (n : nat) :=
    SaveImage (mkSave [] (String (ascii_of_nat n) EmptyString) false (Z.of_nat n) 1) in
  let cache := calls [] (map save (seq 0 150)) in
  List.length cache = 101%nat
  /\ keys (firstn 2 cache)
     = [String (ascii_of_nat 49) EmptyString; String (ascii_of_nat 50) EmptyString].
Proof. vm_compute. split; reflexivity. Qed.

End CacheFacts.

(** ** The connection watchdog *)

Section WatchdogFacts.
Import WindowCtl Watchdog.

Lemma round_bounded f r :
  0 <= f < max_connection_failures ->
  0 <= fst (round f r) < max_connection_failures.
Proof.
  unfold round, max_connection_failures. intros H.
  destruct (negb (bot_initialized r)); [exact H|].
  destruct (Qlt_bool heartbeat_timeout (time_since_heartbeat r)); [cbn; lia|].
  destruct (negb (check_connection r)); [|cbn; lia].
  destruct (3 <=? f + 1) eqn:E; cbn [fst]; [lia|].
  apply Z.leb_gt in E. lia.
Qed.

Lemma rounds_bounded rs f :
  0 <= f < max_connection_failures ->
  0 <= fst (rounds f rs) < max_connection_failures.
Proof.
  revert f. induction rs as [|r rs IH]; intros f H; [exact H|].
  cbn [rounds fst]. apply IH. apply round_bounded. exact H.
Qed.

Lemma rounds_app rs1 rs2 f :
  rounds f (rs1 ++ rs2)
  = (fst (rounds (fst (rounds f rs1)) rs2),
     (snd (rounds f rs1) + snd (rounds (fst (rounds f rs1)) rs2))%nat).
Proof.
  revert f. induction rs1 as [|r rs1 IH]; intros f; cbn [app rounds fst snd].
  - destruct (rounds f rs2); reflexivity.
  - rewrite IH. cbn [fst snd]. f_equal. lia.
Qed.

Lemma failing_round f r :
  failing r ->
  round f r = if max_connection_failures <=? f + 1 then (0, true) else (f + 1, false).
Proof.
  intros (Hi & Hh & Hc). unfold round. rewrite Hi, Hc. cbn [negb].
  assert (E : Qlt_bool heartbeat_timeout (time_since_heartbeat r) = false).
  { unfold Qlt_bool. apply negb_false_iff. apply Qle_bool_iff. exact Hh. }
  rewrite E. reflexivity.
Qed.

(** X27.  Whatever the watchdog reads in its rounds,
    [connection_failures] stays between 0 and 2 at the end of every
    round, and three rounds in a row in which the bot is initialized, the
    heartbeat is fresh and the connection check fails contain exactly one
    call of [_restart_bot]. *)
Theorem watchdog_restarts_on_third_failure rs r1 r2 r3 :
  failing r1 -> failing r2 -> failing r3 ->
  let before := rounds 0 rs in
  let after := rounds 0 (rs ++ [r1; r2; r3]) in
  0 <= fst before < max_connection_failures
  /\ 0 <= fst after < max_connection_failures
  /\ snd after = S (snd before).
Proof.
  intros H1 H2 H3 before after.
  assert (H0 : 0 <= 0 < max_connection_failures) by (unfold max_connection_failures; lia).
  pose proof (rounds_bounded rs 0 H0) as Hb. fold before in Hb.
  pose proof (rounds_bounded (rs ++ [r1; r2; r3]) 0 H0) as Ha. fold after in Ha.
  split; [exact Hb|]. split; [exact Ha|].
  subst after. rewrite rounds_app. fold before. cbn [snd rounds fst].
  rewrite (failing_round _ r1 H1).
  unfold max_connection_failures in *.
  destruct (3 <=? fst before + 1) eqn:E1; cbn [fst snd].
  - rewrite (failing_round _ r2 H2). cbn [fst snd Z.leb Z.add Z.compare Pos.compare].
    rewrite (failing_round _ r3 H3). cbn. lia.
  - apply Z.leb_gt in E1. rewrite (failing_round _ r2 H2).
    unfold max_connection_failures.
    destruct (3 <=? fst before + 1 + 1) eqn:E2; cbn [fst snd].
    + rewrite (failing_round _ r3 H3). cbn. lia.
    + apply Z.leb_gt in E2. rewrite (failing_round _ r3 H3).
      unfold max_connection_failures.
      destruct (3 <=? fst before + 1 + 1 + 1) eqn:E3; cbn [fst snd]; [lia|].
      apply Z.leb_gt in E3. lia.
Qed.

Lemma watchdog_restarts_on_third_failure_witness :
  let down := mkRound true 10 false in
  let up := mkRound true 10 true in
  snd (rounds 0 ([down; up; down] ++ [down; down; down]))
  = S (snd (rounds 0 [down; up; down])).
Proof.
  intros down up.
  apply (watchdog_restarts_on_third_failure [down; up; down] down down down);
    (split; [reflexivity | split; [discriminate | reflexivity]]).
Defined.

End WatchdogFacts.
